(** * cuda-setup: driver compatibility and nvidia-smi repair

    A shallow embedding of the [cuda_cli] package (core/constants.py,
    utils/subprocess_utils.py, core/system.py, core/driver.py and
    core/nvidia_smi.py) together with the properties its specification
    states about it.

    Python values are modelled as follows.
    - A [str] is a [string]; its characters are code points below 256.
      Text that a program or a file supplies as bytes is held decoded, or
      as the failure of decoding it.
    - A [pathlib.Path] is an absolute path, the list of its components.
    - A raised exception is a value of [exn]; a call that may raise has type
      [result A].
    - The operating system (file system, environment, clock and the sudo
      helper) is an explicit [World] that the effectful functions thread
      through. *)

From Stdlib Require Import ZArith NArith Ascii String List Bool Lia.
From stdpp Require Import base option list strings gmap pretty.

Open Scope string_scope.

(** ** Python runtime: exceptions and results *)

Module Py.

(** Error numbers of the system calls the package reaches. *)
Inductive errno := ENOENT | EACCES | ELOOP | ENOTDIR | EISDIR | ENOEXEC | EIO.

(** The exception classes that occur in the package.  [OSError e] stands for
    the subclass Python picks from the error number ([FileNotFoundError] for
    [ENOENT], [PermissionError] for [EACCES]). *)
Inductive exn :=
| SubprocessError (msg : string) (returncode : option Z)
| NvidiaSmiError (msg : string)
| DriverError (msg : string)
| InvalidVersion (msg : string)
| ValueError (msg : string)
| IndexError (msg : string)
| RuntimeError (msg : string)
| UnicodeDecodeError (reason : string)
| TimeoutExpired
| OSError (e : errno).

Definition is_OSError (e : exn) : bool :=
  match e with OSError _ => true | _ => false end.

Definition is_SubprocessError (e : exn) : bool :=
  match e with SubprocessError _ _ => true | _ => false end.

(** [InvalidVersion] and [UnicodeDecodeError] derive from [ValueError]. *)
Definition is_ValueError (e : exn) : bool :=
  match e with
  | ValueError _ | InvalidVersion _ | UnicodeDecodeError _ => true
  | _ => false
  end.

Definition is_RuntimeError (e : exn) : bool :=
  match e with RuntimeError _ => true | _ => false end.

Definition errno_str (e : errno) : string :=
  match e with
  | ENOENT => "No such file or directory"
  | EACCES => "Permission denied"
  | ELOOP => "Too many levels of symbolic links"
  | ENOTDIR => "Not a directory"
  | EISDIR => "Is a directory"
  | ENOEXEC => "Exec format error"
  | EIO => "Input/output error"
  end.

(** [str(e)].  For an [OSError] this is the message of the error number;
    Python puts the number before it and the file name after it. *)
Definition exn_str (e : exn) : string :=
  match e with
  | SubprocessError msg _ | NvidiaSmiError msg | DriverError msg
  | InvalidVersion msg | ValueError msg | IndexError msg | RuntimeError msg
  | UnicodeDecodeError msg => msg
  | TimeoutExpired => "Command timed out"
  | OSError e => errno_str e
  end.

Inductive result (A : Type) : Type :=
| Return (a : A)
| Raise (e : exn).
Arguments Return {A} a.
Arguments Raise {A} e.

Definition bind {A B} (m : result A) (k : A -> result B) : result B :=
  match m with
  | Return a => k a
  | Raise e => Raise e
  end.

Definition raised {A} (m : result A) : bool :=
  match m with Raise _ => true | Return _ => false end.

(** [str(x)] of an optional value: [None] prints as the word None. *)
Definition str_opt (o : option string) : string :=
  match o with Some s => s | None => "None" end.

(** [sep.join(parts)] *)
Fixpoint join (sep : string) (parts : list string) : string :=
  match parts with
  | [] => ""
  | [x] => x
  | x :: rest => x +:+ sep +:+ join sep rest
  end.

(** [s.split(sep)] for a one-character separator. *)
Fixpoint split_chars (sep : ascii) (cur : list ascii) (s : list ascii) : list (list ascii) :=
  match s with
  | [] => [rev cur]
  | c :: s' =>
      if Ascii.eqb c sep then rev cur :: split_chars sep [] s'
      else split_chars sep (c :: cur) s'
  end.

Definition split (sep : ascii) (s : string) : list string :=
  map string_of_list_ascii (split_chars sep [] (list_ascii_of_string s)).

Definition is_digit (c : ascii) : bool :=
  let n := nat_of_ascii c in (48 <=? n)%nat && (n <=? 57)%nat.

Definition is_lower (c : ascii) : bool :=
  let n := nat_of_ascii c in (97 <=? n)%nat && (n <=? 122)%nat.

Definition is_upper (c : ascii) : bool :=
  let n := nat_of_ascii c in (65 <=? n)%nat && (n <=? 90)%nat.

(** [str.isspace] on one character: the ASCII white space, the separators
    28..31, NEL and the no-break space. *)
Definition is_space (c : ascii) : bool :=
  let n := nat_of_ascii c in
  ((9 <=? n)%nat && (n <=? 13)%nat) || ((28 <=? n)%nat && (n <=? 32)%nat)
  || (n =? 133)%nat || (n =? 160)%nat.

Definition lower (c : ascii) : ascii :=
  if is_upper c then ascii_of_nat (nat_of_ascii c + 32) else c.

Definition lower_str (s : list ascii) : list ascii := map lower s.

(** [int(s)] for a string of decimal digits.  The interpreter's limit on
    the length of the string (4300 digits unless raised) is left out. *)
Definition int_of_digits (s : list ascii) : N :=
  fold_left (fun acc c => (10 * acc + N.of_nat (nat_of_ascii c - 48))%N) s 0%N.

(** [str.isprintable] on one character. *)
Definition is_printable (c : ascii) : bool :=
  let n := nat_of_ascii c in
  ((32 <=? n)%nat && (n <=? 126)%nat) || ((161 <=? n)%nat && negb (n =? 173)%nat).

Definition hex_digit (n : nat) : ascii :=
  nth n (list_ascii_of_string "0123456789abcdef") "0"%char.

(** One character of [repr(s)] between the quotes [quote]. *)
Definition repr_char (quote c : ascii) : string :=
  if Ascii.eqb c quote || Ascii.eqb c "092"%char then String "092"%char (String c "")
  else if Ascii.eqb c "009"%char then String "092"%char "t"
  else if Ascii.eqb c "010"%char then String "092"%char "n"
  else if Ascii.eqb c "013"%char then String "092"%char "r"
  else if is_printable c then String c ""
  else
    let n := nat_of_ascii c in
    String "092"%char (String "x" (String (hex_digit (n / 16)) (String (hex_digit (n mod 16)) ""))).

(** [repr(s)]: double quotes when [s] holds a single quote and no double
    quote, single quotes otherwise. *)
Definition repr (s : string) : string :=
  let cs := list_ascii_of_string s in
  let quote :=
    if existsb (Ascii.eqb "039"%char) cs && negb (existsb (Ascii.eqb "034"%char) cs)
    then "034"%char else "039"%char in
  String quote (join "" (map (repr_char quote) cs) +:+ String quote "").

Fixpoint lstrip (s : list ascii) : list ascii :=
  match s with
  | c :: s' => if is_space c then lstrip s' else s
  | [] => []
  end.

(** [s.strip()] *)
Definition strip (s : string) : string :=
  string_of_list_ascii (rev (lstrip (rev (lstrip (list_ascii_of_string s))))).

End Py.
Export Py.

(** ** The [re] module: a backtracking matcher

    Patterns are written as syntax trees that follow the pattern text piece by
    piece.  Matching is greedy and tries alternatives left to right, as
    Python's engine does; a group records the text its last match spanned. *)

Module Re.

Inductive regex : Type :=
| Eps
| Chr (p : ascii -> bool)
| Cat (r1 r2 : regex)
| Alt (r1 r2 : regex)
| Star (r : regex)
| Grp (name : string) (r : regex).

Definition captures := list (string * list ascii).

Fixpoint run {A} (r : regex) (s : list ascii) (caps : captures)
    (k : list ascii -> captures -> option A) : option A :=
  match r with
  | Eps => k s caps
  | Chr p =>
      match s with
      | c :: s' => if p c then k s' caps else None
      | [] => None
      end
  | Cat r1 r2 => run r1 s caps (fun s1 c1 => run r2 s1 c1 k)
  | Alt r1 r2 =>
      match run r1 s caps k with
      | Some x => Some x
      | None => run r2 s caps k
      end
  | Star r1 =>
      (fix loop (n : nat) (s : list ascii) (caps : captures) {struct n} : option A :=
         match n with
         | O => k s caps
         | S n' =>
             match run r1 s caps
                     (fun s1 c1 =>
                        if (length s1 <? length s)%nat then loop n' s1 c1 else None) with
             | Some x => Some x
             | None => k s caps
             end
         end) (length s) s caps
  | Grp name r1 =>
      run r1 s caps
        (fun s1 c1 => k s1 ((name, take (length s - length s1) s) :: c1))
  end.

Definition Opt (r : regex) : regex := Alt r Eps.
Definition Plus (r : regex) : regex := Cat r (Star r).

Fixpoint Seq (rs : list regex) : regex :=
  match rs with
  | [] => Eps
  | [r] => r
  | r :: rs' => Cat r (Seq rs')
  end.

Fixpoint Any (rs : list regex) : regex :=
  match rs with
  | [] => Chr (fun _ => false)
  | [r] => r
  | r :: rs' => Alt r (Any rs')
  end.

(** A literal character, and a literal text, with or without [re.IGNORECASE]. *)
Definition Lit (c : ascii) : regex := Chr (Ascii.eqb c).
Definition LitI (c : ascii) : regex := Chr (fun x => Ascii.eqb (lower x) (lower c)).
Definition Text (s : string) : regex := Seq (map Lit (list_ascii_of_string s)).
Definition TextI (s : string) : regex := Seq (map LitI (list_ascii_of_string s)).

Definition one_of (cs : string) (c : ascii) : bool :=
  existsb (Ascii.eqb c) (list_ascii_of_string cs).

(** [pattern.fullmatch(s)]: the groups of the match, if the whole of [s] matches. *)
Definition fullmatch (r : regex) (s : string) : option captures :=
  run r (list_ascii_of_string s) []
    (fun rest caps => match rest with [] => Some caps | _ => None end).

Fixpoint search_from (r : regex) (s : list ascii) : option captures :=
  match run r s [] (fun _ caps => Some caps) with
  | Some caps => Some caps
  | None =>
      match s with
      | [] => None
      | _ :: s' => search_from r s'
      end
  end.

(** [re.search(pattern, s)]: the groups of the leftmost match. *)
Definition search (r : regex) (s : string) : option captures :=
  search_from r (list_ascii_of_string s).

(** [match.group(name)]: [None] when the group took no part in the match. *)
Fixpoint group (caps : captures) (name : string) : option (list ascii) :=
  match caps with
  | [] => None
  | (n, v) :: rest => if String.eqb n name then Some v else group rest name
  end.

(** The characters a pattern can consume. *)
Fixpoint alphabet (r : regex) (c : ascii) : bool :=
  match r with
  | Eps => false
  | Chr p => p c
  | Cat r1 r2 | Alt r1 r2 => alphabet r1 c || alphabet r2 c
  | Star r1 | Grp _ r1 => alphabet r1 c
  end.

End Re.

(** ** [packaging.version]

    The package compares versions with [packaging.version.parse], the PEP 440
    parser of the third-party [packaging] distribution (release 22 or later,
    where an invalid string raises [InvalidVersion], whose message shows the
    string with [repr]).  The definitions below follow its [version.py]:
    [VERSION_PATTERN], [Version.__init__], [_parse_letter_version],
    [_parse_local_version] and [_cmpkey]. *)

Module Packaging.
Import Re.

Definition digits : regex := Plus (Chr is_digit).
Definition sep : regex := Opt (Chr (one_of "-_.")).
(** [[a-z0-9]] under [re.IGNORECASE] *)
Definition alnum : regex := Chr (fun c => is_digit c || is_lower c || is_upper c).

Definition VERSION_PATTERN : regex :=
  Seq [
    Opt (LitI "v");
    Opt (Cat (Grp "epoch" digits) (Lit "!"));
    Grp "release" (Cat digits (Star (Cat (Lit ".") digits)));
    Opt (Grp "pre" (Seq [
      sep;
      Grp "pre_l" (Any (map TextI ["alpha"; "a"; "beta"; "b"; "preview"; "pre"; "c"; "rc"]));
      sep;
      Opt (Grp "pre_n" digits)]));
    Opt (Grp "post" (Alt
      (Cat (Lit "-") (Grp "post_n1" digits))
      (Seq [
        sep;
        Grp "post_l" (Any (map TextI ["post"; "rev"; "r"]));
        sep;
        Opt (Grp "post_n2" digits)])));
    Opt (Grp "dev" (Seq [
      sep;
      Grp "dev_l" (TextI "dev");
      sep;
      Opt (Grp "dev_n" digits)]));
    Opt (Cat (Lit "+")
      (Grp "local" (Cat (Plus alnum) (Star (Cat (Chr (one_of "-_.")) (Plus alnum))))))
  ].

(** [Version._regex]: the pattern between [^\s*] and [\s*$]. *)
Definition _regex : regex :=
  Seq [Star (Chr is_space); VERSION_PATTERN; Star (Chr is_space)].

(** A pre, post or dev segment: the normalised letter and the number. *)
Definition letter_version := (string * N)%type.

Record _Version := {
  epoch : N;
  release : list N;
  dev : option letter_version;
  pre : option letter_version;
  post : option letter_version;
  local : option (list (N + string));
}.

Definition _parse_letter_version (letter number : option (list ascii))
    : option letter_version :=
  match letter with
  | Some l =>
      let number := match number with Some n => int_of_digits n | None => 0%N end in
      let letter := string_of_list_ascii (lower_str l) in
      let letter :=
        if String.eqb letter "alpha" then "a"
        else if String.eqb letter "beta" then "b"
        else if String.eqb letter "c" || String.eqb letter "pre"
                || String.eqb letter "preview" then "rc"
        else if String.eqb letter "rev" || String.eqb letter "r" then "post"
        else letter in
      Some (letter, number)
  | None =>
      match number with
      | Some n => Some ("post", int_of_digits n)
      | None => None
      end
  end.

Definition _parse_local_version (local : option (list ascii))
    : option (list (N + string)) :=
  match local with
  | Some l =>
      Some (map (fun part =>
                   if forallb is_digit part then inl (int_of_digits part)
                   else inr (string_of_list_ascii (lower_str part)))
              (split_chars "-" []
                 (map (fun c => if one_of "._" c then "-"%char else c) l)))
  | None => None
  end.

(** [Version(version)] up to the parsed pieces; [None] is [InvalidVersion]. *)
Definition Version (version : string) : option _Version :=
  match fullmatch _regex version with
  | None => None
  | Some m =>
      Some {|
        epoch := match group m "epoch" with Some e => int_of_digits e | None => 0%N end;
        release := match group m "release" with
                   | Some r => map int_of_digits (split_chars "." [] r)
                   | None => []
                   end;
        pre := _parse_letter_version (group m "pre_l") (group m "pre_n");
        post := _parse_letter_version (group m "post_l")
                  (match group m "post_n1" with
                   | Some n => Some n
                   | None => group m "post_n2"
                   end);
        dev := _parse_letter_version (group m "dev_l") (group m "dev_n");
        local := _parse_local_version (group m "local");
      |}
  end.

(** The comparison key of [_cmpkey]; [Infinity] and [NegativeInfinity] are
    the two extra constructors. *)
Inductive ext (A : Type) : Type :=
| NegativeInfinity
| Fin (a : A)
| Infinity.
Arguments NegativeInfinity {A}.
Arguments Fin {A} a.
Arguments Infinity {A}.

Definition CmpKey : Type :=
  N * list N * ext letter_version * ext letter_version * ext letter_version
  * ext (list (ext N * string)).

Fixpoint drop_zeros (l : list N) : list N :=
  match l with
  | 0%N :: l' => drop_zeros l'
  | _ => l
  end.

Definition _cmpkey (v : _Version) : CmpKey :=
  let _release := rev (drop_zeros (rev (release v))) in
  let _pre :=
    match pre v, post v, dev v with
    | None, None, Some _ => NegativeInfinity
    | None, _, _ => Infinity
    | Some p, _, _ => Fin p
    end in
  let _post := match post v with None => NegativeInfinity | Some p => Fin p end in
  let _dev := match dev v with None => Infinity | Some d => Fin d end in
  let _local :=
    match local v with
    | None => NegativeInfinity
    | Some l =>
        Fin (map (fun i => match i with
                           | inl n => (Fin n, "")
                           | inr s => (NegativeInfinity, s)
                           end) l)
    end in
  (epoch v, _release, _pre, _post, _dev, _local).

(** Python's ordering of the key: tuples compare lexicographically. *)
Definition lex (c1 c2 : comparison) : comparison :=
  match c1 with Eq => c2 | _ => c1 end.

Definition cmp_ext {A} (cmp : A -> A -> comparison) (x y : ext A) : comparison :=
  match x, y with
  | NegativeInfinity, NegativeInfinity => Eq
  | NegativeInfinity, _ => Lt
  | _, NegativeInfinity => Gt
  | Infinity, Infinity => Eq
  | Infinity, _ => Gt
  | _, Infinity => Lt
  | Fin a, Fin b => cmp a b
  end.

Fixpoint cmp_tuple {A} (cmp : A -> A -> comparison) (x y : list A) : comparison :=
  match x, y with
  | [], [] => Eq
  | [], _ :: _ => Lt
  | _ :: _, [] => Gt
  | a :: x', b :: y' => lex (cmp a b) (cmp_tuple cmp x' y')
  end.

Definition cmp_letter (x y : letter_version) : comparison :=
  lex (String.compare (fst x) (fst y)) (N.compare (snd x) (snd y)).

Definition cmp_local_part (x y : ext N * string) : comparison :=
  lex (cmp_ext N.compare (fst x) (fst y)) (String.compare (snd x) (snd y)).

Definition cmp_key (k1 k2 : CmpKey) : comparison :=
  let '(e1, r1, pre1, post1, dev1, l1) := k1 in
  let '(e2, r2, pre2, post2, dev2, l2) := k2 in
  lex (N.compare e1 e2)
    (lex (cmp_tuple N.compare r1 r2)
       (lex (cmp_ext cmp_letter pre1 pre2)
          (lex (cmp_ext cmp_letter post1 post2)
             (lex (cmp_ext cmp_letter dev1 dev2)
                (cmp_ext (cmp_tuple cmp_local_part) l1 l2))))).

(** [version.parse(s)] *)
Definition parse (s : string) : result _Version :=
  match Version s with
  | Some v => Return v
  | None => Raise (InvalidVersion ("Invalid version: " +:+ repr s))
  end.

(** [v1 < v2] and [v1 > v2] *)
Definition lt (v1 v2 : _Version) : bool :=
  match cmp_key (_cmpkey v1) (_cmpkey v2) with Lt => true | _ => false end.

Definition gt (v1 v2 : _Version) : bool :=
  match cmp_key (_cmpkey v1) (_cmpkey v2) with Gt => true | _ => false end.

(** The characters that occur in a PEP 440 version: white space, letters,
    digits and the punctuation of the grammar. *)
Definition version_char (c : ascii) : bool :=
  is_space c || is_digit c || is_lower c || is_upper c || one_of ".-_+!" c.

End Packaging.

(** ** The operating system: files, processes, the clock and sudo *)

Module Posix.
Local Open Scope list_scope.

(** An absolute path, as the list of its components below the root. *)
Definition path := list string.

(** Captured bytes decoded as text in the encoding of the locale, line
    ends translated: the text, or [inl reason] when the bytes are not text
    in that encoding ([reason] is the message of the [UnicodeDecodeError]). *)
Definition decoded : Type := string + string.

(** What running a program yields once it has been started.  The programs
    the package runs without [sudo] (nvidia-smi and which) are taken to end
    and to leave the file system as it is. *)
Record process := {
  secs : nat;           (* wall-clock seconds until it exits *)
  returncode : Z;
  stdout : decoded;
  stderr : decoded;
}.

(** Why reading a file as text fails: a system call fails, or the bytes are
    not text in the encoding of the locale. *)
Inductive read_failure :=
| ReadError (e : errno)
| NotText (reason : string).

(** A regular file: what reading it as text yields, and what executing it
    with given arguments does ([inl e] when the kernel refuses to start
    it). *)
Record file := {
  f_text : read_failure + string;
  f_exec : list string -> errno + process;
}.

Inductive node :=
| File (f : file)
| Symlink (target : path)
| Dir.

(** The file system maps a path to the node stored under that very name;
    symbolic links are followed by [stat]. The directories above the paths
    the package handles are taken to be real directories.  This is the file
    system as the superuser sees it: permissions are kept apart, in the
    world. *)
Definition filesystem := path -> option node.

Definition fs_set (p : path) (o : option node) (fs : filesystem) : filesystem :=
  fun q => if decide (q = p) then o else fs q.

Definition MAXSYMLINKS : nat := 40.

Fixpoint follow (n : nat) (fs : filesystem) (p : path) : errno + node :=
  match fs p with
  | None => inl ENOENT
  | Some (Symlink t) =>
      match n with
      | O => inl ELOOP
      | S n' => follow n' fs t
      end
  | Some nd => inr nd
  end.

Definition lstat (fs : filesystem) (p : path) : option node := fs p.
Definition stat (fs : filesystem) (p : path) : errno + node := follow MAXSYMLINKS fs p.

Definition is_dir (fs : filesystem) (p : path) : bool :=
  match stat fs p with inr Dir => true | _ => false end.

(** The name under which the directory that [p] names is stored: [p]
    itself, or the end of the links that start at [p]. *)
Fixpoint dir_at (n : nat) (fs : filesystem) (p : path) : option path :=
  match fs p with
  | Some Dir => Some p
  | Some (Symlink t) =>
      match n with
      | O => None
      | S n' => dir_at n' fs t
      end
  | _ => None
  end.

Definition parent (p : path) : path := removelast p.
Definition name (p : path) : string := List.last p "".

Definition is_prefix (p q : path) : bool := bool_decide (p `prefix_of` q).

(** [os.path.realpath(p)], not strict: links are expanded component by
    component; [None] when the expansion does not end within [fuel] steps
    (a link loop).  A loop is reported wherever the expansion meets one,
    also when components [..] behind it lead out of it again. *)
Fixpoint realpath (fuel : nat) (fs : filesystem) (resolved : path) (rest : list string)
    : option path :=
  match fuel with
  | O => None
  | S fuel' =>
      match rest with
      | [] => Some resolved
      | c :: rest' =>
          if String.eqb c "" || String.eqb c "." then realpath fuel' fs resolved rest'
          else if String.eqb c ".." then realpath fuel' fs (removelast resolved) rest'
          else
            let newpath := resolved ++ [c] in
            match fs newpath with
            | Some (Symlink t) => realpath fuel' fs [] (t ++ rest')
            | _ => realpath fuel' fs newpath rest'
            end
      end
  end.

Definition REALPATH_FUEL : nat := 4096.

(** [fs'] keeps every node of [fs]. *)
Definition extends (fs fs' : filesystem) : Prop :=
  forall p n, fs p = Some n -> fs' p = Some n.

(** *** coreutils, as run by the privileged helper

    [None] is a non-zero exit of the command; the file system is then
    unchanged. *)

(** [rm p] *)
Definition rm (fs : filesystem) (p : path) : option filesystem :=
  match lstat fs p with
  | None | Some Dir => None
  | Some _ => Some (fs_set p None fs)
  end.

(** [mkdir -p d]: every missing directory on the way to [d] is created. *)
Fixpoint mkdir_p (fs : filesystem) (done : path) (todo : list string) : option filesystem :=
  match todo with
  | [] => Some fs
  | c :: todo' =>
      let q := done ++ [c] in
      match lstat fs q with
      | None => mkdir_p (fs_set q (Some Dir) fs) q todo'
      | Some _ => if is_dir fs q then mkdir_p fs q todo' else None
      end
  end.

(** [ln -sf target link]: an existing file or link at [link] is replaced;
    when [link] names a directory the link is made inside it. *)
Definition ln_sf (fs : filesystem) (target link : path) : option filesystem :=
  match dir_at MAXSYMLINKS fs link with
  | Some d =>
      let inner := d ++ [name target] in
      match lstat fs inner with
      | Some Dir => None
      | _ => Some (fs_set inner (Some (Symlink target)) fs)
      end
  | None =>
      if is_dir fs (parent link) then Some (fs_set link (Some (Symlink target)) fs)
      else None
  end.

(** [rename(src, dst)]: the node at [src], with everything below it, moves
    to [dst]. *)
Definition rename (fs : filesystem) (src dst : path) : filesystem :=
  fun p =>
    if is_prefix dst p then fs (src ++ drop (length dst) p)
    else if is_prefix src p then None
    else fs p.

(** The name a node moved from [src] to [dst] takes: a name inside [dst]
    when that is a directory, else [dst]. *)
Definition mv_dest (fs : filesystem) (src dst : path) : path :=
  match dir_at MAXSYMLINKS fs dst with
  | Some d => d ++ [name src]
  | None => dst
  end.

(** [mv src dst] *)
Definition mv (fs : filesystem) (src dst : path) : option filesystem :=
  match lstat fs src with
  | None => None
  | Some _ =>
      let dest := mv_dest fs src dst in
      if is_prefix src dest then None
      else if negb (is_dir fs (parent dest)) then None
      else match lstat fs dest with
           | Some Dir => None
           | _ => Some (rename fs src dest)
           end
  end.

(** An argument of a command line: a word, or [str(path)]. *)
Inductive arg :=
| Word (s : string)
| PathArg (p : path).

(** [str(path)] *)
Definition Path_str (p : path) : string := "/" +:+ join "/" p.

Definition arg_str (a : arg) : string :=
  match a with Word s => s | PathArg p => Path_str p end.

(** How [sudo] answers a command: it cannot be started (it is not
    installed, or may not be executed); it refuses with a non-zero exit
    status and a message; or it runs the command after [secs] seconds (the
    time a password prompt takes), and [complaint] is what the command
    writes to the standard error when it fails. *)
Inductive sudo_verdict :=
| Unstartable (e : errno)
| Refused (code : positive) (stderr : string)
| Granted (secs : nat) (complaint : string).

Record datetime := {
  year : nat; month : nat; day : nat;
  hour : nat; minute : nat; second : nat;
}.

(** The world of a run.  [denied p] says that the user who runs the
    package may not reach the name [p]: search permission is missing on a
    directory above it, so every system call of that user on [p] fails with
    [EACCES].  The superuser is not held by it, and no command of the
    package changes it. *)
Record World := {
  fs : filesystem;
  denied : path -> bool;
  cwd : path;                       (* os.getcwd() *)
  environ : gmap string string;     (* os.environ *)
  now : datetime;                   (* datetime.now() *)
  sudoers : list arg -> sudo_verdict;
}.

Definition with_fs (w : World) (fs' : filesystem) : World :=
  {| fs := fs'; denied := denied w; cwd := cwd w; environ := environ w; now := now w;
     sudoers := sudoers w |}.

(** *** System calls of the user *)

(** [lstat(p)] *)
Definition lstat_as_user (w : World) (p : path) : errno + node :=
  if denied w p then inl EACCES
  else match fs w p with
       | Some n => inr n
       | None => inl ENOENT
       end.

Fixpoint follow_as_user (n : nat) (w : World) (p : path) : errno + node :=
  match lstat_as_user w p with
  | inr (Symlink t) =>
      match n with
      | O => inl ELOOP
      | S n' => follow_as_user n' w t
      end
  | r => r
  end.

(** [stat(p)] *)
Definition stat_as_user (w : World) (p : path) : errno + node :=
  follow_as_user MAXSYMLINKS w p.

(** The nodes the user can look at: [lstat] fails on the others. *)
Definition visible (w : World) : filesystem :=
  fun p => if denied w p then None else fs w p.

(** The privileged commands the package issues. *)
Definition coreutils (fs : filesystem) (cmd : list arg) : option filesystem :=
  match cmd with
  | [Word "mv"; PathArg src; PathArg dst] => mv fs src dst
  | [Word "rm"; PathArg p] => rm fs p
  | [Word "mkdir"; Word "-p"; PathArg d] => mkdir_p fs [] d
  | [Word "ln"; Word "-sf"; PathArg target; PathArg link] => ln_sf fs target link
  | _ => None
  end.

(** *** Starting programs *)

(** [execve(p, args)] *)
Definition execve (w : World) (p : path) (args : list string) : errno + process :=
  match stat_as_user w p with
  | inl e => inl e
  | inr (File f) => f_exec f args
  | inr _ => inl EACCES
  end.

(** The search of a bare command name through the directories of PATH:
    the first directory whose entry starts wins; of the failures the first
    that is not a missing entry is reported, and the last one where there
    is none such.  [saved] is that first failure and [last] the error of
    the previous attempt. *)
Fixpoint execvp (w : World) (dirs : list path) (prog : string) (args : list string)
    (saved : option errno) (last : errno) : errno + process :=
  match dirs with
  | [] => inl (default last saved)
  | d :: dirs' =>
      match execve w (d ++ [prog]) args with
      | inr pr => inr pr
      | inl e =>
          execvp w dirs' prog args
            (match e, saved with
             | ENOENT, _ | ENOTDIR, _ => saved
             | _, None => Some e
             | _, Some _ => saved
             end) e
      end
  end.

(** The components of a path without the empty ones, [.] and [..]; the
    directories named on the way are taken to be real directories. *)
Definition normalize (parts : list string) : path :=
  fold_left (fun acc c =>
               if String.eqb c "" || String.eqb c "." then acc
               else if String.eqb c ".." then removelast acc
               else acc ++ [c]) parts [].

(** The path a string names for a process whose working directory is
    [cwd]. *)
Definition parse_path (cwd : path) (s : string) : path :=
  match s with
  | String "/" _ => normalize (split "/" s)
  | _ => normalize (cwd ++ split "/" s)
  end.

(** [os.get_exec_path()]: the entries of PATH; an empty or relative entry
    is a directory below the working directory. *)
Definition get_exec_path (w : World) : list path :=
  map (parse_path (cwd w)) (split ":" (default "/bin:/usr/bin" (environ w !! "PATH"))).

Definition timed_out (timeout : option nat) (secs : nat) : bool :=
  match timeout with
  | Some t => (t <=? secs)%nat
  | None => false
  end.

Definition is_sudo (a : arg) : bool :=
  match a with
  | Word s => String.eqb s "sudo"
  | PathArg _ => false
  end.

Record CompletedProcess := {
  cp_returncode : Z;
  cp_stdout : string;
  cp_stderr : string;
}.

(** A string with an embedded null character cannot be handed to the
    operating system. *)
Definition has_nul (s : string) : bool :=
  existsb (Ascii.eqb "000"%char) (list_ascii_of_string s).

(** What starting the program [prog] with [args] yields in [w]: the
    program itself for a path, the search through PATH for a bare name. *)
Definition spawn (w : World) (prog : arg) (args : list arg) : errno + process :=
  match prog with
  | PathArg p => execve w p (map arg_str args)
  | Word c => execvp w (get_exec_path w) c (map arg_str args) None ENOENT
  end.

(** The result of a run that ended in time: the captured output is decoded,
    standard output first. *)
Definition completed (pr : process) : result CompletedProcess :=
  match stdout pr, stderr pr with
  | inr out, inr err =>
      Return {| cp_returncode := returncode pr; cp_stdout := out; cp_stderr := err |}
  | inl reason, _ | inr _, inl reason => Raise (UnicodeDecodeError reason)
  end.

(** [subprocess.run(command, timeout=timeout, capture_output=True,
    text=True, check=False)].  An empty command has no program to start
    ([IndexError]); arguments with an embedded null character are refused
    before anything is started ([ValueError]).  The time a privileged
    command takes is the time [sudo] waits; the command itself is taken to
    run at once, and to write nothing when it succeeds. *)
Definition subprocess_run (command : list arg) (timeout : option nat) (w : World)
    : World * result CompletedProcess :=
  match command with
  | [] => (w, Raise (IndexError "list index out of range"))
  | prog :: args =>
      if existsb has_nul (map arg_str command) then
        (w, Raise (ValueError "embedded null byte"))
      else if is_sudo prog then
        match sudoers w args with
        | Unstartable e => (w, Raise (OSError e))
        | Refused code err =>
            (w, Return {| cp_returncode := Z.pos code; cp_stdout := ""; cp_stderr := err |})
        | Granted secs complaint =>
            if timed_out timeout secs then (w, Raise TimeoutExpired)
            else match coreutils (fs w) args with
                 | Some fs' =>
                     (with_fs w fs',
                      Return {| cp_returncode := 0; cp_stdout := ""; cp_stderr := "" |})
                 | None =>
                     (w, Return {| cp_returncode := 1; cp_stdout := "";
                                   cp_stderr := complaint |})
                 end
        end
      else
        match spawn w prog args with
        | inl e => (w, Raise (OSError e))
        | inr pr =>
            if timed_out timeout (secs pr) then (w, Raise TimeoutExpired)
            else (w, completed pr)
        end
  end.

(** *** [pathlib.Path] and [datetime] *)

(** The errors of [stat] that [pathlib] takes for a missing path; it
    raises the others again. *)
Definition _ignore_error (e : errno) : bool :=
  match e with
  | ENOENT | ENOTDIR | ELOOP => true
  | _ => false
  end.

(** [p.exists()] *)
Definition Path_exists (w : World) (p : path) : result bool :=
  match stat_as_user w p with
  | inr _ => Return true
  | inl e => if _ignore_error e then Return false else Raise (OSError e)
  end.

(** [p.is_symlink()] *)
Definition Path_is_symlink (w : World) (p : path) : result bool :=
  match lstat_as_user w p with
  | inr (Symlink _) => Return true
  | inr _ => Return false
  | inl e => if _ignore_error e then Return false else Raise (OSError e)
  end.

(** [p.resolve()]: [ValueError] for an embedded null character,
    [RuntimeError] for a link loop.  A name on which [lstat] fails is taken
    for a name that is no link. *)
Definition Path_resolve (w : World) (p : path) : result path :=
  if existsb has_nul p then Raise (ValueError "embedded null byte")
  else match realpath REALPATH_FUEL (visible w) [] p with
       | Some r => Return r
       | None => Raise (RuntimeError ("Symlink loop from '" +:+ Path_str p +:+ "'"))
       end.

(** [p.is_relative_to(q)] *)
Definition Path_is_relative_to (p q : path) : bool := is_prefix q p.

(** [p.read_text()] *)
Definition Path_read_text (w : World) (p : path) : result string :=
  match stat_as_user w p with
  | inl e => Raise (OSError e)
  | inr (File f) =>
      match f_text f with
      | inl (ReadError e) => Raise (OSError e)
      | inl (NotText reason) => Raise (UnicodeDecodeError reason)
      | inr s => Return s
      end
  | inr _ => Raise (OSError EISDIR)
  end.

Definition pad (width : nat) (n : nat) : string :=
  let s := pretty n in
  string_of_list_ascii (replicate (width - String.length s) "0"%char) +:+ s.

(** [d.strftime("%Y%m%d_%H%M%S")] *)
Definition strftime (d : datetime) : string :=
  pad 4 (year d) +:+ pad 2 (month d) +:+ pad 2 (day d) +:+ "_"
  +:+ pad 2 (hour d) +:+ pad 2 (minute d) +:+ pad 2 (second d).

End Posix.
Export Posix.

(** ** Effectful code: a state and exception monad over the world *)

Module Effects.

Definition M (A : Type) : Type := World -> World * result A.

Definition ret {A} (a : A) : M A := fun w => (w, Return a).
Definition raise {A} (e : exn) : M A := fun w => (w, Raise e).

Definition bindM {A B} (m : M A) (k : A -> M B) : M B :=
  fun w =>
    match m w with
    | (w', Return a) => k a w'
    | (w', Raise e) => (w', Raise e)
    end.

(** Reading the world, and a call that reads the world and may raise. *)
Definition ask {A} (f : World -> A) : M A := fun w => (w, Return (f w)).
Definition lift {A} (f : World -> result A) : M A := fun w => (w, f w).

(** [try: m except <classes>: handler]: [handler e] is [None] for an
    exception the clause does not list, which then propagates. *)
Definition try_except {A} (m : M A) (handler : exn -> option (M A)) : M A :=
  fun w =>
    match m w with
    | (w', Raise e) =>
        match handler e with
        | Some h => h w'
        | None => (w', Raise e)
        end
    | r => r
    end.

(** The result of running [m] in [w], and the world it leaves. *)
Definition outcome {A} (m : M A) (w : World) : result A := snd (m w).
Definition after {A} (m : M A) (w : World) : World := fst (m w).

Declare Scope effect_scope.
Delimit Scope effect_scope with M.
Notation "x <- m ;; k" := (bindM m (fun x => k))
  (at level 20, m at level 99, k at level 200, only parsing) : effect_scope.
Notation "' pat <- m ;; k" := (bindM m (fun x => match x with pat => k end))
  (at level 20, pat pattern, m at level 99, k at level 200, only parsing) : effect_scope.

End Effects.
Export Effects.
Open Scope effect_scope.

(** ** core/constants.py *)

Definition CUDA_VERSION : string := "12.9".
Definition MIN_WINDOWS_DRIVER : string := "528.33".
Definition RECOMMENDED_DRIVER : string := "566.03".

Definition WSL_NVIDIA_SMI_PATH : path := ["usr"; "lib"; "wsl"; "lib"; "nvidia-smi"].
Definition WINDOWS_NVIDIA_SMI_PATH : path :=
  ["mnt"; "c"; "Windows"; "System32"; "nvidia-smi.exe"].

Definition WSL_INTEROP_PATHS : list path := [
  ["proc"; "sys"; "fs"; "binfmt_misc"; "WSLInterop"];
  ["proc"; "sys"; "fs"; "binfmt_misc"; "WSLInterop-late"]
].
Definition PROC_VERSION_PATH : path := ["proc"; "version"].

Definition NVIDIA_SMI_TIMEOUT : nat := 3.

(** ** utils/subprocess_utils.py *)

(** [run_command(command, timeout, check)]; [capture_output] is left at its
    default, [True], by every caller. *)
Definition run_command (command : list arg) (timeout : option nat) (check : bool)
    : M (Z * string * string) :=
  try_except
    (result <- subprocess_run command timeout ;;
     if check && negb (cp_returncode result =? 0)%Z then
       raise (SubprocessError
                ("Command failed with exit code " +:+ pretty (cp_returncode result)
                 +:+ ": " +:+ join " " (map arg_str command))
                (Some (cp_returncode result)))
     else ret (cp_returncode result, cp_stdout result, cp_stderr result))
    (fun e =>
       match e with
       | TimeoutExpired =>
           Some (raise (SubprocessError
                          ("Command timed out after "
                           +:+ str_opt (pretty <$> timeout) +:+ " seconds: "
                           +:+ join " " (map arg_str command)) None))
       | OSError ENOENT =>
           Some (raise (SubprocessError
                          ("Command not found: " +:+ str_opt (arg_str <$> head command))
                          None))
       | _ => None
       end).

(** [validate_path_safe(path, allowed_parent)] *)
Definition validate_path_safe (path : Posix.path) (allowed_parent : option Posix.path)
    : M bool :=
  try_except
    (resolved <- lift (fun w => Path_resolve w path) ;;
     match allowed_parent with
     | Some allowed =>
         allowed_resolved <- lift (fun w => Path_resolve w allowed) ;;
         ret (Path_is_relative_to resolved allowed_resolved)
     | None => ret true
     end)
    (fun e => if is_ValueError e || is_RuntimeError e then Some (ret false) else None).

(** ** core/system.py *)

(** [(microsoft.*wsl2|wsl2)] under [re.IGNORECASE]; the dot matches any
    character but a newline. *)
Definition WSL2_MARKER : Re.regex :=
  Re.Grp "1" (Re.Alt
    (Re.Seq [Re.TextI "microsoft";
             Re.Star (Re.Chr (fun c => negb (Ascii.eqb c "010"%char)));
             Re.TextI "wsl2"])
    (Re.TextI "wsl2")).

(** Truth value of an optional string: set and not empty. *)
Definition truthy (o : option string) : bool :=
  match o with
  | Some s => negb (String.eqb s "")
  | None => false
  end.

(** The loop over the marker files: whether it ends with [return True]. *)
Fixpoint any_exists (paths : list path) : M bool :=
  match paths with
  | [] => ret false
  | interop_path :: rest =>
      found <- lift (fun w => Path_exists w interop_path) ;;
      if found then ret true else any_exists rest
  end.

Definition is_wsl2 : M bool :=
  distro <- ask (fun w => environ w !! "WSL_DISTRO_NAME") ;;
  if truthy distro then ret true
  else
    interop <- any_exists WSL_INTEROP_PATHS ;;
    if interop then ret true
    else
      proc_version <- lift (fun w => Path_exists w PROC_VERSION_PATH) ;;
      if proc_version then
        found <- try_except
                   (version_content <- lift (fun w => Path_read_text w PROC_VERSION_PATH) ;;
                    ret (bool_decide (is_Some (Re.search WSL2_MARKER version_content))))
                   (fun e => if is_OSError e then Some (ret false) else None) ;;
        if found then ret true else ret false
      else ret false.

(** ** core/driver.py *)

(** [<label>\s*([0-9.]+)] *)
Definition labelled_version (label : string) : Re.regex :=
  Re.Seq [Re.Text label; Re.Star (Re.Chr is_space);
          Re.Grp "1" (Re.Plus (Re.Chr (fun c => is_digit c || Ascii.eqb c "."%char)))].

Definition group1 (m : Re.captures) : option string :=
  string_of_list_ascii <$> Re.group m "1".

Definition get_driver_version : M (option string) :=
  present <- lift (fun w => Path_exists w WINDOWS_NVIDIA_SMI_PATH) ;;
  if negb present then ret None
  else
    try_except
      ('(returncode, stdout, stderr) <-
         run_command [PathArg WINDOWS_NVIDIA_SMI_PATH] (Some NVIDIA_SMI_TIMEOUT) false ;;
       if negb (returncode =? 0)%Z then raise (DriverError ("nvidia-smi failed: " +:+ stderr))
       else
         match Re.search (labelled_version "Driver Version:") stdout with
         | Some m => ret (group1 m)
         | None => ret None
         end)
      (fun e =>
         if is_SubprocessError e
         then Some (raise (DriverError ("Failed to get driver version: " +:+ exn_str e)))
         else None).

Definition get_driver_cuda_version : M (option string) :=
  present <- lift (fun w => Path_exists w WINDOWS_NVIDIA_SMI_PATH) ;;
  if negb present then ret None
  else
    try_except
      ('(returncode, stdout, stderr) <-
         run_command [PathArg WINDOWS_NVIDIA_SMI_PATH] (Some NVIDIA_SMI_TIMEOUT) false ;;
       if negb (returncode =? 0)%Z then raise (DriverError ("nvidia-smi failed: " +:+ stderr))
       else
         match Re.search (labelled_version "CUDA Version:") stdout with
         | Some m => ret (group1 m)
         | None => ret None
         end)
      (fun e =>
         if is_SubprocessError e
         then Some (raise (DriverError ("Failed to get CUDA version: " +:+ exn_str e)))
         else None).

Definition get_gpu_name : M (option string) :=
  present <- lift (fun w => Path_exists w WINDOWS_NVIDIA_SMI_PATH) ;;
  if negb present then ret None
  else
    try_except
      ('(returncode, stdout, stderr) <-
         run_command [PathArg WINDOWS_NVIDIA_SMI_PATH; Word "--query-gpu=name";
                      Word "--format=csv,noheader"] (Some NVIDIA_SMI_TIMEOUT) false ;;
       if negb (returncode =? 0)%Z then raise (DriverError ("nvidia-smi failed: " +:+ stderr))
       else
         let gpu_name := strip stdout in
         ret (if String.eqb gpu_name "" then None else Some gpu_name))
      (fun e =>
         if is_SubprocessError e
         then Some (raise (DriverError ("Failed to get GPU name: " +:+ exn_str e)))
         else None).

Definition compare_versions (ver1 ver2 : string) : result Z :=
  bind (Packaging.parse ver1) (fun v1 =>
  bind (Packaging.parse ver2) (fun v2 =>
    if Packaging.lt v1 v2 then Return (-1)%Z
    else if Packaging.gt v1 v2 then Return 1%Z
    else Return 0%Z)).

Definition version_meets_minimum (driver_version minimum_version : string) : result bool :=
  bind (compare_versions driver_version minimum_version) (fun c => Return (c >=? 0)%Z).

(** The dictionary returned with the verdict: a key maps to a string or to
    Python's [None]. *)
Definition info := gmap string (option string).

Definition check_driver_compatibility : M (bool * string * info) :=
  present <- lift (fun w => Path_exists w WINDOWS_NVIDIA_SMI_PATH) ;;
  if negb present then
    ret (false, "Windows NVIDIA driver not found",
         (<["driver_version" := None]>
          (<["cuda_version" := None]>
           (<["gpu_name" := None]>
            (<["min_required" := Some MIN_WINDOWS_DRIVER]>
             (<["recommended" := Some RECOMMENDED_DRIVER]> ∅)))) : info))
  else
    driver_ver <- get_driver_version ;;
    match driver_ver with
    | None | Some "" => raise (DriverError "Could not determine driver version")
    | Some driver_ver =>
        cuda_ver <- get_driver_cuda_version ;;
        gpu_name <- get_gpu_name ;;
        let info_dict : info :=
          <["driver_version" := Some driver_ver]>
          (<["cuda_version" := cuda_ver]>
           (<["gpu_name" := gpu_name]>
            (<["min_required" := Some MIN_WINDOWS_DRIVER]>
             (<["recommended" := Some RECOMMENDED_DRIVER]>
              (<["target_cuda" := Some CUDA_VERSION]> ∅))))) in
        meets_min <- lift (fun _ => version_meets_minimum driver_ver MIN_WINDOWS_DRIVER) ;;
        if meets_min then
          meets_rec <- lift (fun _ => version_meets_minimum driver_ver RECOMMENDED_DRIVER) ;;
          let message :=
            if meets_rec
            then "Driver " +:+ driver_ver +:+ " is up-to-date and supports CUDA "
                 +:+ CUDA_VERSION
            else "Driver " +:+ driver_ver +:+ " supports CUDA " +:+ CUDA_VERSION
                 +:+ ", but " +:+ RECOMMENDED_DRIVER +:+ "+ recommended" in
          ret (true, message, info_dict)
        else
          ret (false,
               "Driver " +:+ driver_ver +:+ " is too old. Minimum " +:+ MIN_WINDOWS_DRIVER
               +:+ " required for CUDA " +:+ CUDA_VERSION,
               info_dict)
    end.

(** ** core/nvidia_smi.py *)

Definition test_nvidia_smi (nvidia_smi_path : option path) : M bool :=
  let command :=
    match nvidia_smi_path with
    | Some p => [PathArg p]
    | None => [Word "nvidia-smi"]
    end in
  try_except
    ('(returncode, _, _) <- run_command command (Some NVIDIA_SMI_TIMEOUT) false ;;
     ret (returncode =? 0)%Z)
    (fun _ => Some (ret false)).

Definition is_nvidia_smi_symlink : M bool :=
  lift (fun w => Path_is_symlink w WSL_NVIDIA_SMI_PATH).

Definition get_nvidia_smi_target : M (option path) :=
  symlink <- is_nvidia_smi_symlink ;;
  if symlink then
    try_except
      (target <- lift (fun w => Path_resolve w WSL_NVIDIA_SMI_PATH) ;;
       ret (Some target))
      (fun e => if is_OSError e || is_RuntimeError e then Some (ret None) else None)
  else ret None.

(** The name of the backup made at time [d]. *)
Definition backup_path_at (d : datetime) : path :=
  (parent WSL_NVIDIA_SMI_PATH ++ [name WSL_NVIDIA_SMI_PATH +:+ ".old." +:+ strftime d])%list.

Definition backup_nvidia_smi : M (option path) :=
  present <- lift (fun w => Path_exists w WSL_NVIDIA_SMI_PATH) ;;
  nothing_to_do <- (if negb present then ret true else is_nvidia_smi_symlink) ;;
  if nothing_to_do then ret None
  else
    backup_path <- ask (fun w => backup_path_at (now w)) ;;
    safe <- validate_path_safe backup_path (Some (parent WSL_NVIDIA_SMI_PATH)) ;;
    if negb safe then raise (NvidiaSmiError "Invalid backup path")
    else
      try_except
        ('(returncode, _, stderr) <-
           run_command [Word "sudo"; Word "mv"; PathArg WSL_NVIDIA_SMI_PATH;
                        PathArg backup_path] (Some 5%nat) false ;;
         if (returncode =? 0)%Z then ret (Some backup_path)
         else raise (NvidiaSmiError ("Failed to backup nvidia-smi: " +:+ stderr)))
        (fun e =>
           if is_SubprocessError e
           then Some (raise (NvidiaSmiError ("Failed to backup nvidia-smi: " +:+ exn_str e)))
           else None).

Definition create_nvidia_smi_symlink : M bool :=
  present <- lift (fun w => Path_exists w WINDOWS_NVIDIA_SMI_PATH) ;;
  if negb present then
    raise (NvidiaSmiError
             ("Windows nvidia-smi not found at " +:+ Path_str WINDOWS_NVIDIA_SMI_PATH
              +:+ ". Please install NVIDIA drivers on Windows first."))
  else
    let parent_dir := parent WSL_NVIDIA_SMI_PATH in
    parent_present <- lift (fun w => Path_exists w parent_dir) ;;
    _ <- (if negb parent_present then
            try_except
              ('(returncode, _, stderr) <-
                 run_command [Word "sudo"; Word "mkdir"; Word "-p"; PathArg parent_dir]
                   (Some 5%nat) false ;;
               if negb (returncode =? 0)%Z then
                 raise (NvidiaSmiError
                          ("Failed to create directory " +:+ Path_str parent_dir +:+ ": "
                           +:+ stderr))
               else ret tt)
              (fun e =>
                 if is_SubprocessError e
                 then Some (raise (NvidiaSmiError
                                     ("Failed to create directory " +:+ Path_str parent_dir
                                      +:+ ": " +:+ exn_str e)))
                 else None)
          else ret tt) ;;
    try_except
      ('(returncode, _, stderr) <-
         run_command [Word "sudo"; Word "ln"; Word "-sf"; PathArg WINDOWS_NVIDIA_SMI_PATH;
                      PathArg WSL_NVIDIA_SMI_PATH] (Some 5%nat) false ;;
       if negb (returncode =? 0)%Z then
         raise (NvidiaSmiError ("Failed to create symlink: " +:+ stderr))
       else ret true)
      (fun e =>
         if is_SubprocessError e
         then Some (raise (NvidiaSmiError ("Failed to create symlink: " +:+ exn_str e)))
         else None).

(** [fix_nvidia_smi], lines 167 to 188: the inspection of the local path.
    [inl] is the value of an early [return]; [inr] is [message_parts] as the
    code reaches the comment "Create symlink". *)
Definition inspect_nvidia_smi : M ((bool * string) + list string) :=
  symlink <- is_nvidia_smi_symlink ;;
  early <- (if symlink then
              target <- get_nvidia_smi_target ;;
              working <- test_nvidia_smi None ;;
              if working then
                ret (Some (true, "nvidia-smi already working (symlink to "
                                 +:+ str_opt (Path_str <$> target) +:+ ")"))
              else
                try_except
                  (_ <- run_command [Word "sudo"; Word "rm"; PathArg WSL_NVIDIA_SMI_PATH]
                          (Some 5%nat) true ;;
                   ret None)
                  (fun e =>
                     if is_SubprocessError e
                     then Some (raise (NvidiaSmiError
                                         ("Failed to remove broken symlink: " +:+ exn_str e)))
                     else None)
            else ret None) ;;
  match early with
  | Some value => ret (inl value)
  | None =>
      present <- lift (fun w => Path_exists w WSL_NVIDIA_SMI_PATH) ;;
      regular <- (if present then
                    symlink <- is_nvidia_smi_symlink ;;
                    ret (negb symlink)
                  else ret false) ;;
      if regular then
        working <- test_nvidia_smi (Some WSL_NVIDIA_SMI_PATH) ;;
        if working then ret (inl (true, "nvidia-smi already working, no fix needed"))
        else
          backup_path <- backup_nvidia_smi ;;
          ret (inr ["Backed up old nvidia-smi to " +:+ str_opt (Path_str <$> backup_path)])
      else ret (inr [])
  end.

(** [fix_nvidia_smi], lines 190 to 199: link creation and the final probe. *)
Definition link_nvidia_smi (message_parts : list string) : M (bool * string) :=
  _ <- create_nvidia_smi_symlink ;;
  let message_parts :=
    (message_parts ++ ["Created symlink to " +:+ Path_str WINDOWS_NVIDIA_SMI_PATH])%list in
  working <- test_nvidia_smi None ;;
  if working then
    ret (true, join "; " (message_parts ++ ["nvidia-smi is now working"])%list)
  else ret (false, "Symlink created but nvidia-smi still not working").

(** [fix_nvidia_smi(verbose)]; the body makes no use of [verbose]. *)
Definition fix_nvidia_smi : M (bool * string) :=
  present <- lift (fun w => Path_exists w WINDOWS_NVIDIA_SMI_PATH) ;;
  if negb present then
    raise (NvidiaSmiError
             "Windows nvidia-smi not found. Please install NVIDIA drivers on Windows first.")
  else
    inspected <- inspect_nvidia_smi ;;
    match inspected with
    | inl value => ret value
    | inr message_parts => link_nvidia_smi message_parts
    end.

(** ** Worlds to run the package on *)

Module Examples.

Fixpoint fs_of_list (l : list (path * node)) : filesystem :=
  fun p =>
    match l with
    | [] => None
    | (q, n) :: l' => if decide (p = q) then Some n else fs_of_list l' p
    end.

(** An executable that behaves the same whatever its arguments. *)
Definition program (pr : process) : file :=
  {| f_text := inl (ReadError EIO); f_exec := fun _ => inr pr |}.

Definition text_file (s : string) : file :=
  {| f_text := inr s; f_exec := fun _ => inl ENOEXEC |}.

Definition unreadable_file : file :=
  {| f_text := inl (ReadError EACCES); f_exec := fun _ => inl EACCES |}.

(** The Windows nvidia-smi.exe of a 566.03 driver. *)
Definition working_smi : file :=
  program {| secs := 1; returncode := 0;
             stdout := inr "| NVIDIA-SMI 566.03    Driver Version: 566.03    CUDA Version: 12.7 |";
             stderr := inr "" |}.

(** A binary that dies with SIGSEGV, and one whose report has no version. *)
Definition segfaulting_smi : file :=
  program {| secs := 0; returncode := -11; stdout := inr "";
             stderr := inr "Segmentation fault" |}.

Definition garbled_smi : file :=
  program {| secs := 1; returncode := 0; stdout := inr "No devices were found";
             stderr := inr "" |}.

Definition directories : list (path * node) :=
  map (fun p => (p, Dir))
    [[]; ["usr"]; ["usr"; "bin"]; ["usr"; "lib"]; ["usr"; "lib"; "wsl"];
     ["usr"; "lib"; "wsl"; "lib"]; ["mnt"]; ["mnt"; "c"]; ["mnt"; "c"; "Windows"];
     ["mnt"; "c"; "Windows"; "System32"]; ["proc"]; ["tmp"]; ["home"]; ["home"; "user"]].

Definition clock : datetime :=
  {| year := 2024; month := 3; day := 7; hour := 9; minute := 5; second := 2 |}.

Definition always_granted : list arg -> sudo_verdict := fun _ => Granted 0 "".

(** Nothing is out of the user's reach. *)
Definition all_allowed : path -> bool := fun _ => false.

Definition home : path := ["home"; "user"].

(** A world with the given files on top of the usual directories, the
    given PATH and a sudo that grants everything at once. *)
Definition world (files : list (path * node)) (PATH : string) : World :=
  {| fs := fs_of_list (files ++ directories)%list;
     denied := all_allowed;
     cwd := home;
     environ := {[ "PATH" := PATH ]};
     now := clock;
     sudoers := always_granted |}.

Definition wsl_PATH : string := "/usr/local/bin:/usr/bin:/bin:/usr/lib/wsl/lib".

(** The local nvidia-smi is missing; the Windows one works. *)
Definition missing_world : World :=
  world [(WINDOWS_NVIDIA_SMI_PATH, File working_smi)] wsl_PATH.

(** The same, under a PATH that leaves out /usr/lib/wsl/lib. *)
Definition off_path_world : World :=
  world [(WINDOWS_NVIDIA_SMI_PATH, File working_smi)] "/usr/local/bin:/usr/bin:/bin".

(** A segfaulting regular file at the local path. *)
Definition segfault_world : World :=
  world [(WINDOWS_NVIDIA_SMI_PATH, File working_smi);
         (WSL_NVIDIA_SMI_PATH, File segfaulting_smi)] wsl_PATH.

(** The same, with sudo refusing every command. *)
Definition readonly_world : World :=
  {| fs := fs segfault_world; denied := all_allowed; cwd := home;
     environ := environ segfault_world; now := clock;
     sudoers := fun _ => Refused 1 "Read-only file system" |}.

(** The same as [segfault_world], but the name the backup would take is
    already a link that leaves the directory. *)
Definition hijacked_world : World :=
  world [(WINDOWS_NVIDIA_SMI_PATH, File working_smi);
         (WSL_NVIDIA_SMI_PATH, File segfaulting_smi);
         (backup_path_at clock, Symlink ["tmp"; "elsewhere"])] wsl_PATH.

(** A native Linux nvidia-smi that works comes first on PATH, while the
    Windows one fails. *)
Definition shadowed_world : World :=
  world [(WINDOWS_NVIDIA_SMI_PATH, File segfaulting_smi);
         (["usr"; "bin"; "nvidia-smi"], File working_smi)] wsl_PATH.

(** No Windows driver at all. *)
Definition no_driver_world : World := world [] wsl_PATH.

(** The Windows nvidia-smi runs but reports no driver version. *)
Definition garbled_world : World :=
  world [(WINDOWS_NVIDIA_SMI_PATH, File garbled_smi)] wsl_PATH.

(** /proc/version names WSL2 while nothing else does, and one where it
    cannot be read. *)
Definition proc_version_world : World :=
  world [(PROC_VERSION_PATH,
          File (text_file "Linux version 5.15.90.1-microsoft-standard-WSL2"))] wsl_PATH.

Definition unreadable_proc_world : World :=
  world [(PROC_VERSION_PATH, File unreadable_file)] wsl_PATH.

(** /proc/version names WSL2, but the user may not search the directory
    of the marker files. *)
Definition unsearchable_world : World :=
  {| fs := fs proc_version_world;
     denied := fun p => bool_decide (parent p = ["proc"; "sys"; "fs"; "binfmt_misc"]);
     cwd := home; environ := environ proc_version_world; now := clock;
     sudoers := always_granted |}.

(** /proc/version holds bytes that are not text in the encoding of the
    locale. *)
Definition not_text_file : file :=
  {| f_text := inl (NotText "'utf-8' codec can't decode byte 0xff in position 19: invalid start byte");
     f_exec := fun _ => inl ENOEXEC |}.

Definition undecodable_proc_world : World :=
  world [(PROC_VERSION_PATH, File not_text_file)] wsl_PATH.

End Examples.

(** The entry called [x] in the directory of the local nvidia-smi. *)
Definition entry (x : string) : path := (parent WSL_NVIDIA_SMI_PATH ++ [x])%list.

(** The three signals of WSL2 detection, as the specification words them. *)
Definition signal_environment (w : World) : bool :=
  truthy (environ w !! "WSL_DISTRO_NAME").

Definition signal_marker_file (w : World) : bool :=
  existsb (fun p => match Path_exists w p with Return true => true | _ => false end)
    WSL_INTEROP_PATHS.

Definition signal_kernel_version (w : World) : bool :=
  match Path_read_text w PROC_VERSION_PATH with
  | Return content => bool_decide (is_Some (Re.search WSL2_MARKER content))
  | Raise _ => false
  end.

(** A version string is malformed, in the specification's sense, when one of
    its dot-delimited segments is not a decimal number. *)
Definition numeric_segment (seg : string) : bool :=
  negb (String.eqb seg "") && forallb is_digit (list_ascii_of_string seg).

Definition malformed (version : string) : bool :=
  negb (forallb numeric_segment (split "." version)).


(** ** Notions used to state further properties *)

(** A three-way comparison that is a total order and answers [Eq] only for
    equal values. *)
Record total_order {A : Type} (cmp : A -> A -> comparison) : Prop := {
  cmp_refl : forall x, cmp x x = Eq;
  cmp_eq : forall x y, cmp x y = Eq -> x = y;
  cmp_antisym : forall x y, cmp y x = CompOpp (cmp x y);
  cmp_trans : forall x y z, cmp x y = Lt -> cmp y z = Lt -> cmp x z = Lt;
}.

(** The integer [compare_versions] returns for an ordering of the keys. *)
Definition sign (c : comparison) : Z :=
  match c with Lt => (-1)%Z | Eq => 0%Z | Gt => 1%Z end.

(** The shape the three queries of core/driver.py share: run the Windows
    nvidia-smi with [args], fail on a non-zero status, else read the answer
    off the output with [parse]; [what] names the query in the message of a
    failed run. *)
Definition driver_query (args : list arg) (what : string) (parse : string -> option string)
    : M (option string) :=
  present <- lift (fun w => Path_exists w WINDOWS_NVIDIA_SMI_PATH) ;;
  if negb present then ret None
  else
    try_except
      ('(returncode, stdout, stderr) <-
         run_command (PathArg WINDOWS_NVIDIA_SMI_PATH :: args) (Some NVIDIA_SMI_TIMEOUT) false ;;
       if negb (returncode =? 0)%Z then raise (DriverError ("nvidia-smi failed: " +:+ stderr))
       else ret (parse stdout))
      (fun e =>
         if is_SubprocessError e
         then Some (raise (DriverError ("Failed to get " +:+ what +:+ ": " +:+ exn_str e)))
         else None).

(** The answer [get_driver_version] and [get_driver_cuda_version] read off
    the output, and the one [get_gpu_name] reads. *)
Definition parse_labelled (label : string) (stdout : string) : option string :=
  match Re.search (labelled_version label) stdout with
  | Some m => group1 m
  | None => None
  end.

Definition parse_gpu_name (stdout : string) : option string :=
  let gpu_name := strip stdout in
  if String.eqb gpu_name "" then None else Some gpu_name.

(** A character of a version as nvidia-smi prints it. *)
Definition version_digit (c : ascii) : bool := is_digit c || Ascii.eqb c "."%char.

(** The three queries, to state what they have in common. *)
Definition driver_queries : list (M (option string)) :=
  [get_driver_version; get_driver_cuda_version; get_gpu_name].

(** [FileNotFoundError] among the OS errors. *)
Definition is_ENOENT (n : errno) : bool :=
  match n with ENOENT => true | _ => false end.

(** The exceptions that the callers of [subprocess.run] wrap into their
    own: [SubprocessError] (wrapped by the [except] clauses of
    core/driver.py and core/nvidia_smi.py), and the [TimeoutExpired] and
    [FileNotFoundError] that [run_command] turns into [SubprocessError]. *)
Definition wrapped (e : exn) : bool :=
  match e with
  | SubprocessError _ _ | TimeoutExpired | OSError ENOENT => true
  | _ => false
  end.

(** A pattern without groups, and a pattern that matches the empty text. *)
Fixpoint groupless (r : Re.regex) : bool :=
  match r with
  | Re.Eps | Re.Chr _ => true
  | Re.Cat r1 r2 | Re.Alt r1 r2 => groupless r1 && groupless r2
  | Re.Star r1 => groupless r1
  | Re.Grp _ _ => false
  end.

Fixpoint nullable (r : Re.regex) : bool :=
  match r with
  | Re.Eps | Re.Star _ => true
  | Re.Chr _ => false
  | Re.Cat r1 r2 => nullable r1 && nullable r2
  | Re.Alt r1 r2 => nullable r1 || nullable r2
  | Re.Grp _ r1 => nullable r1
  end.

(** The labels of the two versions nvidia-smi prints, each with the query
    that reads it. *)
Definition version_queries : list (string * M (option string)) :=
  [("Driver Version:", get_driver_version); ("CUDA Version:", get_driver_cuda_version)].

(** Further worlds. *)
Module Scenarios.
Import Examples.

(** The Windows nvidia-smi is there but may not be executed. *)
Definition locked_world : World :=
  world [(WINDOWS_NVIDIA_SMI_PATH, File unreadable_file)] wsl_PATH.

(** The Windows nvidia-smi prints a driver version that ends in a dot. *)
Definition dotted_smi : file :=
  program {| secs := 1; returncode := 0;
             stdout := inr "Driver Version: 566.03.   CUDA Version: 12.7";
             stderr := inr "" |}.

Definition dotted_world : World :=
  world [(WINDOWS_NVIDIA_SMI_PATH, File dotted_smi)] wsl_PATH.

(** The Windows nvidia-smi of an old driver. *)
Definition old_smi : file :=
  program {| secs := 1; returncode := 0;
             stdout := inr "| NVIDIA-SMI 512.15    Driver Version: 512.15    CUDA Version: 11.6 |";
             stderr := inr "" |}.

Definition old_world : World :=
  world [(WINDOWS_NVIDIA_SMI_PATH, File old_smi)] wsl_PATH.

(** A Windows nvidia-smi that answers with white space around the name. *)
Definition padded_smi : file :=
  program {| secs := 0; returncode := 0; stdout := inr "  NVIDIA GeForce RTX 4090  ";
             stderr := inr "" |}.

Definition padded_world : World :=
  world [(WINDOWS_NVIDIA_SMI_PATH, File padded_smi)] wsl_PATH.

End Scenarios.

(** The dictionary [check_driver_compatibility] returns for a driver it
    found (lines 196 to 203), and its three messages. *)
Definition driver_info (driver_ver : string) (cuda_ver gpu_name : option string) : info :=
  <["driver_version" := Some driver_ver]>
  (<["cuda_version" := cuda_ver]>
   (<["gpu_name" := gpu_name]>
    (<["min_required" := Some MIN_WINDOWS_DRIVER]>
     (<["recommended" := Some RECOMMENDED_DRIVER]>
      (<["target_cuda" := Some CUDA_VERSION]> ∅))))).

Definition up_to_date (driver_ver : string) : string :=
  "Driver " +:+ driver_ver +:+ " is up-to-date and supports CUDA " +:+ CUDA_VERSION.

Definition update_recommended (driver_ver : string) : string :=
  "Driver " +:+ driver_ver +:+ " supports CUDA " +:+ CUDA_VERSION
  +:+ ", but " +:+ RECOMMENDED_DRIVER +:+ "+ recommended".

Definition too_old (driver_ver : string) : string :=
  "Driver " +:+ driver_ver +:+ " is too old. Minimum " +:+ MIN_WINDOWS_DRIVER
  +:+ " required for CUDA " +:+ CUDA_VERSION.

(** The program a probe starts: the given path, or the command
    [nvidia-smi] looked up through PATH. *)
Definition probe_program (nvidia_smi_path : option path) : arg :=
  match nvidia_smi_path with
  | Some p => PathArg p
  | None => Word "nvidia-smi"
  end.

Definition is_NvidiaSmiError (e : exn) : bool :=
  match e with NvidiaSmiError _ => true | _ => false end.

(** The captured output is text in the encoding of the locale. *)
Definition is_text (d : decoded) : bool :=
  match d with inr _ => true | inl _ => false end.

(** A computation that lets out none of the exceptions the package wraps. *)
Definition wraps {A} (m : M A) : Prop :=
  forall w e, outcome m w = Raise e -> wrapped e = false.

(** The paths a repair in [w] may write: the local path and what lies
    below it, the name the backup takes and what lies below it, and the
    directories above the local path. *)
Definition repair_may_write (w : World) (p : path) : bool :=
  is_prefix WSL_NVIDIA_SMI_PATH p
  || is_prefix (mv_dest (fs w) WSL_NVIDIA_SMI_PATH (backup_path_at (now w))) p
  || is_prefix p (parent WSL_NVIDIA_SMI_PATH).

(** ** core/system.py: the remaining functions *)

Definition get_wsl_distro_name : M string :=
  ask (fun w => default "Unknown" (environ w !! "WSL_DISTRO_NAME")).

(** [re.search] under [re.MULTILINE] for a pattern that begins with [^]:
    [r] is the pattern after the [^], and a match starts at the beginning
    of the text or right after a newline. *)
Fixpoint search_lines_from (r : Re.regex) (line_start : bool) (s : list ascii)
    : option Re.captures :=
  match (if line_start then Re.run r s [] (fun _ caps => Some caps) else None) with
  | Some caps => Some caps
  | None =>
      match s with
      | [] => None
      | c :: s' => search_lines_from r (Ascii.eqb c "010"%char) s'
      end
  end.

Definition search_lines (r : Re.regex) (s : string) : option Re.captures :=
  search_lines_from r true (list_ascii_of_string s).

(** A character that is neither a double quote nor a newline. *)
Definition unquoted (c : ascii) : bool :=
  negb (Ascii.eqb c "034"%char || Ascii.eqb c "010"%char).

(** The pattern of a field of os-release, after its [^]: the key and an
    equals sign, an optional double quote, one or more characters that are
    neither a double quote nor a newline (group 1), an optional double
    quote. *)
Definition os_release_field (key : string) : Re.regex :=
  Re.Seq [Re.Text (key +:+ "="); Re.Opt (Re.Lit "034"%char);
          Re.Grp "1" (Re.Plus (Re.Chr unquoted)); Re.Opt (Re.Lit "034"%char)].

Definition OS_RELEASE_PATH : path := ["etc"; "os-release"].

(** [get_os_info()].  Group 1 takes part in every match of the pattern, so
    [group(1)] is a string. *)
Definition get_os_info : M (string * string) :=
  found <- try_except
             (present <- lift (fun w => Path_exists w OS_RELEASE_PATH) ;;
              if present then
                content <- lift (fun w => Path_read_text w OS_RELEASE_PATH) ;;
                let name_match := search_lines (os_release_field "NAME") content in
                let version_match := search_lines (os_release_field "VERSION") content in
                let name :=
                  match name_match with
                  | Some m => default "" (group1 m)
                  | None => "Unknown"
                  end in
                let version :=
                  match version_match with
                  | Some m => default "" (group1 m)
                  | None => "Unknown"
                  end in
                ret (Some (name, version))
              else ret None)
             (fun e => if is_OSError e then Some (ret None) else None) ;;
  match found with
  | Some info => ret info
  | None => ret ("Unknown", "Unknown")
  end.

(** [Linux version ([^\s]+)] *)
Definition KERNEL_VERSION : Re.regex :=
  Re.Seq [Re.Text "Linux version "; Re.Grp "1" (Re.Plus (Re.Chr (fun c => negb (is_space c))))].

Definition get_kernel_version : M string :=
  present <- lift (fun w => Path_exists w PROC_VERSION_PATH) ;;
  found <- (if present then
              try_except
                (version_content <- lift (fun w => Path_read_text w PROC_VERSION_PATH) ;;
                 match Re.search KERNEL_VERSION version_content with
                 | Some m => ret (Some (default "" (group1 m)))
                 | None => ret None
                 end)
                (fun e => if is_OSError e then Some (ret None) else None)
            else ret None) ;;
  match found with
  | Some version => ret version
  | None => ret "Unknown"
  end.

(** The text that follows a token: it is empty, or begins with a
    character that ends the token. *)
Definition ends_at (stop : ascii -> bool) (after : string) : bool :=
  match after with
  | "" => true
  | String c _ => stop c
  end.

(** [s] begins with [prefix]. *)
Fixpoint starts_with (prefix s : list ascii) : bool :=
  match prefix, s with
  | [], _ => true
  | c :: prefix', d :: s' => Ascii.eqb c d && starts_with prefix' s'
  | _ :: _, [] => false
  end.

(** A line that begins inside [before] starts with [prefix]; [rest] is the
    text that follows [before], and [line_start] tells whether [before]
    begins a line. *)
Fixpoint earlier_line_starts_with (prefix : list ascii) (line_start : bool)
    (before rest : list ascii) : bool :=
  match before with
  | [] => false
  | c :: before' =>
      (line_start && starts_with prefix (before ++ rest))
      || earlier_line_starts_with prefix (Ascii.eqb c "010"%char) before' rest
  end.

(** The two fields [get_os_info] reads, in the order of its answer. *)
Definition os_release_fields (content : string) : string * string :=
  (match search_lines (os_release_field "NAME") content with
   | Some m => default "" (group1 m)
   | None => "Unknown"
   end,
   match search_lines (os_release_field "VERSION") content with
   | Some m => default "" (group1 m)
   | None => "Unknown"
   end).

(** A double quote, and a file of the kind /etc/os-release is. *)
Definition dq : string := String "034"%char "".

Definition os_release_world : World :=
  Examples.world
    [(OS_RELEASE_PATH,
      File (Examples.text_file
              (join (String "010"%char "")
                 ["PRETTY_NAME=" +:+ dq +:+ "Ubuntu 22.04.3 LTS" +:+ dq;
                  "NAME=" +:+ dq +:+ "Ubuntu" +:+ dq;
                  "VERSION_ID=" +:+ dq +:+ "22.04" +:+ dq;
                  "VERSION=" +:+ dq +:+ "22.04.3 LTS (Jammy Jellyfish)" +:+ dq;
                  ""])))]
    Examples.wsl_PATH.

(** The text [needle] occurs in [s] when letter case is ignored. *)
Definition occurs_ignoring_case (needle s : string) : Prop :=
  exists before found after,
    list_ascii_of_string s = (before ++ found ++ after)%list
    /\ lower_str found = lower_str (list_ascii_of_string needle).

(** A text that is empty or ends with a newline: what comes before the
    start of a line. *)
Definition ends_line (before : string) : bool :=
  match rev (list_ascii_of_string before) with
  | [] => true
  | c :: _ => Ascii.eqb c "010"%char
  end.

(** ** utils/subprocess_utils.py: [check_command_exists] *)

Definition check_command_exists (command : string) : M bool :=
  try_except
    (result <- subprocess_run [Word "which"; Word command] None ;;
     ret (cp_returncode result =? 0)%Z)
    (fun _ => Some (ret false)).

(** ** The commands and what they write

    A command is run for its output and its exit status.  The terminal is
    modelled by the sequence of calls the command makes to the console of
    the [rich] library and to [print]: each call is recorded with the text,
    table or dictionary it was given.  The console is taken to accept every
    text. *)

Module Cli.

(** A value of a dictionary that is printed as JSON. *)
#[warnings="-register-all"]
Inductive json :=
| JNone
| JBool (b : bool)
| JStr (s : string)
| JDict (d : gmap string json).

Definition json_of (o : option string) : json :=
  match o with
  | Some s => JStr s
  | None => JNone
  end.

Inductive output :=
| ConsolePrint (markup : string)                                (* console.print(markup) *)
| ConsoleRule (title : string)                                  (* console.rule(title) *)
| ConsoleTable (title : string) (rows : list (string * option string))
                                                                (* console.print(table) *)
| PrintJson (data : gmap string json).       (* print(json.dumps(data, indent=2, default=str)) *)

(** How a command ends other than by returning: [typer.Exit(code)], an
    exception of the package that nothing catches, or another Python error
    ([KeyError], [TypeError]), named by its class. *)
Inductive stop :=
| Exit (code : Z)
| Uncaught (e : exn)
| Crash (error : string).

Definition C (A : Type) : Type := World -> World * list output * (A + stop).

Definition retC {A} (a : A) : C A := fun w => (w, [], inl a).

Definition bindC {A B} (m : C A) (k : A -> C B) : C B :=
  fun w =>
    match m w with
    | (w1, out1, inl a) => let '(w2, out2, r) := k a w1 in (w2, (out1 ++ out2)%list, r)
    | (w1, out1, inr s) => (w1, out1, inr s)
    end.

Definition emit (o : output) : C unit := fun w => (w, [o], inl tt).

Definition stopC {A} (s : stop) : C A := fun w => (w, [], inr s).

(** A call into the package. *)
Definition call {A} (m : M A) : C A :=
  fun w =>
    match m w with
    | (w', Return a) => (w', [], inl a)
    | (w', Raise e) => (w', [], inr (Uncaught e))
    end.

(** [try: body except <classes>: handler].  No [try] block of the commands
    that catches [Exception] raises [typer.Exit] in its body. *)
Definition try_exceptC {A} (body : C A) (handler : exn -> option (C A)) : C A :=
  fun w =>
    match body w with
    | (w1, out1, inr (Uncaught e)) =>
        match handler e with
        | Some h => let '(w2, out2, r) := h w1 in (w2, (out1 ++ out2)%list, r)
        | None => (w1, out1, inr (Uncaught e))
        end
    | r => r
    end.

(** The world a command leaves, what it wrote, and how it ended. *)
Definition world_after {A} (c : C A) (w : World) : World := fst (fst (c w)).
Definition written {A} (c : C A) (w : World) : list output := snd (fst (c w)).
Definition ending {A} (c : C A) (w : World) : A + stop := snd (c w).

(** A command that leaves every world as it found it. *)
Definition read_only {A} (c : C A) : Prop := forall w, world_after c w = w.

(** The exit status of the process. *)
Definition exit_status {A} (r : A + stop) : Z :=
  match r with
  | inl _ => 0%Z
  | inr (Exit code) => code
  | inr _ => 1%Z
  end.

Declare Scope cmd_scope.
Delimit Scope cmd_scope with C.
Notation "x <- m ;; k" := (bindC m (fun x => k))
  (at level 20, m at level 99, k at level 200, only parsing) : cmd_scope.
Notation "' pat <- m ;; k" := (bindC m (fun x => match x with pat => k end))
  (at level 20, pat pattern, m at level 99, k at level 200, only parsing) : cmd_scope.
Notation "m ;;; k" := (bindC m (fun _ => k))
  (at level 100, k at level 200, right associativity, only parsing) : cmd_scope.

Local Open Scope cmd_scope.

(** *** utils/output.py *)

Definition console_print (markup : string) : C unit := emit (ConsolePrint markup).

Definition print_info (message : string) : C unit :=
  console_print ("[blue][INFO][/blue] " +:+ message).

Definition print_success (message : string) : C unit :=
  console_print ("[green]✓[/green] " +:+ message).

Definition print_warning (message : string) : C unit :=
  console_print ("[yellow]⚠[/yellow]  " +:+ message).

Definition print_error (message : string) : C unit :=
  console_print ("[red]✗[/red] " +:+ message).

Definition print_highlight (message : string) : C unit :=
  console_print ("[cyan][DRIVER][/cyan] " +:+ message).

Definition print_header (title : string) : C unit :=
  console_print "" ;;;
  emit (ConsoleRule ("[bold cyan]" +:+ title +:+ "[/bold cyan]")) ;;;
  console_print "".

Definition print_json_output (data : gmap string json) : C unit := emit (PrintJson data).

(** A row is added to the table when [present] holds. *)
Definition row_if (present : bool) (row : string * option string)
    : list (string * option string) :=
  if present then [row] else [].

Definition print_driver_info_table (driver_version : option string)
    (cuda_version gpu_name min_required recommended : option string) (is_compatible : bool)
    : C unit :=
  emit (ConsoleTable "Driver Information"
          (row_if (truthy gpu_name) ("GPU", gpu_name)
           ++ [("Windows Driver", driver_version)]
           ++ row_if (truthy cuda_version) ("Max CUDA Version", cuda_version)
           ++ [("Min Required (CUDA 12.9)", min_required);
               ("Recommended", recommended);
               ("Status", Some (if is_compatible then "[green]✓ Compatible[/green]"
                                else "[red]✗ Not Compatible[/red]"))])%list).

Definition print_system_info_table (wsl_distro os_name os_version kernel_version : string)
    : C unit :=
  emit (ConsoleTable "System Information"
          [("WSL Distribution", Some wsl_distro);
           ("OS", Some (os_name +:+ " " +:+ os_version));
           ("Kernel", Some kernel_version)]).

Definition print_update_instructions (current_version min_version recommended : option string)
    : C unit :=
  print_header "Driver Update Required" ;;;
  print_error ("Current driver (" +:+ str_opt current_version
               +:+ ") does not support CUDA 12.9") ;;;
  print_info ("Minimum required: " +:+ str_opt min_version) ;;;
  print_info ("Recommended: " +:+ str_opt recommended +:+ " or newer") ;;;
  console_print "" ;;;
  print_highlight "How to update your NVIDIA driver on Windows:" ;;;
  console_print "" ;;;
  console_print "[bold]Option 1: GeForce Experience (Easiest)[/bold]" ;;;
  console_print "  1. Open GeForce Experience on Windows" ;;;
  console_print "  2. Go to 'Drivers' tab" ;;;
  console_print "  3. Click 'Check for Updates'" ;;;
  console_print "  4. Download and install the latest driver" ;;;
  console_print "" ;;;
  console_print "[bold]Option 2: Manual Download[/bold]" ;;;
  console_print "  1. Visit: [link]https://www.nvidia.com/Download/index.aspx[/link]" ;;;
  console_print "  2. Select your GPU model" ;;;
  console_print "  3. Download the latest driver (Game Ready or Studio)" ;;;
  console_print "  4. Run the installer on Windows" ;;;
  console_print "" ;;;
  console_print "[bold]Option 3: Windows Update[/bold]" ;;;
  console_print "  1. Open Windows Settings → Update & Security" ;;;
  console_print "  2. Click 'Check for updates'" ;;;
  console_print "  3. Install any NVIDIA driver updates" ;;;
  console_print "" ;;;
  print_warning "After updating the driver on Windows:" ;;;
  console_print "  1. Restart Windows (recommended)" ;;;
  console_print "  2. Restart WSL: [cyan]wsl --shutdown[/cyan] (in PowerShell)" ;;;
  console_print "  3. Relaunch Ubuntu" ;;;
  console_print "  4. Run [cyan]cuda-setup check[/cyan] again to verify" ;;;
  console_print "".

(** *** Dictionaries and strings *)

(** [d.get(key)] and [d[key]] for the dictionary of the verdict. *)
Definition dict_get (d : info) (key : string) : option string :=
  default None (d !! key).

Definition dict_item (d : info) (key : string) : C (option string) :=
  match d !! key with
  | Some v => retC v
  | None => stopC (Crash "KeyError")
  end.

(** [needle in s] *)
Fixpoint contains (needle s : string) : bool :=
  String.prefix needle s
  || match s with
     | String _ s' => contains needle s'
     | EmptyString => false
     end.

Definition lower_string (s : string) : string :=
  string_of_list_ascii (lower_str (list_ascii_of_string s)).

Definition DOWNLOAD_LINE : string := "  Download: https://www.nvidia.com/Download/index.aspx".

Definition NOT_WSL2 : string := "This tool is designed for WSL2 environments".

(** The lines with the manual steps that the fix command prints in two
    places. *)
Definition manual_fix_steps : C unit :=
  print_info "Manual fix steps:" ;;;
  console_print ("  sudo mv " +:+ Path_str WSL_NVIDIA_SMI_PATH +:+ " "
                 +:+ Path_str WSL_NVIDIA_SMI_PATH +:+ ".old") ;;;
  console_print ("  sudo ln -s " +:+ Path_str WINDOWS_NVIDIA_SMI_PATH +:+ " "
                 +:+ Path_str WSL_NVIDIA_SMI_PATH).

(** *** commands/check.py *)

Definition check (json_output no_fix verbose : bool) : C unit :=
  wsl <- call is_wsl2 ;;
  if negb wsl then
    (if json_output then
       print_json_output {[ "error" := JStr "Not running on WSL2"; "compatible" := JBool false ]}
     else print_error NOT_WSL2) ;;;
    stopC (Exit 1)
  else
    (if negb json_output then print_header "NVIDIA Driver Compatibility Check" else retC tt) ;;;
    (if negb no_fix then
       (if verbose && negb json_output then print_info "Checking nvidia-smi..." else retC tt) ;;;
       try_exceptC
         ('(success, message) <- call fix_nvidia_smi ;;
          if verbose && negb json_output then
            if success then print_success message else print_warning message
          else retC tt)
         (fun e =>
            if is_NvidiaSmiError e then
              Some ((if json_output then
                       print_json_output
                         {[ "error" := JStr (exn_str e); "compatible" := JBool false ]}
                     else
                       print_error ("nvidia-smi fix failed: " +:+ exn_str e) ;;;
                       console_print "" ;;;
                       print_info "Try running: [cyan]cuda-setup fix[/cyan]") ;;;
                    stopC (Exit 1))
            else None)
     else retC tt) ;;;
    (if negb json_output then print_info "Checking Windows NVIDIA driver..." else retC tt) ;;;
    '(is_compatible, message, info) <-
      try_exceptC (call check_driver_compatibility)
        (fun e =>
           match e with
           | DriverError _ =>
               Some ((if json_output then
                        print_json_output
                          {[ "error" := JStr (exn_str e); "compatible" := JBool false ]}
                      else
                        print_error (exn_str e) ;;;
                        console_print "" ;;;
                        if contains "not found" (lower_string (exn_str e)) then
                          print_info "Please install NVIDIA drivers on Windows first" ;;;
                          console_print DOWNLOAD_LINE
                        else retC tt) ;;;
                     stopC (Exit 1))
           | _ => None
           end) ;;
    (if json_output then
       print_json_output
         ((json_of <$> info)
          ∪ {[ "compatible" := JBool is_compatible; "message" := JStr message ]})
     else
       console_print "" ;;;
       let driver_version := dict_get info "driver_version" in
       if truthy driver_version then
         min_required <- dict_item info "min_required" ;;
         recommended <- dict_item info "recommended" ;;
         print_driver_info_table driver_version (dict_get info "cuda_version")
           (dict_get info "gpu_name") min_required recommended is_compatible ;;;
         console_print "" ;;;
         if is_compatible then
           print_success message ;;;
           console_print "" ;;;
           print_info "You can proceed with CUDA 12.9 installation" ;;;
           recommended <- dict_item info "recommended" ;;
           if negb (bool_decide (driver_version = recommended)) then
             recommended <- dict_item info "recommended" ;;
             meets <- match driver_version, recommended with
                      | Some v, Some r => call (lift (fun _ => version_meets_minimum v r))
                      | _, _ => stopC (Crash "TypeError")
                      end ;;
             if negb meets then
               console_print "" ;;;
               recommended <- dict_item info "recommended" ;;
               print_info ("Consider updating to driver " +:+ str_opt recommended
                           +:+ "+ for latest features and bug fixes") ;;;
               console_print DOWNLOAD_LINE
             else retC tt
           else retC tt
         else
           print_error message ;;;
           console_print "" ;;;
           min_required <- dict_item info "min_required" ;;
           recommended <- dict_item info "recommended" ;;
           print_update_instructions driver_version min_required recommended ;;;
           stopC (Exit 1)
       else
         print_error "Could not determine driver version" ;;;
         stopC (Exit 1)) ;;;
    console_print "".

(** *** commands/fix.py

    The command is [fix] in the source; that word is reserved here. *)

Definition fix_command (json_output verbose : bool) : C unit :=
  wsl <- call is_wsl2 ;;
  if negb wsl then
    (if json_output then
       print_json_output {[ "error" := JStr "Not running on WSL2"; "success" := JBool false ]}
     else print_error NOT_WSL2) ;;;
    stopC (Exit 1)
  else
    (if negb json_output then print_header "Fix nvidia-smi Segfault" else retC tt) ;;;
    (if verbose && negb json_output then
       print_info "Checking current nvidia-smi status..." ;;;
       present <- call (lift (fun w => Path_exists w WSL_NVIDIA_SMI_PATH)) ;;
       (if present then
          symlink <- call is_nvidia_smi_symlink ;;
          if symlink then
            target <- call get_nvidia_smi_target ;;
            console_print ("  nvidia-smi is a symlink to: " +:+ str_opt (Path_str <$> target))
          else
            console_print ("  nvidia-smi is a regular file at: "
                           +:+ Path_str WSL_NVIDIA_SMI_PATH)
        else
          console_print ("  nvidia-smi does not exist at: " +:+ Path_str WSL_NVIDIA_SMI_PATH)) ;;;
       console_print ""
     else retC tt) ;;;
    present <- call (lift (fun w => Path_exists w WINDOWS_NVIDIA_SMI_PATH)) ;;
    if negb present then
      let error_msg :=
        "Windows nvidia-smi not found. Please install NVIDIA drivers on Windows first." in
      (if json_output then
         print_json_output {[ "error" := JStr error_msg; "success" := JBool false ]}
       else
         print_error error_msg ;;;
         console_print "" ;;;
         print_info "Download drivers from: https://www.nvidia.com/Download/index.aspx") ;;;
      stopC (Exit 1)
    else
      (if negb json_output then print_info "Applying nvidia-smi fix..." else retC tt) ;;;
      try_exceptC
        ('(success, message) <- call fix_nvidia_smi ;;
         if json_output then
           print_json_output
             {[ "success" := JBool success; "message" := JStr message;
                "wsl_nvidia_smi" := JStr (Path_str WSL_NVIDIA_SMI_PATH);
                "windows_nvidia_smi" := JStr (Path_str WINDOWS_NVIDIA_SMI_PATH) ]}
         else
           console_print "" ;;;
           (if success then
              print_success "nvidia-smi fix applied successfully!" ;;;
              if verbose then console_print ("  " +:+ message) else retC tt
            else
              print_warning "Fix applied but nvidia-smi may still have issues" ;;;
              console_print ("  " +:+ message)) ;;;
           console_print "" ;;;
           print_info "Testing nvidia-smi output:" ;;;
           console_print "" ;;;
           working <- call (test_nvidia_smi None) ;;
           (if working then
              try_exceptC
                (gpu_name <- call get_gpu_name ;;
                 driver_ver <- call get_driver_version ;;
                 cuda_ver <- call get_driver_cuda_version ;;
                 (if truthy gpu_name
                  then console_print ("  GPU: [cyan]" +:+ str_opt gpu_name +:+ "[/cyan]")
                  else retC tt) ;;;
                 (if truthy driver_ver
                  then console_print ("  Driver: [cyan]" +:+ str_opt driver_ver +:+ "[/cyan]")
                  else retC tt) ;;;
                 (if truthy cuda_ver
                  then console_print ("  CUDA Version: [cyan]" +:+ str_opt cuda_ver
                                      +:+ "[/cyan]")
                  else retC tt))
                (fun e =>
                   Some ((if verbose
                          then print_warning ("Could not get full GPU info: " +:+ exn_str e)
                          else retC tt) ;;;
                         console_print "  nvidia-smi is working (details unavailable)"))
            else
              print_error "nvidia-smi test failed" ;;;
              console_print "" ;;;
              manual_fix_steps ;;;
              stopC (Exit 1)) ;;;
           console_print "")
        (fun e =>
           if is_NvidiaSmiError e then
             Some ((if json_output then
                      print_json_output
                        {[ "error" := JStr (exn_str e); "success" := JBool false ]}
                    else
                      print_error ("Failed to fix nvidia-smi: " +:+ exn_str e) ;;;
                      console_print "" ;;;
                      manual_fix_steps) ;;;
                   stopC (Exit 1))
           else None).

(** *** commands/info.py *)

(** [x or fallback] for an optional string. *)
Definition or_else (x : option string) (fallback : string) : string :=
  if truthy x then str_opt x else fallback.

Definition info_dict (wsl_distro os_name os_version kernel_version : string)
    (gpu_name driver_version cuda_version : option string) : gmap string json :=
  {[ "system" := JDict {[ "wsl_distribution" := JStr wsl_distro;
                          "os_name" := JStr os_name;
                          "os_version" := JStr os_version;
                          "kernel_version" := JStr kernel_version ]};
     "gpu" := JDict {[ "name" := JStr (or_else gpu_name "Not detected") ]};
     "driver" := JDict {[ "version" := JStr (or_else driver_version "Not detected");
                          "cuda_version_supported" := JStr (or_else cuda_version "Unknown") ]};
     "cuda" := JDict {[ "target_version" := JStr CUDA_VERSION;
                        "min_driver_required" := JStr MIN_WINDOWS_DRIVER;
                        "recommended_driver" := JStr RECOMMENDED_DRIVER ]} ]}.

(** [info(json_output, full)]; the body makes no use of [full]. *)
Definition info (json_output : bool) : C unit :=
  wsl <- call is_wsl2 ;;
  if negb wsl then
    print_error NOT_WSL2 ;;;
    stopC (Exit 1)
  else
    wsl_distro <- call get_wsl_distro_name ;;
    '(os_name, os_version) <- call get_os_info ;;
    kernel_version <- call get_kernel_version ;;
    '(driver_version, cuda_version, gpu_name) <-
      try_exceptC
        (driver_version <- call get_driver_version ;;
         cuda_version <- call get_driver_cuda_version ;;
         gpu_name <- call get_gpu_name ;;
         retC (driver_version, cuda_version, gpu_name))
        (fun e =>
           match e with
           | DriverError _ =>
               Some ((if negb json_output
                      then print_error ("Failed to get driver information: " +:+ exn_str e)
                      else retC tt) ;;;
                     retC (None, None, None))
           | _ => None
           end) ;;
    let info_dict :=
      info_dict wsl_distro os_name os_version kernel_version
        gpu_name driver_version cuda_version in
    if json_output then print_json_output info_dict
    else
      print_header "CUDA Setup Information" ;;;
      print_system_info_table wsl_distro os_name os_version kernel_version ;;;
      console_print "" ;;;
      (if truthy driver_version then
         is_compatible <-
           call (lift (fun _ => version_meets_minimum (str_opt driver_version)
                                  MIN_WINDOWS_DRIVER)) ;;
         print_driver_info_table driver_version cuda_version gpu_name
           (Some MIN_WINDOWS_DRIVER) (Some RECOMMENDED_DRIVER) is_compatible
       else
         print_warning "NVIDIA driver not detected" ;;;
         console_print "  Please install NVIDIA drivers on Windows" ;;;
         console_print DOWNLOAD_LINE) ;;;
      console_print "".

End Cli.

(** * Properties *)

(** ** The monad *)

Lemma bindM_ask {A B} (f : World -> A) (k : A -> M B) w : bindM (ask f) k w = k (f w) w.
Proof. reflexivity. Qed.

Lemma bindM_return {A B} (m : M A) (k : A -> M B) w w' a :
  m w = (w', Return a) -> bindM m k w = k a w'.
Proof. intros H. unfold bindM. rewrite H. reflexivity. Qed.

Lemma run_pair {A} (m : M A) w : m w = (after m w, outcome m w).
Proof. unfold after, outcome. destruct (m w); reflexivity. Qed.

(** Reduction of the tests the code makes on values already known. *)
Ltac mred := cbv beta; cbn [negb andb orb]; cbv beta iota.

(** ** The regular-expression engine and the version parser *)

(** A match consumes only characters of the pattern's alphabet. *)
Lemma run_consumes (r : Re.regex) : forall A (s : list ascii) caps
    (k : list ascii -> Re.captures -> option A) x,
  Re.run r s caps k = Some x ->
  exists pre s' caps',
    s = (pre ++ s')%list /\ Forall (fun c => Re.alphabet r c = true) pre
    /\ k s' caps' = Some x.
Proof.
  induction r as [|p|r1 IH1 r2 IH2|r1 IH1 r2 IH2|r1 IH1|nm r1 IH1];
    intros A s caps k x; simpl.
  - intros H. exists [], s, caps. auto.
  - destruct s as [|c s]; [discriminate|]. destruct (p c) eqn:E; [|discriminate].
    intros H. exists [c], s, caps. repeat split; auto.
  - intros H. apply IH1 in H as (pre1 & s1 & c1 & -> & F1 & H).
    apply IH2 in H as (pre2 & s2 & c2 & -> & F2 & H).
    exists (pre1 ++ pre2)%list, s2, c2. rewrite <- app_assoc. repeat split; auto.
    apply Forall_app. split; eapply Forall_impl; try eassumption; simpl;
      intros a Ha; rewrite Ha; auto using orb_true_r.
  - destruct (Re.run r1 s caps k) eqn:E.
    + intros [= ->]. apply IH1 in E as (pre & s' & c' & -> & F & H).
      exists pre, s', c'. repeat split; auto.
      eapply Forall_impl; [eassumption|]. simpl. intros a Ha. rewrite Ha. reflexivity.
    + intros H. apply IH2 in H as (pre & s' & c' & -> & F & H).
      exists pre, s', c'. repeat split; auto.
      eapply Forall_impl; [eassumption|]. simpl. intros a Ha. rewrite Ha. apply orb_true_r.
  - generalize (length s) as n. intros n. revert s caps.
    induction n as [|n IHn]; intros s caps.
    + intros H. exists [], s, caps. auto.
    + destruct (Re.run r1 s caps _) eqn:E.
      * intros [= ->]. apply IH1 in E as (pre1 & s1 & c1 & -> & F1 & H).
        destruct (length s1 <? length (pre1 ++ s1))%nat; [|discriminate].
        apply IHn in H as (pre2 & s2 & c2 & -> & F2 & H).
        exists (pre1 ++ pre2)%list, s2, c2. rewrite <- app_assoc. repeat split; auto.
        apply Forall_app. auto.
      * intros H. exists [], s, caps. auto.
  - intros H. apply IH1 in H as (pre & s' & c' & -> & F & H). eauto 6.
Qed.

Lemma fullmatch_alphabet r s caps :
  Re.fullmatch r s = Some caps ->
  Forall (fun c => Re.alphabet r c = true) (list_ascii_of_string s).
Proof.
  unfold Re.fullmatch. intros H.
  apply run_consumes in H as (pre & s' & c' & Hs & F & H).
  destruct s'; [|discriminate]. rewrite app_nil_r in Hs. rewrite Hs. exact F.
Qed.

Lemma version_alphabet c :
  Re.alphabet Packaging._regex c = true -> Packaging.version_char c = true.
Proof.
  destruct c as [[] [] [] [] [] [] [] []]; vm_compute; intros H;
    first [reflexivity | discriminate H].
Qed.

(** A string with a character foreign to the grammar is not a version. *)
Lemma Version_rejects_foreign_character s :
  existsb (fun c => negb (Packaging.version_char c)) (list_ascii_of_string s) = true ->
  Packaging.Version s = None.
Proof.
  intros H. unfold Packaging.Version.
  destruct (Re.fullmatch Packaging._regex s) as [m|] eqn:E; [|reflexivity].
  exfalso. apply fullmatch_alphabet in E. apply existsb_exists in H as (c & Hc & Hv).
  rewrite Forall_forall in E. apply list_elem_of_In in Hc.
  apply E, version_alphabet in Hc. rewrite Hc in Hv. discriminate.
Qed.

(** ** Version comparison *)

(** C9. [version_meets_minimum actual minimum] is the test
    [compare_versions actual minimum >= 0] (an exception of the comparison
    propagates), and the boundary is inclusive: 566.03 meets 528.33, 500.00
    does not, 528.33 does. *)
Theorem version_meets_minimum_is_compare_ge_0 :
  (forall actual minimum : string,
     version_meets_minimum actual minimum
     = bind (compare_versions actual minimum) (fun c => Return (c >=? 0)%Z))
  /\ version_meets_minimum "566.03" "528.33" = Return true
  /\ version_meets_minimum "500.00" "528.33" = Return false
  /\ version_meets_minimum "528.33" "528.33" = Return true.
Proof.
  split.
  - intros actual minimum. reflexivity.
  - repeat split; vm_compute; reflexivity.
Qed.

(** The comparisons behind the boundary examples: segments compare as
    numbers and missing trailing segments count as zero. *)
Example compare_versions_examples :
  compare_versions "566.03" "528.33" = Return 1%Z
  /\ compare_versions "500.00" "528.33" = Return (-1)%Z
  /\ compare_versions "528.33" "528.33" = Return 0%Z
  /\ compare_versions "1.0" "1.0.0" = Return 0%Z
  /\ compare_versions "1.10" "1.9" = Return 1%Z.
Proof. repeat split; vm_compute; reflexivity. Qed.

(** C4, as stated, fails: "v1.0" has the non-numeric segment "v1", yet it is
    parsed and compared as equal to "1.0"; "1.0.dev1" has the non-numeric
    segment "dev1" and is ordered below "1.0".  Neither call raises. *)
Lemma compare_versions_accepts_malformed :
  malformed "v1.0" = true
  /\ compare_versions "v1.0" "1.0" = Return 0%Z
  /\ malformed "1.0.dev1" = true
  /\ compare_versions "1.0.dev1" "1.0" = Return (-1)%Z.
Proof. repeat split; vm_compute; reflexivity. Qed.

(** C4, amended. When the PEP 440 parser rejects one of the two strings,
    [compare_versions] raises the parser's [InvalidVersion] and yields no
    ordering. *)
Theorem compare_versions_raises_on_invalid (ver1 ver2 : string) :
  Packaging.Version ver1 = None \/ Packaging.Version ver2 = None ->
  exists msg, compare_versions ver1 ver2 = Raise (InvalidVersion msg).
Proof.
  unfold compare_versions, Packaging.parse.
  intros [H | H].
  - rewrite H. simpl. eauto.
  - rewrite H. destruct (Packaging.Version ver1); simpl; eauto.
Qed.

Lemma compare_versions_raises_on_invalid_witness :
  exists msg, compare_versions "566.x" "528.33" = Raise (InvalidVersion msg).
Proof.
  apply (compare_versions_raises_on_invalid "566.x" "528.33").
  left. vm_compute. reflexivity.
Defined.

(** Conversely a call that raises [InvalidVersion] was given a string the
    parser rejects, and any other call returns -1, 0 or 1. *)
Lemma compare_versions_total (ver1 ver2 : string) :
  (exists msg, compare_versions ver1 ver2 = Raise (InvalidVersion msg)
               /\ (Packaging.Version ver1 = None \/ Packaging.Version ver2 = None))
  \/ (exists c, compare_versions ver1 ver2 = Return c /\ (c = -1 \/ c = 0 \/ c = 1)%Z).
Proof.
  unfold compare_versions, Packaging.parse.
  destruct (Packaging.Version ver1) as [v1|]; simpl; [|left; eauto].
  destruct (Packaging.Version ver2) as [v2|]; simpl; [|left; eauto].
  right. destruct (Packaging.lt v1 v2); [eauto|].
  destruct (Packaging.gt v1 v2); eauto 6.
Qed.

(** In particular a string with a character outside the grammar's alphabet,
    such as "566.03$", makes the comparison raise. *)
Lemma compare_versions_foreign_character (ver1 ver2 : string) :
  existsb (fun c => negb (Packaging.version_char c)) (list_ascii_of_string ver1) = true ->
  exists msg, compare_versions ver1 ver2 = Raise (InvalidVersion msg).
Proof.
  intros H. unfold compare_versions, Packaging.parse.
  rewrite (Version_rejects_foreign_character ver1 H). simpl. eauto.
Qed.

(** ** WSL2 detection *)

Lemma bindM_lift {A B} (f : World -> result A) (k : A -> M B) w :
  bindM (lift f) k w = match f w with Return a => k a w | Raise e => (w, Raise e) end.
Proof. unfold bindM, lift. destruct (f w); reflexivity. Qed.

(** The loop over the marker files reads only.  It answers [True] at the
    first file that exists; a file whose [exists()] raises ends it with that
    exception. *)
Lemma any_exists_run ps : forall w,
  any_exists ps w
  = (w, match ps with
        | [] => Return false
        | p :: rest =>
            bind (Path_exists w p) (fun found =>
              if found then Return true else outcome (any_exists rest) w)
        end).
Proof.
  induction ps as [|p ps IH]; intros w; [reflexivity|].
  cbn [any_exists]. rewrite bindM_lift. destruct (Path_exists w p) as [[|]|e]; cbn [bind].
  - reflexivity.
  - unfold outcome. rewrite IH. destruct ps; reflexivity.
  - reflexivity.
Qed.

Lemma any_exists_pair ps w : any_exists ps w = (w, outcome (any_exists ps) w).
Proof. unfold outcome. rewrite any_exists_run. reflexivity. Qed.

(** When the loop returns, it tells whether one of the files exists. *)
Lemma any_exists_returns ps w b :
  outcome (any_exists ps) w = Return b ->
  b = existsb (fun p => match Path_exists w p with Return true => true | _ => false end) ps.
Proof.
  revert b. induction ps as [|p ps IH]; intros b; unfold outcome; rewrite any_exists_run.
  - intros [= <-]. reflexivity.
  - cbn [snd existsb]. destruct (Path_exists w p) as [[|]|e]; cbn [bind orb].
    + intros [= <-]. reflexivity.
    + apply IH.
    + discriminate.
Qed.

(** Reading the kernel-version file inside the [try] block: an [OSError]
    counts as no match, any other exception passes. *)
Lemma read_proc_version w :
  try_except
    (version_content <- lift (fun w => Path_read_text w PROC_VERSION_PATH) ;;
     ret (bool_decide (is_Some (Re.search WSL2_MARKER version_content))))
    (fun e => if is_OSError e then Some (ret false) else None) w
  = (w, match Path_read_text w PROC_VERSION_PATH with
        | Return content => Return (bool_decide (is_Some (Re.search WSL2_MARKER content)))
        | Raise e => if is_OSError e then Return false else Raise e
        end).
Proof.
  unfold try_except. rewrite bindM_lift.
  destruct (Path_read_text w PROC_VERSION_PATH) as [content|e]; [reflexivity|].
  destruct (is_OSError e); reflexivity.
Qed.

Lemma signal_kernel_version_absent w :
  Path_exists w PROC_VERSION_PATH = Return false -> signal_kernel_version w = false.
Proof.
  unfold Path_exists, signal_kernel_version, Path_read_text.
  destruct (stat_as_user w PROC_VERSION_PATH) as [e|n]; [reflexivity|discriminate].
Qed.

(** What [is_wsl2] does, call by call.  It reads only. *)
Lemma is_wsl2_run w :
  is_wsl2 w
  = (w, if signal_environment w then Return true
        else
          bind (outcome (any_exists WSL_INTEROP_PATHS) w) (fun interop =>
            if interop then Return true
            else
              bind (Path_exists w PROC_VERSION_PATH) (fun proc_version =>
                if proc_version then
                  match Path_read_text w PROC_VERSION_PATH with
                  | Return content =>
                      Return (bool_decide (is_Some (Re.search WSL2_MARKER content)))
                  | Raise e => if is_OSError e then Return false else Raise e
                  end
                else Return false))).
Proof.
  unfold is_wsl2, signal_environment. rewrite bindM_ask.
  destruct (truthy _); [reflexivity|].
  unfold bindM at 1. rewrite any_exists_pair.
  destruct (outcome (any_exists WSL_INTEROP_PATHS) w) as [[|]|e]; try reflexivity.
  cbn [bind]. rewrite bindM_lift.
  destruct (Path_exists w PROC_VERSION_PATH) as [[|]|e]; try reflexivity.
  cbn [bind]. unfold bindM at 1. rewrite read_proc_version.
  destruct (Path_read_text w PROC_VERSION_PATH) as [content|e].
  - destruct (bool_decide _); reflexivity.
  - destruct (is_OSError e); reflexivity.
Qed.

(** [is_wsl2], where it returns, tells whether one of the three signals
    holds: the environment variable is set and not empty, a marker file
    exists, or the kernel-version file can be read and matches the marker.
    An [OSError] raised while the file is read counts as a signal that is
    absent. *)
Lemma is_wsl2_any_signal (w : World) (b : bool) :
  outcome is_wsl2 w = Return b ->
  b = signal_environment w || signal_marker_file w || signal_kernel_version w.
Proof.
  unfold outcome. rewrite is_wsl2_run. cbn [snd].
  destruct (signal_environment w); [intros [= <-]; reflexivity|]. cbn [orb].
  destruct (outcome (any_exists WSL_INTEROP_PATHS) w) as [interop|e] eqn:Ea; [|discriminate].
  apply any_exists_returns in Ea. fold (signal_marker_file w) in Ea. rewrite <- Ea.
  cbn [bind]. destruct interop; [intros [= <-]; reflexivity|]. cbn [orb].
  destruct (Path_exists w PROC_VERSION_PATH) as [[|]|e] eqn:Ep; cbn [bind].
  - unfold signal_kernel_version.
    destruct (Path_read_text w PROC_VERSION_PATH) as [content|e].
    + intros [= <-]. reflexivity.
    + destruct (is_OSError e); [intros [= <-]; reflexivity|discriminate].
  - rewrite (signal_kernel_version_absent w Ep). intros [= <-]. reflexivity.
  - discriminate.
Qed.

(** The third signal alone is enough, and a kernel-version file that may
    not be read is no signal and no error. *)
Example is_wsl2_examples :
  outcome is_wsl2 Examples.proc_version_world = Return true
  /\ outcome is_wsl2 Examples.unreadable_proc_world = Return false
  /\ Path_read_text Examples.unreadable_proc_world PROC_VERSION_PATH = Raise (OSError EACCES).
Proof. repeat split; vm_compute; reflexivity. Qed.

(** C8. The code departs from the claim, and from its own docstring
    ("True if running on WSL2, False otherwise"): the calls of [exists()]
    stand outside the [try] block (in [get_os_info], next to it, the call
    stands inside), and the block catches [OSError] only.  Where the third
    signal holds but the user may not search the directory of the marker
    files, [is_wsl2] raises [PermissionError] instead of returning [True];
    and where the kernel-version file does not hold text, [is_wsl2] raises
    [UnicodeDecodeError] instead of taking the signal for absent. *)
Lemma is_wsl2_raises :
  signal_kernel_version Examples.unsearchable_world = true
  /\ outcome is_wsl2 Examples.unsearchable_world = Raise (OSError EACCES)
  /\ (exists reason,
        outcome is_wsl2 Examples.undecodable_proc_world = Raise (UnicodeDecodeError reason)).
Proof.
  split; [vm_compute; reflexivity|]. split; [vm_compute; reflexivity|].
  eexists. vm_compute. reflexivity.
Qed.

(** ** Path validation *)

Lemma Path_resolve_raises w p e :
  Path_resolve w p = Raise e -> is_ValueError e || is_RuntimeError e = true.
Proof.
  unfold Path_resolve. destruct (existsb has_nul p); [intros [= <-]; reflexivity|].
  destruct (realpath _ _ _ _); [discriminate|]. intros [= <-]. reflexivity.
Qed.

(** C10. Without [allowed_parent] the check is permissive: it returns
    [True] for every path that resolves, and [False], without raising, when
    resolution fails. *)
Theorem validate_path_safe_permissive_by_default (w : World) (p : path) :
  validate_path_safe p None w = (w, Return (negb (raised (Path_resolve w p)))).
Proof.
  unfold validate_path_safe, try_except, bindM, lift, ret.
  destruct (Path_resolve w p) as [r|e] eqn:E; simpl; [reflexivity|].
  rewrite (Path_resolve_raises _ _ _ E). reflexivity.
Qed.

(** With [allowed_parent] the answer is the containment of the resolved
    path in the resolved parent. *)
Lemma validate_path_safe_spec p allowed w :
  validate_path_safe p (Some allowed) w
  = (w, Return match Path_resolve w p, Path_resolve w allowed with
               | Return r, Return ra => Path_is_relative_to r ra
               | _, _ => false
               end).
Proof.
  unfold validate_path_safe, try_except, bindM, lift, ret.
  destruct (Path_resolve w p) as [r|e] eqn:E1.
  - destruct (Path_resolve w allowed) as [ra|e] eqn:E2; [reflexivity|].
    rewrite (Path_resolve_raises _ _ _ E2). reflexivity.
  - rewrite (Path_resolve_raises _ _ _ E1). reflexivity.
Qed.

(** A path that climbs out of the directory through [..] is contained when
    no parent is given and rejected when one is. *)
Example traversal_is_rejected :
  let escaping := (parent WSL_NVIDIA_SMI_PATH ++ [".."; ".."; "etc"; "nvidia-smi.old"])%list in
  outcome (validate_path_safe escaping None) Examples.missing_world = Return true
  /\ outcome (validate_path_safe escaping (Some (parent WSL_NVIDIA_SMI_PATH)))
       Examples.missing_world = Return false.
Proof. split; vm_compute; reflexivity. Qed.

(** ** Driver compatibility *)

(** Starting a program that is not sudo leaves the world as it is. *)
Lemma run_command_spawn prog args timeout check w :
  is_sudo prog = false ->
  after (run_command (prog :: args) timeout check) w = w.
Proof.
  intros Hs. unfold after, run_command, try_except, bindM, subprocess_run.
  destruct (existsb has_nul _); [reflexivity|].
  rewrite Hs.
  destruct (spawn w prog args) as [e|pr].
  - destruct e; reflexivity.
  - destruct (timed_out timeout (secs pr)); [reflexivity|].
    unfold completed. destruct (stdout pr), (stderr pr); try reflexivity.
    destruct (check && _); reflexivity.
Qed.

(** C5. The two failure shapes of [check_driver_compatibility].  Without the
    Windows nvidia-smi it returns an incompatible verdict whose driver
    fields are all [None] and does not raise.  When the binary is there and
    runs, but its output holds no driver version, it raises [DriverError]
    "Could not determine driver version" (the specification's
    DriverUndeterminedError) and returns nothing. *)
Theorem check_driver_compatibility_failure_shapes (w : World) :
  (Path_exists w WINDOWS_NVIDIA_SMI_PATH = Return false ->
   exists d : info,
     check_driver_compatibility w = (w, Return (false, "Windows NVIDIA driver not found", d))
     /\ d !! "driver_version" = Some None
     /\ d !! "cuda_version" = Some None
     /\ d !! "gpu_name" = Some None)
  /\ (forall out err,
      Path_exists w WINDOWS_NVIDIA_SMI_PATH = Return true ->
      outcome (run_command [PathArg WINDOWS_NVIDIA_SMI_PATH] (Some NVIDIA_SMI_TIMEOUT) false) w
      = Return (0%Z, out, err) ->
      Re.search (labelled_version "Driver Version:") out = None ->
      check_driver_compatibility w
      = (w, Raise (DriverError "Could not determine driver version"))).
Proof.
  split.
  - intros H. unfold check_driver_compatibility. rewrite bindM_lift, H. mred.
    eexists. split; [reflexivity|]. repeat split; vm_compute; reflexivity.
  - intros out err H Hrun Hsearch.
    unfold check_driver_compatibility. rewrite bindM_lift, H. mred.
    assert (Hg : get_driver_version w = (w, Return None)).
    { unfold get_driver_version. rewrite bindM_lift, H. mred.
      unfold try_except, bindM.
      rewrite (run_pair (run_command _ _ _) w), Hrun.
      rewrite run_command_spawn by reflexivity.
      cbn [Z.eqb negb]. rewrite Hsearch. reflexivity. }
    rewrite (bindM_return _ _ _ _ _ Hg). reflexivity.
Qed.

Lemma check_driver_compatibility_failure_shapes_witness :
  (exists d : info,
     check_driver_compatibility Examples.no_driver_world
     = (Examples.no_driver_world, Return (false, "Windows NVIDIA driver not found", d))
     /\ d !! "driver_version" = Some None
     /\ d !! "cuda_version" = Some None
     /\ d !! "gpu_name" = Some None)
  /\ check_driver_compatibility Examples.garbled_world
     = (Examples.garbled_world, Raise (DriverError "Could not determine driver version")).
Proof.
  split.
  - apply (proj1 (check_driver_compatibility_failure_shapes Examples.no_driver_world)).
    vm_compute. reflexivity.
  - apply (proj2 (check_driver_compatibility_failure_shapes Examples.garbled_world)
             "No devices were found" "");
      vm_compute; reflexivity.
Defined.

(** A driver that is found and new enough gives the up-to-date verdict. *)
Example check_driver_compatibility_up_to_date :
  match outcome check_driver_compatibility Examples.missing_world with
  | Return (compatible, message, d) =>
      compatible = true
      /\ message = "Driver 566.03 is up-to-date and supports CUDA 12.9"
      /\ d !! "driver_version" = Some (Some "566.03")
      /\ d !! "cuda_version" = Some (Some "12.7")
  | Raise _ => False
  end.
Proof. vm_compute. repeat split. Qed.

(** ** The file system *)

Section FileSystem.

Variable fs0 : filesystem.

Lemma fs_set_eq p o : fs_set p o fs0 p = o.
Proof. unfold fs_set. case_decide; [reflexivity|contradiction]. Qed.

Lemma fs_set_ne p q o : q <> p -> fs_set p o fs0 q = fs0 q.
Proof. intros H. unfold fs_set. case_decide; [contradiction|reflexivity]. Qed.

Lemma extends_refl : extends fs0 fs0.
Proof. intros p n H. exact H. Qed.

Lemma extends_fs_set p n : fs0 p = None -> extends fs0 (fs_set p (Some n) fs0).
Proof.
  intros Hp q m Hq. rewrite fs_set_ne; [exact Hq|]. intros ->. congruence.
Qed.

Lemma stat_absent p : fs0 p = None -> stat fs0 p = inl ENOENT.
Proof. unfold stat. simpl. intros ->. reflexivity. Qed.

Lemma is_dir_absent p : fs0 p = None -> is_dir fs0 p = false.
Proof. intros H. unfold is_dir. rewrite (stat_absent _ H). reflexivity. Qed.

Lemma is_dir_node p : fs0 p = Some Dir -> is_dir fs0 p = true.
Proof. intros H. unfold is_dir, stat. simpl. rewrite H. reflexivity. Qed.

Lemma dir_at_absent n p : fs0 p = None -> dir_at n fs0 p = None.
Proof. intros H. destruct n; simpl; rewrite H; reflexivity. Qed.

(** Where [dir_at] ends, a directory is stored. *)
Lemma dir_at_dir n : forall p d, dir_at n fs0 p = Some d -> fs0 d = Some Dir.
Proof.
  induction n as [|n IH]; intros p d; simpl.
  - destruct (fs0 p) as [[| |]|] eqn:E; try discriminate. intros [= <-]. exact E.
  - destruct (fs0 p) as [[|t|]|] eqn:E; try discriminate.
    + apply IH.
    + intros [= <-]. exact E.
Qed.

Lemma is_prefix_same_length (p q : path) :
  is_prefix p q = true -> length p = length q -> p = q.
Proof.
  unfold is_prefix. intros H Hlen. apply bool_decide_eq_true in H.
  destruct H as [k ->]. rewrite length_app in Hlen.
  destruct k; [rewrite app_nil_r; reflexivity|simpl in Hlen; lia].
Qed.

Lemma is_prefix_refl (p : path) : is_prefix p p = true.
Proof. unfold is_prefix. apply bool_decide_eq_true. reflexivity. Qed.

(** What [rename] leaves where. *)
Lemma rename_dst (src dst : path) : rename fs0 src dst dst = fs0 src.
Proof.
  unfold rename. rewrite is_prefix_refl, drop_all, app_nil_r. reflexivity.
Qed.

Lemma rename_src (src dst : path) :
  length src = length dst -> src <> dst -> rename fs0 src dst src = None.
Proof.
  intros Hlen Hne. unfold rename.
  destruct (is_prefix dst src) eqn:E.
  - apply is_prefix_same_length in E; [congruence|lia].
  - rewrite is_prefix_refl. reflexivity.
Qed.

Lemma rename_other (src dst p : path) :
  length p = length src -> length p = length dst -> p <> src -> p <> dst ->
  rename fs0 src dst p = fs0 p.
Proof.
  intros H1 H2 N1 N2. unfold rename.
  destruct (is_prefix dst p) eqn:E1.
  { apply is_prefix_same_length in E1; [congruence|lia]. }
  destruct (is_prefix src p) eqn:E2.
  { apply is_prefix_same_length in E2; [congruence|lia]. }
  reflexivity.
Qed.

Lemma rename_shorter (src dst p : path) :
  (length p < length src)%nat -> (length p < length dst)%nat -> rename fs0 src dst p = fs0 p.
Proof.
  intros H1 H2. unfold rename, is_prefix.
  rewrite !bool_decide_eq_false_2; [reflexivity| |].
  - intros [k ->]. rewrite length_app in H1. lia.
  - intros [k ->]. rewrite length_app in H2. lia.
Qed.

(** The commands, when they succeed. *)
Lemma mv_onto src dst fs' :
  mv fs0 src dst = Some fs' -> fs0 dst = None ->
  fs' = rename fs0 src dst /\ is_dir fs0 (parent dst) = true.
Proof.
  unfold mv, mv_dest, lstat. intros H Hd. rewrite (dir_at_absent _ _ Hd), Hd in H.
  destruct (fs0 src); [|discriminate].
  destruct (is_prefix src dst); [discriminate|].
  destruct (is_dir fs0 (parent dst)); [|discriminate].
  simpl in H. injection H as <-. split; reflexivity.
Qed.

Lemma mv_rename src dst fs' :
  mv fs0 src dst = Some fs' ->
  fs' = rename fs0 src (mv_dest fs0 src dst) /\ is_prefix src (mv_dest fs0 src dst) = false.
Proof.
  unfold mv, lstat. intros H.
  destruct (fs0 src); [|discriminate]. cbv zeta in H.
  destruct (is_prefix src (mv_dest fs0 src dst)); [discriminate|].
  destruct (is_dir fs0 (parent (mv_dest fs0 src dst))); [|discriminate]. simpl in H.
  destruct (fs0 (mv_dest fs0 src dst)) as [[]|]; split; congruence.
Qed.

Lemma mv_src_gone src dst fs' :
  mv fs0 src dst = Some fs' -> length src = length dst -> src <> dst ->
  name src ∉ removelast src -> fs' src = None.
Proof.
  intros H Hlen Hne Hname. apply mv_rename in H as [-> Hp].
  unfold rename. rewrite is_prefix_refl.
  replace (is_prefix (mv_dest fs0 src dst) src) with false; [reflexivity|].
  symmetry. apply bool_decide_eq_false_2. intros [k Hk].
  unfold is_prefix in Hp. apply bool_decide_eq_false in Hp.
  unfold mv_dest in *. destruct (dir_at MAXSYMLINKS fs0 dst) as [d|].
  - destruct k as [|c k] using rev_ind.
    + rewrite app_nil_r in Hk. apply Hp. rewrite <- Hk. reflexivity.
    + apply Hname. rewrite Hk at 2. rewrite !app_assoc, removelast_last.
      apply elem_of_app. left. apply elem_of_app. right. apply list_elem_of_singleton.
      reflexivity.
  - apply Hne. rewrite Hk, length_app in Hlen.
    destruct k; [rewrite app_nil_r in Hk; exact Hk|simpl in Hlen; lia].
Qed.

Lemma ln_sf_absent target link fs' :
  ln_sf fs0 target link = Some fs' -> fs0 link = None ->
  fs' = fs_set link (Some (Symlink target)) fs0.
Proof.
  unfold ln_sf. intros H Hl. rewrite (dir_at_absent _ _ Hl) in H.
  destruct (is_dir fs0 (parent link)); [|discriminate]. injection H as <-. reflexivity.
Qed.

(** A link made where nothing is stored changes that one name. *)
Lemma ln_sf_other target link fs' p :
  ln_sf fs0 target link = Some fs' -> fs0 link = None -> p <> link -> fs' p = fs0 p.
Proof.
  intros H Hl Hne. rewrite (ln_sf_absent _ _ _ H Hl). apply fs_set_ne, Hne.
Qed.

Lemma rm_spec p fs' : rm fs0 p = Some fs' -> fs' = fs_set p None fs0.
Proof.
  unfold rm, lstat. destruct (fs0 p) as [[]|]; intros [= <-] || discriminate; reflexivity.
Qed.

End FileSystem.

Lemma extends_trans fs1 fs2 fs3 : extends fs1 fs2 -> extends fs2 fs3 -> extends fs1 fs3.
Proof. intros H1 H2 p n H. apply H2, H1, H. Qed.

(** Nodes that stay keep what [stat] finds. *)
Lemma follow_extends n fs1 fs2 p nd :
  extends fs1 fs2 -> follow n fs1 p = inr nd -> follow n fs2 p = inr nd.
Proof.
  intros Hext. revert p. induction n as [|n IH]; intros p; simpl.
  - destruct (fs1 p) as [[f|t|]|] eqn:E; try discriminate;
      rewrite (Hext _ _ E); trivial.
  - destruct (fs1 p) as [[f|t|]|] eqn:E; try discriminate;
      rewrite (Hext _ _ E); auto.
Qed.

(** [mkdir -p] only adds directories, and none below its argument. *)
Lemma mkdir_p_extends todo : forall fs1 done fs2,
  mkdir_p fs1 done todo = Some fs2 -> extends fs1 fs2.
Proof.
  induction todo as [|c todo IH]; intros fs1 done fs2; simpl.
  - intros [= ->]. apply extends_refl.
  - unfold lstat. destruct (fs1 (done ++ [c])%list) eqn:E.
    + destruct (is_dir fs1 _); [|discriminate]. apply IH.
    + intros H. apply IH in H. eapply extends_trans; [|exact H].
      apply extends_fs_set, E.
Qed.

Lemma mkdir_p_longer todo : forall fs1 done fs2 p,
  mkdir_p fs1 done todo = Some fs2 ->
  (length done + length todo < length p)%nat -> fs2 p = fs1 p.
Proof.
  induction todo as [|c todo IH]; intros fs1 done fs2 p; simpl.
  - intros [= ->]. reflexivity.
  - unfold lstat. intros H Hlen. destruct (fs1 (done ++ [c])%list) eqn:E.
    + destruct (is_dir fs1 _); [|discriminate].
      apply (IH _ _ _ p) in H; [exact H|]. rewrite length_app. simpl. lia.
    + apply (IH _ _ _ p) in H; [|rewrite length_app; simpl; lia].
      rewrite H. apply fs_set_ne. intros ->.
      rewrite length_app in Hlen. simpl in Hlen. lia.
Qed.

Lemma fs_with_fs w fs' : fs (with_fs w fs') = fs'.
Proof. reflexivity. Qed.

(** *** What the user sees *)

Lemma lstat_as_user_node w p n :
  lstat_as_user w p = inr n <-> denied w p = false /\ fs w p = Some n.
Proof.
  unfold lstat_as_user. destruct (denied w p).
  - split; [discriminate|intros [? _]; discriminate].
  - destruct (fs w p); split; try discriminate.
    + intros [= ->]. split; reflexivity.
    + intros [_ [= ->]]. reflexivity.
    + intros [_ ?]. discriminate.
Qed.

Lemma lstat_as_user_denied w p : denied w p = true -> lstat_as_user w p = inl EACCES.
Proof. unfold lstat_as_user. intros ->. reflexivity. Qed.

Lemma lstat_as_user_allowed w p :
  denied w p = false ->
  lstat_as_user w p = match fs w p with Some n => inr n | None => inl ENOENT end.
Proof. unfold lstat_as_user. intros ->. reflexivity. Qed.

(** A call of [exists()] or [is_symlink()] that returns was allowed to
    look at the name. *)
Lemma Path_exists_returns w p b : Path_exists w p = Return b -> denied w p = false.
Proof.
  unfold Path_exists, stat_as_user. simpl. unfold lstat_as_user.
  destruct (denied w p); [discriminate|reflexivity].
Qed.

Lemma Path_is_symlink_returns w p b :
  Path_is_symlink w p = Return b ->
  denied w p = false
  /\ b = match fs w p with Some (Symlink _) => true | _ => false end.
Proof.
  unfold Path_is_symlink, lstat_as_user.
  destruct (denied w p); [discriminate|].
  destruct (fs w p) as [[| |]|]; intros [= <-]; split; reflexivity.
Qed.

Lemma Path_is_symlink_allowed w p :
  denied w p = false ->
  Path_is_symlink w p = Return match fs w p with Some (Symlink _) => true | _ => false end.
Proof.
  intros H. unfold Path_is_symlink. rewrite (lstat_as_user_allowed _ _ H).
  destruct (fs w p) as [[| |]|]; reflexivity.
Qed.

Lemma Path_exists_denied w p : denied w p = true -> Path_exists w p = Raise (OSError EACCES).
Proof.
  intros H. unfold Path_exists, stat_as_user. simpl.
  rewrite (lstat_as_user_denied _ _ H). reflexivity.
Qed.

Lemma Path_is_symlink_denied w p :
  denied w p = true -> Path_is_symlink w p = Raise (OSError EACCES).
Proof. intros H. unfold Path_is_symlink. rewrite (lstat_as_user_denied _ _ H). reflexivity. Qed.

(** The two calls raise or return together. *)
Lemma Path_is_symlink_after_exists w p b :
  Path_exists w p = Return b -> exists l, Path_is_symlink w p = Return l.
Proof.
  intros H. apply Path_exists_returns in H. rewrite (Path_is_symlink_allowed _ _ H). eauto.
Qed.

Lemma Path_exists_absent w p :
  denied w p = false -> fs w p = None -> Path_exists w p = Return false.
Proof.
  intros Ha H. unfold Path_exists, stat_as_user. simpl.
  rewrite (lstat_as_user_allowed _ _ Ha), H. reflexivity.
Qed.

Lemma Path_exists_node w p n :
  denied w p = false -> fs w p = Some n -> (forall t, n <> Symlink t) ->
  Path_exists w p = Return true.
Proof.
  intros Ha H Hn. unfold Path_exists, stat_as_user. simpl.
  rewrite (lstat_as_user_allowed _ _ Ha), H.
  destruct n; try reflexivity. exfalso. eapply Hn. reflexivity.
Qed.

Lemma Path_is_symlink_node w p n :
  denied w p = false -> fs w p = Some n -> (forall t, n <> Symlink t) ->
  Path_is_symlink w p = Return false.
Proof.
  intros Ha H Hn. rewrite (Path_is_symlink_allowed _ _ Ha), H.
  destruct n; try reflexivity. exfalso. eapply Hn. reflexivity.
Qed.

(** A path that exists for the user and is no link holds a node. *)
Lemma Path_exists_regular w p :
  Path_exists w p = Return true -> Path_is_symlink w p = Return false ->
  denied w p = false /\ exists n, fs w p = Some n /\ forall t, n <> Symlink t.
Proof.
  intros He Hs. pose proof (Path_exists_returns _ _ _ He) as Ha. split; [exact Ha|].
  apply Path_is_symlink_returns in Hs as [_ Hs].
  unfold Path_exists, stat_as_user in He. simpl in He.
  rewrite (lstat_as_user_allowed _ _ Ha) in He.
  destruct (fs w p) as [[f|t|]|]; try discriminate; eexists; (split; [reflexivity|discriminate]).
Qed.

(** What the user finds stays when nodes are added. *)
Lemma follow_as_user_extends n w w' p nd :
  extends (fs w) (fs w') -> denied w' = denied w ->
  follow_as_user n w p = inr nd -> follow_as_user n w' p = inr nd.
Proof.
  intros Hext Hd. revert p. induction n as [|n IH]; intros p; simpl;
    unfold lstat_as_user; rewrite Hd; destruct (denied w p); try discriminate;
    destruct (fs w p) as [[f|t|]|] eqn:E; try discriminate;
    rewrite (Hext _ _ E); auto.
Qed.

Lemma Path_exists_extends w w' p :
  extends (fs w) (fs w') -> denied w' = denied w ->
  Path_exists w p = Return true -> Path_exists w' p = Return true.
Proof.
  unfold Path_exists, stat_as_user. intros Hext Hd.
  destruct (follow_as_user MAXSYMLINKS w p) eqn:E.
  - destruct (_ignore_error e); discriminate.
  - rewrite (follow_as_user_extends _ _ _ _ _ Hext Hd E). reflexivity.
Qed.

(** The paths the repair handles. *)
Lemma backup_path_length d : length (backup_path_at d) = length WSL_NVIDIA_SMI_PATH.
Proof. reflexivity. Qed.

Lemma backup_path_fresh d : backup_path_at d <> WSL_NVIDIA_SMI_PATH.
Proof. unfold backup_path_at. cbn. intros H. discriminate H. Qed.

Lemma windows_path_fresh d : WINDOWS_NVIDIA_SMI_PATH <> backup_path_at d.
Proof. unfold backup_path_at. cbn. intros H. discriminate H. Qed.

(** No argument that the repair hands to a command holds a NUL byte: the
    paths are constants, and the time stamp of a backup is made of digits and
    an underscore. *)
Lemma has_nul_String c s : has_nul (String c s) = Ascii.eqb "000"%char c || has_nul s.
Proof. reflexivity. Qed.

Lemma has_nul_app s t : has_nul (s +:+ t) = has_nul s || has_nul t.
Proof.
  induction s as [|c s IH]; [reflexivity|].
  change (String c s +:+ t) with (String c (s +:+ t)).
  rewrite !has_nul_String, IH. apply orb_assoc.
Qed.

Lemma pretty_N_go_no_nul x : forall s, has_nul s = false -> has_nul (pretty_N_go x s) = false.
Proof.
  induction (N.lt_wf_0 x) as [x _ IH]. intros s Hs.
  assert (x = 0 \/ 0 < x)%N as [->|Hx] by lia.
  - rewrite pretty_N_go_0. exact Hs.
  - rewrite pretty_N_go_step by exact Hx. apply IH.
    + apply N.div_lt; [exact Hx|reflexivity].
    + rewrite has_nul_String, Hs. unfold pretty_N_char.
      repeat case_match; reflexivity.
Qed.

Lemma pretty_nat_no_nul (n : nat) : has_nul (pretty n) = false.
Proof.
  unfold pretty, pretty_nat, pretty, pretty_N. case_decide; [reflexivity|].
  apply pretty_N_go_no_nul. reflexivity.
Qed.

Lemma zeros_no_nul k : has_nul (string_of_list_ascii (replicate k "0"%char)) = false.
Proof. induction k as [|k IH]; [reflexivity|]. simpl replicate. exact IH. Qed.

Lemma pad_no_nul k n : has_nul (pad k n) = false.
Proof. unfold pad. cbv zeta. rewrite has_nul_app, zeros_no_nul, pretty_nat_no_nul. reflexivity. Qed.

Lemma strftime_no_nul d : has_nul (strftime d) = false.
Proof. unfold strftime. rewrite !has_nul_app, !pad_no_nul. reflexivity. Qed.

Lemma backup_path_no_nul d : has_nul (Path_str (backup_path_at d)) = false.
Proof.
  unfold backup_path_at.
  change (Path_str _) with ("/usr/lib/wsl/lib/nvidia-smi.old." +:+ strftime d).
  rewrite has_nul_app, strftime_no_nul. reflexivity.
Qed.

Lemma ln_command_no_nul :
  existsb has_nul
    (map arg_str [Word "sudo"; Word "ln"; Word "-sf"; PathArg WINDOWS_NVIDIA_SMI_PATH;
                  PathArg WSL_NVIDIA_SMI_PATH]) = false.
Proof. reflexivity. Qed.

Lemma mv_command_no_nul d :
  existsb has_nul
    (map arg_str [Word "sudo"; Word "mv"; PathArg WSL_NVIDIA_SMI_PATH;
                  PathArg (backup_path_at d)]) = false.
Proof. cbn [map arg_str existsb]. rewrite backup_path_no_nul. reflexivity. Qed.

Lemma entry_length (x : string) : length (entry x) = length WSL_NVIDIA_SMI_PATH.
Proof. reflexivity. Qed.

Lemma entry_other (x : string) : x <> name WSL_NVIDIA_SMI_PATH -> entry x <> WSL_NVIDIA_SMI_PATH.
Proof. intros Hx H. apply Hx. cbn in H. injection H as ->. reflexivity. Qed.

Lemma mkdir_p_parent_entries fs1 fs2 (p : path) :
  mkdir_p fs1 [] (parent WSL_NVIDIA_SMI_PATH) = Some fs2 ->
  length p = length WSL_NVIDIA_SMI_PATH -> fs2 p = fs1 p.
Proof.
  intros H Hlen. eapply mkdir_p_longer; [exact H|]. rewrite Hlen. simpl. lia.
Qed.

(** ** Probes and privileged commands *)

(** The probe always answers and leaves the world as it is. *)
Lemma test_nvidia_smi_total p w : exists b, test_nvidia_smi p w = (w, Return b).
Proof.
  unfold test_nvidia_smi.
  set (command := match p with Some q => [PathArg q] | None => [Word "nvidia-smi"] end).
  assert (Hw : after (run_command command (Some NVIDIA_SMI_TIMEOUT) false) w = w).
  { destruct p; apply run_command_spawn; reflexivity. }
  unfold try_except, bindM.
  rewrite (run_pair (run_command command _ _) w), Hw.
  destruct (outcome _ w) as [[[rc out] err]|e]; unfold ret; eauto.
Qed.

Lemma test_nvidia_smi_outcome p w :
  test_nvidia_smi p w = (w, outcome (test_nvidia_smi p) w).
Proof.
  destruct (test_nvidia_smi_total p w) as [b Hb]. unfold outcome. rewrite Hb. reflexivity.
Qed.

(** [get_nvidia_smi_target] reads only; it raises what [is_symlink()]
    raises and nothing else. *)
Lemma get_nvidia_smi_target_run w :
  get_nvidia_smi_target w
  = (w, bind (Path_is_symlink w WSL_NVIDIA_SMI_PATH) (fun symlink =>
          if symlink then
            Return match Path_resolve w WSL_NVIDIA_SMI_PATH with
                   | Return target => Some target
                   | Raise _ => None
                   end
          else Return None)).
Proof.
  unfold get_nvidia_smi_target, is_nvidia_smi_symlink. rewrite bindM_lift.
  destruct (Path_is_symlink w WSL_NVIDIA_SMI_PATH) as [[|]|e]; cbn [bind].
  2,3: reflexivity.
  unfold try_except. rewrite bindM_lift.
  assert (He : forall e, Path_resolve w WSL_NVIDIA_SMI_PATH = Raise e -> is_RuntimeError e = true).
  { intros e. unfold Path_resolve. change (existsb has_nul WSL_NVIDIA_SMI_PATH) with false.
    cbv iota. destruct (realpath _ _ _ _); [discriminate|]. intros [= <-]. reflexivity. }
  destruct (Path_resolve w WSL_NVIDIA_SMI_PATH) as [target|e]; [reflexivity|].
  rewrite (He e eq_refl), orb_true_r. reflexivity.
Qed.

Lemma get_nvidia_smi_target_total w b :
  Path_is_symlink w WSL_NVIDIA_SMI_PATH = Return b ->
  exists t, get_nvidia_smi_target w = (w, Return t).
Proof.
  intros H. rewrite get_nvidia_smi_target_run, H. cbn [bind]. destruct b; eauto.
Qed.

(** Entries of PATH that do not hold the program are passed over. *)
Lemma execvp_skip w prog args d rest : forall dirs saved last,
  (forall d', d' ∈ dirs -> execve w (d' ++ [prog])%list args = inl ENOENT) ->
  exists last',
    execvp w (dirs ++ d :: rest)%list prog args saved last
    = execvp w (d :: rest) prog args saved last'.
Proof.
  induction dirs as [|d0 dirs IH]; intros saved last Hd; [eexists; reflexivity|].
  cbn [app execvp]. rewrite (Hd d0 (list_elem_of_here _ _)).
  apply IH. intros d' Hd'. apply Hd. apply list_elem_of_further, Hd'.
Qed.

Lemma execve_absent w p args :
  denied w p = false -> fs w p = None -> execve w p args = inl ENOENT.
Proof.
  intros Ha H. unfold execve, stat_as_user. simpl.
  rewrite (lstat_as_user_allowed _ _ Ha), H. reflexivity.
Qed.

(** What a privileged command can do: either it exits with status 0 after
    changing the file system as the command says, or the world is unchanged
    and the call reports a non-zero status, raises [SubprocessError], or
    raises the error with which sudo could not be started. *)
Lemma run_command_sudo cmd timeout check w w' r :
  run_command (Word "sudo" :: cmd) timeout check w = (w', r) ->
  (exists fs', coreutils (fs w) cmd = Some fs' /\ w' = with_fs w fs'
               /\ r = Return (0%Z, "", ""))
  \/ (w' = w
      /\ ((exists rc out err, r = Return (rc, out, err) /\ rc <> 0%Z /\ check = false)
          \/ (exists msg code, r = Raise (SubprocessError msg code))
          \/ exists e, r = Raise e /\ wrapped e = false /\ is_SubprocessError e = false)).
Proof.
  unfold run_command, try_except, bindM, subprocess_run.
  destruct (existsb has_nul _).
  { intros [= <- <-]. right. split; [reflexivity|]. right. right. eauto. }
  simpl is_sudo. cbv iota.
  destruct (sudoers w cmd) as [e|code err|secs complaint].
  - destruct e; intros [= <- <-]; right; (split; [reflexivity|]); right;
      solve [left; eauto | right; eexists; repeat split].
  - simpl. destruct check; simpl; intros [= <- <-]; right; split; try reflexivity.
    + right. left. eauto.
    + left. do 3 eexists. repeat split. discriminate.
  - destruct (timed_out timeout secs).
    + intros [= <- <-]. right. split; [reflexivity|]. right. left. eauto.
    + destruct (coreutils (fs w) cmd) as [fs'|].
      * simpl. rewrite andb_false_r. intros [= <- <-]. left. eauto.
      * simpl. destruct check; simpl; intros [= <- <-]; right; split; try reflexivity.
        -- right. left. eauto.
        -- left. do 3 eexists. repeat split. discriminate.
Qed.

Lemma run_command_sudo_granted cmd timeout secs complaint fs' w :
  existsb has_nul (map arg_str (Word "sudo" :: cmd)) = false ->
  sudoers w cmd = Granted secs complaint -> timed_out timeout secs = false ->
  coreutils (fs w) cmd = Some fs' ->
  run_command (Word "sudo" :: cmd) timeout false w = (with_fs w fs', Return (0%Z, "", "")).
Proof.
  intros Hn Hs Ht Hc. unfold run_command, try_except, bindM, subprocess_run.
  rewrite Hn. simpl is_sudo. cbv iota. rewrite Hs, Ht, Hc. reflexivity.
Qed.

(** A privileged command wrapped the way the package wraps it: status 0
    yields [v]; any other status, and any [SubprocessError], is turned into
    an exception.  The call then either succeeds, changing the file system as
    the command says, or raises and leaves the world as it was. *)
Lemma guarded_sudo {A} cmd timeout (k : Z * string * string -> M A)
    (handler : exn -> option (M A)) (v : A) w w' r :
  k (0%Z, "", "") = ret v ->
  (forall rc out err, rc <> 0%Z -> exists e, k (rc, out, err) = raise e /\ handler e = None) ->
  (forall e, handler e = None \/ exists e', handler e = Some (raise e')) ->
  try_except (bindM (run_command (Word "sudo" :: cmd) timeout false) k) handler w = (w', r) ->
  (exists fs', coreutils (fs w) cmd = Some fs' /\ w' = with_fs w fs' /\ r = Return v)
  \/ (w' = w /\ exists e, r = Raise e).
Proof.
  intros Hok Hfail Hh. unfold try_except, bindM.
  destruct (run_command (Word "sudo" :: cmd) timeout false w) as [w1 r1] eqn:E.
  apply run_command_sudo in E
    as [(fs' & Hc & -> & ->)
       | [-> [(rc & out & err & -> & Hrc & _) | [(msg & code & ->) | (e0 & -> & _)]]]].
  - rewrite Hok. unfold ret. intros [= <- <-]. left. eauto.
  - destruct (Hfail rc out err Hrc) as (e & -> & He). unfold raise. rewrite He.
    intros [= <- <-]. right. eauto.
  - destruct (Hh (SubprocessError msg code)) as [-> | [e' ->]]; unfold raise;
      intros [= <- <-]; right; eauto.
  - destruct (Hh e0) as [-> | [e' ->]]; unfold raise;
      intros [= <- <-]; right; eauto.
Qed.

Ltac guarded_sudo_side :=
  first
    [ reflexivity
    | let Hrc := fresh "Hrc" in
      intros ? ? ? Hrc; cbv beta iota;
      apply Z.eqb_neq in Hrc; rewrite Hrc; cbn [negb]; eexists; split; reflexivity
    | let e := fresh "e" in
      intros e; destruct (is_SubprocessError e);
      [right; eexists; reflexivity | left; reflexivity] ].

(** ** The steps of the repair *)

Lemma create_nvidia_smi_symlink_spec w w' r :
  create_nvidia_smi_symlink w = (w', r) ->
  exists fs1,
    (fs1 = fs w \/ mkdir_p (fs w) [] (parent WSL_NVIDIA_SMI_PATH) = Some fs1)
    /\ ((exists fs2, r = Return true
                     /\ ln_sf fs1 WINDOWS_NVIDIA_SMI_PATH WSL_NVIDIA_SMI_PATH = Some fs2
                     /\ w' = with_fs w fs2)
        \/ ((exists e, r = Raise e) /\ (w' = w \/ w' = with_fs w fs1))).
Proof.
  unfold create_nvidia_smi_symlink. rewrite bindM_lift.
  destruct (Path_exists w WINDOWS_NVIDIA_SMI_PATH) as [[|]|e0]; mred.
  2,3: intros [= <- <-]; exists (fs w); (split; [left; reflexivity|]); right; eauto.
  rewrite bindM_lift.
  destruct (Path_exists w (parent WSL_NVIDIA_SMI_PATH)) as [[|]|e0]; mred.
  3:{ intros [= <- <-]. exists (fs w). split; [left; reflexivity|]. right. eauto. }
  - unfold bindM at 1. unfold ret at 1. intros H.
    eapply guarded_sudo in H; [|guarded_sudo_side..].
    exists (fs w). split; [left; reflexivity|].
    destruct H as [(fs2 & Hc & -> & ->) | (-> & e & ->)]; [left|right]; eauto.
  - unfold bindM at 1.
    destruct (try_except _ _ w) as [w1 r1] eqn:E.
    eapply guarded_sudo in E; [|guarded_sudo_side..].
    destruct E as [(fs1 & Hc & -> & ->) | (-> & e & ->)].
    + intros H. eapply guarded_sudo in H; [|guarded_sudo_side..].
      exists fs1. split; [right; exact Hc|].
      destruct H as [(fs2 & Hc2 & -> & ->) | (-> & e & ->)]; [left|right]; eauto.
    + intros [= <- <-]. exists (fs w). split; [left; reflexivity|]. right. eauto.
Qed.

(** Link creation where the local path is free touches no other entry of
    the directory. *)
Lemma create_same_entries w (p : path) :
  fs w WSL_NVIDIA_SMI_PATH = None ->
  length p = length WSL_NVIDIA_SMI_PATH -> p <> WSL_NVIDIA_SMI_PATH ->
  fs (after create_nvidia_smi_symlink w) p = fs w p.
Proof.
  intros Hfree Hlen Hne.
  destruct (create_nvidia_smi_symlink_spec w _ _ (run_pair _ w))
    as (fs1 & H1 & [(fs2 & _ & Hln & ->) | (_ & [-> | ->])]).
  - rewrite fs_with_fs.
    assert (Hfree1 : fs1 WSL_NVIDIA_SMI_PATH = None).
    { destruct H1 as [-> | H1]; [exact Hfree|].
      rewrite (mkdir_p_parent_entries _ _ _ H1 eq_refl). exact Hfree. }
    rewrite (ln_sf_other _ _ _ _ p Hln Hfree1 Hne).
    destruct H1 as [-> | H1]; [reflexivity|]. eapply mkdir_p_parent_entries; eassumption.
  - reflexivity.
  - rewrite fs_with_fs.
    destruct H1 as [-> | H1]; [reflexivity|]. eapply mkdir_p_parent_entries; eassumption.
Qed.

(** Link creation where nothing is stored under the local path. *)
Lemma create_from_absent w :
  fs w WSL_NVIDIA_SMI_PATH = None ->
  outcome create_nvidia_smi_symlink w = Return true ->
  exists fs1,
    extends (fs w) fs1 /\ fs1 WSL_NVIDIA_SMI_PATH = None
    /\ (forall p : path, length p = length WSL_NVIDIA_SMI_PATH -> fs1 p = fs w p)
    /\ after create_nvidia_smi_symlink w
       = with_fs w (fs_set WSL_NVIDIA_SMI_PATH (Some (Symlink WINDOWS_NVIDIA_SMI_PATH)) fs1).
Proof.
  intros Habs Hout.
  destruct (create_nvidia_smi_symlink_spec w _ _ (run_pair _ w))
    as (fs1 & H1 & [(fs2 & _ & Hln & Hw) | ((e & He) & _)]); [|congruence].
  exists fs1.
  assert (Hlen : forall p : path, length p = length WSL_NVIDIA_SMI_PATH -> fs1 p = fs w p).
  { intros p Hp. destruct H1 as [-> | H1]; [reflexivity|].
    eapply mkdir_p_parent_entries; eassumption. }
  assert (Hext : extends (fs w) fs1).
  { destruct H1 as [-> | H1]; [apply extends_refl | eapply mkdir_p_extends; exact H1]. }
  assert (Habs1 : fs1 WSL_NVIDIA_SMI_PATH = None) by (rewrite Hlen; auto).
  repeat split; auto.
  rewrite Hw. f_equal. eapply ln_sf_absent; eassumption.
Qed.

Lemma backup_nvidia_smi_spec w w' r :
  backup_nvidia_smi w = (w', r) ->
  Path_exists w WSL_NVIDIA_SMI_PATH = Return true ->
  Path_is_symlink w WSL_NVIDIA_SMI_PATH = Return false ->
  (outcome (validate_path_safe (backup_path_at (now w)) (Some (parent WSL_NVIDIA_SMI_PATH))) w
   = Return false
   /\ w' = w /\ r = Raise (NvidiaSmiError "Invalid backup path"))
  \/ (exists fs', mv (fs w) WSL_NVIDIA_SMI_PATH (backup_path_at (now w)) = Some fs'
                  /\ w' = with_fs w fs' /\ r = Return (Some (backup_path_at (now w))))
  \/ (w' = w /\ exists e, r = Raise e).
Proof.
  intros H Hex Hsl. unfold backup_nvidia_smi, is_nvidia_smi_symlink in H.
  rewrite bindM_lift, Hex in H. cbn [negb] in H. cbv beta iota in H.
  rewrite bindM_lift, Hsl in H. cbv beta iota in H.
  rewrite bindM_ask in H. cbv beta in H.
  rewrite (bindM_return _ _ _ _ _ (validate_path_safe_spec _ _ w)) in H.
  unfold outcome. rewrite validate_path_safe_spec. simpl snd.
  destruct (match Path_resolve w (backup_path_at (now w)) with Return _ => _ | Raise _ => _ end).
  - cbn [negb] in H. cbv beta iota in H.
    eapply guarded_sudo in H; [|guarded_sudo_side..].
    destruct H as [(fs' & Hc & -> & ->) | (-> & e & ->)].
    + right. left. eauto.
    + right. right. eauto.
  - cbn [negb] in H. cbv beta iota in H. injection H as <- <-. left. auto.
Qed.

(** The inspection, state by state. *)
Lemma inspect_denied w :
  denied w WSL_NVIDIA_SMI_PATH = true -> inspect_nvidia_smi w = (w, Raise (OSError EACCES)).
Proof.
  intros H. unfold inspect_nvidia_smi, is_nvidia_smi_symlink.
  rewrite bindM_lift, (Path_is_symlink_denied _ _ H). reflexivity.
Qed.

Lemma inspect_missing w :
  denied w WSL_NVIDIA_SMI_PATH = false -> fs w WSL_NVIDIA_SMI_PATH = None ->
  inspect_nvidia_smi w = (w, Return (inr [])).
Proof.
  intros Ha H. unfold inspect_nvidia_smi, is_nvidia_smi_symlink.
  rewrite bindM_lift, (Path_is_symlink_allowed _ _ Ha), H. cbv beta iota.
  unfold bindM at 1. unfold ret at 1. cbv beta iota.
  rewrite bindM_lift, (Path_exists_absent _ _ Ha H). reflexivity.
Qed.

Lemma inspect_regular w n :
  denied w WSL_NVIDIA_SMI_PATH = false ->
  fs w WSL_NVIDIA_SMI_PATH = Some n -> (forall t, n <> Symlink t) ->
  inspect_nvidia_smi w
  = bindM (test_nvidia_smi (Some WSL_NVIDIA_SMI_PATH))
      (fun working =>
         if working then ret (inl (true, "nvidia-smi already working, no fix needed"))
         else bindM backup_nvidia_smi
                (fun backup_path =>
                   ret (inr ["Backed up old nvidia-smi to "
                             +:+ str_opt (Path_str <$> backup_path)]))) w.
Proof.
  intros Ha H Hn. unfold inspect_nvidia_smi, is_nvidia_smi_symlink.
  rewrite bindM_lift, (Path_is_symlink_node _ _ _ Ha H Hn). cbv beta iota.
  unfold bindM at 1. unfold ret at 1. cbv beta iota.
  rewrite bindM_lift, (Path_exists_node _ _ _ Ha H Hn). cbv beta iota.
  unfold bindM at 1. rewrite bindM_lift, (Path_is_symlink_node _ _ _ Ha H Hn).
  reflexivity.
Qed.

Lemma inspect_symlink w t w' r :
  denied w WSL_NVIDIA_SMI_PATH = false ->
  fs w WSL_NVIDIA_SMI_PATH = Some (Symlink t) ->
  inspect_nvidia_smi w = (w', r) ->
  (w' = w /\ ((exists msg, r = Return (inl (true, msg))) \/ exists e, r = Raise e))
  \/ (w' = with_fs w (fs_set WSL_NVIDIA_SMI_PATH None (fs w)) /\ r = Return (inr [])).
Proof.
  intros Ha H. unfold inspect_nvidia_smi, is_nvidia_smi_symlink.
  pose proof (Path_is_symlink_allowed _ _ Ha) as Hs. rewrite H in Hs.
  rewrite bindM_lift, Hs. cbv beta iota.
  destruct (get_nvidia_smi_target_total w _ Hs) as [target Ht].
  unfold bindM at 1. unfold bindM at 1. rewrite Ht.
  unfold bindM at 1. rewrite test_nvidia_smi_outcome.
  destruct (outcome (test_nvidia_smi None) w) as [[|]|e].
  - unfold ret at 1. unfold ret. intros [= <- <-]. left. split; [reflexivity|]. left. eauto.
  - unfold try_except, bindM at 1.
    destruct (run_command _ _ _ w) as [w1 r1] eqn:E.
    apply run_command_sudo in E
      as [(fs' & Hc & -> & ->)
         | [-> [(rc & out & err & -> & Hrc & [=])
              | [(msg & code & ->) | (e0 & -> & _ & Hns)]]]].
    + apply rm_spec in Hc. subst fs'. unfold ret at 1. cbv beta iota.
      rewrite bindM_lift.
      rewrite Path_exists_absent; [|exact Ha|apply fs_set_eq].
      unfold ret. intros [= <- <-]. right. split; reflexivity.
    + simpl. unfold raise. intros [= <- <-]. left. split; [reflexivity|]. right. eauto.
    + rewrite Hns. intros [= <- <-]. left. split; [reflexivity|]. right. eauto.
  - intros [= <- <-]. left. split; [reflexivity|]. right. eauto.
Qed.

Lemma inspect_symlink_working w t :
  denied w WSL_NVIDIA_SMI_PATH = false ->
  fs w WSL_NVIDIA_SMI_PATH = Some (Symlink t) ->
  outcome (test_nvidia_smi None) w = Return true ->
  exists target,
    inspect_nvidia_smi w
    = (w, Return (inl (true, "nvidia-smi already working (symlink to " +:+ target +:+ ")"))).
Proof.
  intros Ha H Ht. unfold inspect_nvidia_smi, is_nvidia_smi_symlink.
  pose proof (Path_is_symlink_allowed _ _ Ha) as Hs. rewrite H in Hs.
  rewrite bindM_lift, Hs. cbv beta iota.
  destruct (get_nvidia_smi_target_total w _ Hs) as [target Htg].
  unfold bindM at 1. unfold bindM at 1. rewrite Htg.
  unfold bindM at 1. rewrite test_nvidia_smi_outcome, Ht.
  unfold ret at 1. unfold ret. eauto.
Qed.

(** An inspection that returns was allowed to look at the local path. *)
Lemma inspect_returns_allowed w v :
  outcome inspect_nvidia_smi w = Return v -> denied w WSL_NVIDIA_SMI_PATH = false.
Proof.
  intros Hout. destruct (denied w WSL_NVIDIA_SMI_PATH) eqn:Ha; [|reflexivity].
  unfold outcome in Hout. rewrite (inspect_denied w Ha) in Hout. discriminate.
Qed.

(** When the inspection hands over to link creation, nothing is stored
    under the local path any more. *)
Lemma inspect_leaves_nothing w parts :
  outcome inspect_nvidia_smi w = Return (inr parts) ->
  fs (after inspect_nvidia_smi w) WSL_NVIDIA_SMI_PATH = None.
Proof.
  intros Hout. pose proof (inspect_returns_allowed _ _ Hout) as Ha.
  destruct (fs w WSL_NVIDIA_SMI_PATH) as [n|] eqn:E.
  2:{ unfold after. rewrite (inspect_missing w Ha E). exact E. }
  assert (Hlink : forall t, n = Symlink t ->
                            fs (after inspect_nvidia_smi w) WSL_NVIDIA_SMI_PATH = None).
  { intros t ->.
    destruct (inspect_symlink w t _ _ Ha E (run_pair _ w))
      as [(_ & [[m Hm] | [e He]]) | (-> & _)]; try congruence.
    rewrite fs_with_fs. apply fs_set_eq. }
  assert (Hreg : (forall t, n <> Symlink t) ->
                 fs (after inspect_nvidia_smi w) WSL_NVIDIA_SMI_PATH = None).
  { intros Hn. unfold outcome in Hout. unfold after.
    rewrite (inspect_regular w n Ha E Hn) in *.
    unfold bindM at 1 in Hout. unfold bindM at 1.
    rewrite test_nvidia_smi_outcome in *.
    destruct (outcome (test_nvidia_smi (Some WSL_NVIDIA_SMI_PATH)) w) as [[|]|e];
      try discriminate Hout.
    unfold bindM in Hout |- *.
    destruct (backup_nvidia_smi w) as [w1 r1] eqn:Eb.
    apply backup_nvidia_smi_spec in Eb;
      [|eapply Path_exists_node; eassumption|eapply Path_is_symlink_node; eassumption].
    destruct Eb as [(_ & -> & ->) | [(fs' & Hmv & -> & ->) | (-> & e & ->)]];
      try discriminate Hout.
    cbn [fst ret]. rewrite fs_with_fs.
    eapply mv_src_gone; [exact Hmv|reflexivity| |].
    - intros Heq. symmetry in Heq. revert Heq. apply backup_path_fresh.
    - cbn. intros Hin. repeat (apply elem_of_cons in Hin as [Hin|Hin]; [discriminate|]).
      inversion Hin. }
  destruct n as [f|t|]; [apply Hreg; discriminate | eapply Hlink; reflexivity
                        | apply Hreg; discriminate].
Qed.

(** The whole repair, split at the check of the Windows binary. *)
Lemma fix_without_driver w :
  Path_exists w WINDOWS_NVIDIA_SMI_PATH = Return false ->
  fix_nvidia_smi w
  = (w, Raise (NvidiaSmiError
                 "Windows nvidia-smi not found. Please install NVIDIA drivers on Windows first.")).
Proof. intros H. unfold fix_nvidia_smi. rewrite bindM_lift, H. reflexivity. Qed.

(** An exception of the first [exists()] leaves the repair as it is. *)
Lemma fix_unseen_driver w e :
  Path_exists w WINDOWS_NVIDIA_SMI_PATH = Raise e -> fix_nvidia_smi w = (w, Raise e).
Proof. intros H. unfold fix_nvidia_smi. rewrite bindM_lift, H. reflexivity. Qed.

Lemma fix_with_driver w :
  Path_exists w WINDOWS_NVIDIA_SMI_PATH = Return true ->
  fix_nvidia_smi w
  = bindM inspect_nvidia_smi
      (fun inspected =>
         match inspected with
         | inl value => ret value
         | inr message_parts => link_nvidia_smi message_parts
         end) w.
Proof. intros H. unfold fix_nvidia_smi. rewrite bindM_lift, H. reflexivity. Qed.

Lemma fix_needs_driver w v :
  outcome fix_nvidia_smi w = Return v -> Path_exists w WINDOWS_NVIDIA_SMI_PATH = Return true.
Proof.
  intros Hout. destruct (Path_exists w WINDOWS_NVIDIA_SMI_PATH) as [[|]|e] eqn:E; [reflexivity| |].
  - unfold outcome in Hout. rewrite (fix_without_driver w E) in Hout. discriminate.
  - unfold outcome in Hout. rewrite (fix_unseen_driver w e E) in Hout. discriminate.
Qed.

Lemma after_link parts w :
  after (link_nvidia_smi parts) w = after create_nvidia_smi_symlink w.
Proof.
  unfold after at 1. unfold link_nvidia_smi, bindM at 1.
  rewrite (run_pair create_nvidia_smi_symlink w).
  destruct (outcome create_nvidia_smi_symlink w); [|reflexivity].
  unfold bindM. rewrite test_nvidia_smi_outcome.
  destruct (outcome (test_nvidia_smi None) _) as [[|]|]; reflexivity.
Qed.

Lemma link_returns parts w v :
  outcome (link_nvidia_smi parts) w = Return v ->
  outcome create_nvidia_smi_symlink w = Return true.
Proof.
  unfold outcome at 1. unfold link_nvidia_smi, bindM at 1.
  rewrite (run_pair create_nvidia_smi_symlink w).
  destruct (create_nvidia_smi_symlink_spec w _ _ (run_pair _ w))
    as (fs1 & _ & [(fs2 & -> & _) | ((e & ->) & _)]); [reflexivity|discriminate].
Qed.

(** ** The repair engine *)

(** C7. When the Windows nvidia-smi does not exist, [fix_nvidia_smi] raises
    [NvidiaSmiError] "Windows nvidia-smi not found ..." (the
    specification's HostBinaryMissing) at once: the world it leaves is the
    one it was given, so nothing was backed up, removed or linked, whatever
    the state of the local path. *)
Theorem fix_nvidia_smi_host_binary_missing (w : World) :
  Path_exists w WINDOWS_NVIDIA_SMI_PATH = Return false ->
  fix_nvidia_smi w
  = (w, Raise (NvidiaSmiError
                 "Windows nvidia-smi not found. Please install NVIDIA drivers on Windows first.")).
Proof. exact (fix_without_driver w). Qed.

Lemma fix_nvidia_smi_host_binary_missing_witness :
  fix_nvidia_smi Examples.no_driver_world
  = (Examples.no_driver_world,
     Raise (NvidiaSmiError
              "Windows nvidia-smi not found. Please install NVIDIA drivers on Windows first.")).
Proof.
  apply (fix_nvidia_smi_host_binary_missing Examples.no_driver_world).
  vm_compute. reflexivity.
Defined.

(** C3. The backup path is validated against the directory of the local
    nvidia-smi before the move: when it resolves outside the resolved
    directory, [backup_nvidia_smi], and with it the repair of a broken
    regular file, raises [NvidiaSmiError] "Invalid backup path" (the
    specification's UnsafePathError) and leaves the world unchanged, so no
    move was made.  The user is one who can look at the local path. *)
Theorem unsafe_backup_path_raises (w : World) (n : node) (r ra : path) :
  Path_exists w WINDOWS_NVIDIA_SMI_PATH = Return true ->
  denied w WSL_NVIDIA_SMI_PATH = false ->
  fs w WSL_NVIDIA_SMI_PATH = Some n -> (forall t, n <> Symlink t) ->
  outcome (test_nvidia_smi (Some WSL_NVIDIA_SMI_PATH)) w = Return false ->
  Path_resolve w (backup_path_at (now w)) = Return r ->
  Path_resolve w (parent WSL_NVIDIA_SMI_PATH) = Return ra ->
  Path_is_relative_to r ra = false ->
  backup_nvidia_smi w = (w, Raise (NvidiaSmiError "Invalid backup path"))
  /\ fix_nvidia_smi w = (w, Raise (NvidiaSmiError "Invalid backup path")).
Proof.
  intros HH Ha Hn Hns Hprobe Hr Hra Hrel.
  assert (Hb : backup_nvidia_smi w = (w, Raise (NvidiaSmiError "Invalid backup path"))).
  { unfold backup_nvidia_smi, is_nvidia_smi_symlink.
    rewrite bindM_lift, (Path_exists_node _ _ _ Ha Hn Hns). mred.
    rewrite bindM_lift, (Path_is_symlink_node _ _ _ Ha Hn Hns). mred.
    rewrite bindM_ask. cbv beta.
    rewrite (bindM_return _ _ _ _ _ (validate_path_safe_spec _ _ w)).
    rewrite Hr, Hra, Hrel. reflexivity. }
  split; [exact Hb|].
  rewrite (fix_with_driver w HH). unfold bindM at 1.
  rewrite (inspect_regular w n Ha Hn Hns). unfold bindM at 1.
  rewrite test_nvidia_smi_outcome, Hprobe. cbv iota.
  unfold bindM. rewrite Hb. reflexivity.
Qed.

Lemma unsafe_backup_path_raises_witness :
  backup_nvidia_smi Examples.hijacked_world
  = (Examples.hijacked_world, Raise (NvidiaSmiError "Invalid backup path"))
  /\ fix_nvidia_smi Examples.hijacked_world
     = (Examples.hijacked_world, Raise (NvidiaSmiError "Invalid backup path")).
Proof.
  apply (unsafe_backup_path_raises Examples.hijacked_world (File Examples.segfaulting_smi)
           ["tmp"; "elsewhere"] ["usr"; "lib"; "wsl"; "lib"]).
  - vm_compute. reflexivity.
  - reflexivity.
  - vm_compute. reflexivity.
  - intros t. discriminate.
  - vm_compute. reflexivity.
  - vm_compute. reflexivity.
  - vm_compute. reflexivity.
  - vm_compute. reflexivity.
Defined.

(** A move, conversely, is made only after the validation passed. *)
Lemma backup_is_validated w w' backup_path :
  Path_exists w WSL_NVIDIA_SMI_PATH = Return true ->
  Path_is_symlink w WSL_NVIDIA_SMI_PATH = Return false ->
  backup_nvidia_smi w = (w', Return (Some backup_path)) ->
  outcome (validate_path_safe (backup_path_at (now w)) (Some (parent WSL_NVIDIA_SMI_PATH))) w
  = Return true.
Proof.
  intros Hex Hsl. unfold backup_nvidia_smi, is_nvidia_smi_symlink.
  rewrite bindM_lift, Hex. mred. rewrite bindM_lift, Hsl. mred. rewrite bindM_ask. cbv beta.
  rewrite (bindM_return _ _ _ _ _ (validate_path_safe_spec _ _ w)).
  unfold outcome. rewrite validate_path_safe_spec. cbn [snd].
  destruct (match Path_resolve w (backup_path_at (now w)) with Return _ => _ | Raise _ => _ end);
    [reflexivity|]. mred. discriminate.
Qed.

(** C6. The code departs from the claim, and from its own comment
    "Verify the fix worked" and docstring ("success indicates if nvidia-smi
    is working"): the final probe runs the command [nvidia-smi] found
    through PATH, not the local path, which the sibling branch of line 181
    does probe.  Where a working native nvidia-smi comes first on PATH and
    the Windows binary is broken, the link is created, a probe of the local
    path fails, and the repair still reports success. *)
Lemma final_probe_is_not_of_local_path :
  let w' := after fix_nvidia_smi Examples.shadowed_world in
  fs Examples.shadowed_world WSL_NVIDIA_SMI_PATH = None
  /\ fs w' WSL_NVIDIA_SMI_PATH = Some (Symlink WINDOWS_NVIDIA_SMI_PATH)
  /\ outcome (test_nvidia_smi (Some WSL_NVIDIA_SMI_PATH)) w' = Return false
  /\ outcome fix_nvidia_smi Examples.shadowed_world
     = Return (true,
               "Created symlink to /mnt/c/Windows/System32/nvidia-smi.exe; nvidia-smi is now working").
Proof. repeat split; vm_compute; reflexivity. Qed.

(** What the code does do after link creation: once the inspection has
    reached link creation and [create_nvidia_smi_symlink] has succeeded, the
    local path is a link to the Windows binary and the repair probes the
    command [nvidia-smi] as PATH resolves it; when that probe fails the
    repair returns [(False, "Symlink created but nvidia-smi still not
    working")] and does not raise. *)
Lemma failed_final_probe_is_reported (w : World) (message_parts : list string) :
  Path_exists w WINDOWS_NVIDIA_SMI_PATH = Return true ->
  outcome inspect_nvidia_smi w = Return (inr message_parts) ->
  outcome create_nvidia_smi_symlink (after inspect_nvidia_smi w) = Return true ->
  outcome (test_nvidia_smi None)
    (after create_nvidia_smi_symlink (after inspect_nvidia_smi w)) = Return false ->
  let w' := after create_nvidia_smi_symlink (after inspect_nvidia_smi w) in
  fix_nvidia_smi w = (w', Return (false, "Symlink created but nvidia-smi still not working"))
  /\ fs w' WSL_NVIDIA_SMI_PATH = Some (Symlink WINDOWS_NVIDIA_SMI_PATH).
Proof.
  intros HH Hi Hc Ht w'. subst w'. split.
  - rewrite (fix_with_driver w HH).
    rewrite (bindM_return _ _ _ _ _ (eq_trans (run_pair _ _) (f_equal _ Hi))).
    cbv beta iota. unfold link_nvidia_smi.
    rewrite (bindM_return _ _ _ _ _ (eq_trans (run_pair _ _) (f_equal _ Hc))).
    rewrite (bindM_return _ _ _ _ _ (eq_trans (test_nvidia_smi_outcome _ _) (f_equal _ Ht))).
    reflexivity.
  - destruct (create_from_absent _ (inspect_leaves_nothing w _ Hi) Hc)
      as (fs1 & _ & _ & _ & ->).
    rewrite fs_with_fs. apply fs_set_eq.
Qed.

(** C1. The code departs from the claim, and from its own docstring
    ("This function is idempotent") and comment ("Symlink exists but not
    working, remove it"): with the local path missing and the Windows binary
    present and working, but the directory of the local path not on PATH,
    the first repair makes a link that works when it is run, and reports
    failure; the second repair does not answer "already working": it removes
    that working link, makes it again, and reports failure again. *)
Lemma repair_twice_off_path :
  let w := Examples.off_path_world in
  let w1 := after fix_nvidia_smi w in
  let w2 := after fix_nvidia_smi w1 in
  fs w WSL_NVIDIA_SMI_PATH = None
  /\ Path_exists w WINDOWS_NVIDIA_SMI_PATH = Return true
  /\ outcome (test_nvidia_smi (Some WINDOWS_NVIDIA_SMI_PATH)) w = Return true
  /\ outcome fix_nvidia_smi w
     = Return (false, "Symlink created but nvidia-smi still not working")
  /\ fs w1 WSL_NVIDIA_SMI_PATH = Some (Symlink WINDOWS_NVIDIA_SMI_PATH)
  /\ outcome (test_nvidia_smi (Some WSL_NVIDIA_SMI_PATH)) w1 = Return true
  /\ fs (after inspect_nvidia_smi w1) WSL_NVIDIA_SMI_PATH = None
  /\ outcome fix_nvidia_smi w1
     = Return (false, "Symlink created but nvidia-smi still not working")
  /\ fs w2 WSL_NVIDIA_SMI_PATH = Some (Symlink WINDOWS_NVIDIA_SMI_PATH).
Proof. repeat split; vm_compute; reflexivity. Qed.

(** Where the probe through PATH does reach the local path, the repair is
    idempotent: starting with nothing at the local path, when the first
    repair reports success an immediate second repair returns [True] with
    the message "nvidia-smi already working (symlink to ...)"; the local path
    is then a link to the Windows binary, the probe succeeds, and the second
    call leaves the world exactly as the first left it. *)
Lemma fix_nvidia_smi_twice (w : World) (msg : string) :
  fs w WSL_NVIDIA_SMI_PATH = None ->
  outcome fix_nvidia_smi w = Return (true, msg) ->
  let w1 := after fix_nvidia_smi w in
  exists target,
    fix_nvidia_smi w1
    = (w1, Return (true, "nvidia-smi already working (symlink to " +:+ target +:+ ")"))
    /\ fs w1 WSL_NVIDIA_SMI_PATH = Some (Symlink WINDOWS_NVIDIA_SMI_PATH)
    /\ outcome (test_nvidia_smi None) w1 = Return true.
Proof.
  intros Habs Hout w1. subst w1.
  pose proof (fix_needs_driver w _ Hout) as HH.
  assert (Ha : denied w WSL_NVIDIA_SMI_PATH = false).
  { destruct (denied w WSL_NVIDIA_SMI_PATH) eqn:Ha; [|reflexivity].
    unfold outcome in Hout. rewrite (fix_with_driver w HH) in Hout.
    unfold bindM in Hout. rewrite (inspect_denied w Ha) in Hout. discriminate. }
  assert (Hfix : fix_nvidia_smi w = link_nvidia_smi [] w).
  { rewrite (fix_with_driver w HH).
    rewrite (bindM_return _ _ _ _ _ (inspect_missing w Ha Habs)). reflexivity. }
  unfold outcome, after in *. rewrite Hfix in *.
  fold (after (link_nvidia_smi []) w). rewrite after_link.
  unfold link_nvidia_smi, bindM at 1 in Hout.
  rewrite (run_pair create_nvidia_smi_symlink w) in Hout.
  destruct (outcome create_nvidia_smi_symlink w) as [[|]|e] eqn:Hc; try discriminate.
  2:{ exfalso. destruct (create_nvidia_smi_symlink_spec w _ _ (run_pair _ w))
        as (fs1 & _ & [(fs2 & Hr & _) | ((e & He) & _)]); rewrite Hc in *; discriminate. }
  set (w1 := after create_nvidia_smi_symlink w) in *.
  unfold bindM in Hout. rewrite test_nvidia_smi_outcome in Hout.
  destruct (outcome (test_nvidia_smi None) w1) as [[|]|e] eqn:Ht; try discriminate.
  destruct (create_from_absent w Habs Hc) as (fs1 & Hext & Habs1 & _ & Hw1).
  fold w1 in Hw1.
  assert (HL : fs w1 WSL_NVIDIA_SMI_PATH = Some (Symlink WINDOWS_NVIDIA_SMI_PATH)).
  { rewrite Hw1, fs_with_fs. apply fs_set_eq. }
  assert (Ha1 : denied w1 WSL_NVIDIA_SMI_PATH = false) by (rewrite Hw1; exact Ha).
  assert (HH1 : Path_exists w1 WINDOWS_NVIDIA_SMI_PATH = Return true).
  { eapply Path_exists_extends; [| |exact HH].
    - rewrite Hw1, fs_with_fs.
      eapply extends_trans; [exact Hext|]. apply extends_fs_set, Habs1.
    - rewrite Hw1. reflexivity. }
  destruct (inspect_symlink_working w1 _ Ha1 HL Ht) as [target Hi].
  exists target. split; [|split; [exact HL|exact Ht]].
  rewrite (fix_with_driver w1 HH1).
  rewrite (bindM_return _ _ _ _ _ Hi). reflexivity.
Qed.

(** The first repair succeeds where the environment is the usual one: the
    Windows binary is a file that runs, the directory of the local path is
    there and is the first entry of PATH to hold an nvidia-smi, and sudo
    makes the link in time. *)
Lemma fix_links_missing w f pr out err s complaint dirs1 dirs2 :
  (forall p, denied w p = false) ->
  fs w WSL_NVIDIA_SMI_PATH = None ->
  fs w WINDOWS_NVIDIA_SMI_PATH = Some (File f) ->
  f_exec f [] = inr pr -> (secs pr < NVIDIA_SMI_TIMEOUT)%nat -> returncode pr = 0%Z ->
  stdout pr = inr out -> stderr pr = inr err ->
  fs w (parent WSL_NVIDIA_SMI_PATH) = Some Dir ->
  sudoers w [Word "ln"; Word "-sf"; PathArg WINDOWS_NVIDIA_SMI_PATH; PathArg WSL_NVIDIA_SMI_PATH]
  = Granted s complaint -> (s < 5)%nat ->
  get_exec_path w = (dirs1 ++ parent WSL_NVIDIA_SMI_PATH :: dirs2)%list ->
  (forall d, d ∈ dirs1 ->
             fs w (d ++ ["nvidia-smi"])%list = None /\ d <> parent WSL_NVIDIA_SMI_PATH) ->
  outcome fix_nvidia_smi w
  = Return (true,
            "Created symlink to /mnt/c/Windows/System32/nvidia-smi.exe; nvidia-smi is now working").
Proof.
  intros Ha Habs HH Hrun Hsecs Hrc Hout Herr Hdir Hln Hs Hpath Hfirst.
  assert (Hnf : forall t, File f <> Symlink t) by (intros; discriminate).
  set (fs1 := fs_set WSL_NVIDIA_SMI_PATH (Some (Symlink WINDOWS_NVIDIA_SMI_PATH)) (fs w)).
  set (w1 := with_fs w fs1).
  assert (Hc : create_nvidia_smi_symlink w = (w1, Return true)).
  { unfold create_nvidia_smi_symlink.
    rewrite bindM_lift, (Path_exists_node _ _ _ (Ha _) HH Hnf). mred.
    rewrite bindM_lift.
    rewrite (Path_exists_node w _ Dir (Ha _) Hdir) by (intros; discriminate). mred.
    unfold bindM at 1. unfold ret at 1. unfold try_except, bindM.
    assert (Hl : coreutils (fs w)
                   [Word "ln"; Word "-sf"; PathArg WINDOWS_NVIDIA_SMI_PATH;
                    PathArg WSL_NVIDIA_SMI_PATH] = Some fs1).
    { change (ln_sf (fs w) WINDOWS_NVIDIA_SMI_PATH WSL_NVIDIA_SMI_PATH = Some fs1).
      unfold ln_sf. rewrite (dir_at_absent _ _ _ Habs), (is_dir_node _ _ Hdir). reflexivity. }
    rewrite (run_command_sudo_granted _ (Some 5%nat) s complaint _ w ln_command_no_nul Hln
               (proj2 (Nat.leb_gt 5 s) Hs) Hl).
    reflexivity. }
  assert (Ht : test_nvidia_smi None w1 = (w1, Return true)).
  { unfold test_nvidia_smi, try_except, bindM, run_command, try_except, bindM, subprocess_run.
    cbn [is_sudo String.eqb Ascii.eqb Bool.eqb andb]. unfold spawn.
    change (get_exec_path w1) with (get_exec_path w). rewrite Hpath.
    destruct (execvp_skip w1 "nvidia-smi" (map arg_str []) (parent WSL_NVIDIA_SMI_PATH)
                dirs2 dirs1 None ENOENT) as [last' ->].
    { intros d Hd. destruct (Hfirst d Hd) as [Hnone Hne]. apply execve_absent; [apply Ha|].
        unfold w1, fs1. rewrite fs_with_fs.
        rewrite fs_set_ne; [exact Hnone|].
        intros E. apply Hne.
        change WSL_NVIDIA_SMI_PATH with (parent WSL_NVIDIA_SMI_PATH ++ ["nvidia-smi"])%list in E.
        apply app_inj_tail in E. apply E. }
    cbn [execvp].
    change (parent WSL_NVIDIA_SMI_PATH ++ ["nvidia-smi"])%list with WSL_NVIDIA_SMI_PATH.
    assert (Hx : execve w1 WSL_NVIDIA_SMI_PATH (map arg_str []) = inr pr).
    { unfold execve, stat_as_user. cbn [follow_as_user MAXSYMLINKS].
      rewrite (lstat_as_user_allowed w1 _ (Ha _)). unfold w1 at 1. rewrite fs_with_fs.
      unfold fs1 at 1. rewrite fs_set_eq.
      rewrite (lstat_as_user_allowed w1 _ (Ha _)). unfold w1 at 1. rewrite fs_with_fs.
      unfold fs1. rewrite fs_set_ne by discriminate. rewrite HH. exact Hrun. }
    rewrite Hx. unfold timed_out.
    rewrite (proj2 (Nat.leb_gt _ _) Hsecs). unfold completed.
    rewrite Hout, Herr. cbn [andb cp_returncode]. rewrite Hrc. reflexivity. }
  unfold outcome.
  rewrite (fix_with_driver w (Path_exists_node _ _ _ (Ha _) HH Hnf)).
  rewrite (bindM_return _ _ _ _ _ (inspect_missing w (Ha _) Habs)). cbv beta iota.
  unfold link_nvidia_smi.
  rewrite (bindM_return _ _ _ _ _ Hc).
  rewrite (bindM_return _ _ _ _ _ Ht). reflexivity.
Qed.

(** C2, as stated, fails: a repair need not complete.  Where sudo refuses
    the move (the directory is mounted read-only), the repair of a broken
    regular file raises [NvidiaSmiError]; no backup appears and the local
    path still holds the regular file. *)
Lemma refused_repair_makes_no_backup :
  let w := Examples.readonly_world in
  let w' := after fix_nvidia_smi w in
  Path_exists w WSL_NVIDIA_SMI_PATH = Return true
  /\ Path_is_symlink w WSL_NVIDIA_SMI_PATH = Return false
  /\ outcome (test_nvidia_smi (Some WSL_NVIDIA_SMI_PATH)) w = Return false
  /\ outcome fix_nvidia_smi w
     = Raise (NvidiaSmiError "Failed to backup nvidia-smi: Read-only file system")
  /\ Path_exists w' (backup_path_at (now w)) = Return false
  /\ Path_exists w' WSL_NVIDIA_SMI_PATH = Return true
  /\ Path_is_symlink w' WSL_NVIDIA_SMI_PATH = Return false.
Proof. repeat split; vm_compute; reflexivity. Qed.

(** C2, amended. A backup is made only when a regular file is replaced, and
    is made whenever such a repair completes.  Let [w'] be the world a
    repair leaves.
    - If the local path held a node that is not a link and fails the probe,
      the name of the backup was free, and the repair completes (returns
      rather than raises), then the local path is a link to the Windows
      binary, the old node is stored under the time-stamped backup name, and
      no other entry of the directory has changed: one new backup.
    - If the local path was missing or a link, no other entry of the
      directory has changed, whatever the outcome: no backup.
    - If the local path held a node that is not a link and passes the
      probe, the world is unchanged. *)
Theorem backup_iff_regular_file_replaced (w : World) :
  let w' := after fix_nvidia_smi w in
  (forall n v,
      fs w WSL_NVIDIA_SMI_PATH = Some n -> (forall t, n <> Symlink t) ->
      outcome (test_nvidia_smi (Some WSL_NVIDIA_SMI_PATH)) w = Return false ->
      fs w (backup_path_at (now w)) = None ->
      outcome fix_nvidia_smi w = Return v ->
      fs w' WSL_NVIDIA_SMI_PATH = Some (Symlink WINDOWS_NVIDIA_SMI_PATH)
      /\ fs w' (backup_path_at (now w)) = Some n
      /\ forall x, x <> name WSL_NVIDIA_SMI_PATH -> entry x <> backup_path_at (now w) ->
                   fs w' (entry x) = fs w (entry x))
  /\ (fs w WSL_NVIDIA_SMI_PATH = None \/ (exists t, fs w WSL_NVIDIA_SMI_PATH = Some (Symlink t)) ->
      forall x, x <> name WSL_NVIDIA_SMI_PATH -> fs w' (entry x) = fs w (entry x))
  /\ (forall n,
      fs w WSL_NVIDIA_SMI_PATH = Some n -> (forall t, n <> Symlink t) ->
      outcome (test_nvidia_smi (Some WSL_NVIDIA_SMI_PATH)) w = Return true ->
      w' = w).
Proof.
  intros w'. subst w'. split; [|split].
  - intros n v Hn Hns Hprobe Hfree Hout.
    pose proof (fix_needs_driver w v Hout) as HH.
    assert (Ha : denied w WSL_NVIDIA_SMI_PATH = false).
    { destruct (denied w WSL_NVIDIA_SMI_PATH) eqn:Ha; [|reflexivity].
      unfold outcome in Hout. rewrite (fix_with_driver w HH) in Hout.
      unfold bindM in Hout. rewrite (inspect_denied w Ha) in Hout. discriminate. }
    assert (Hfix : fix_nvidia_smi w
                   = bindM backup_nvidia_smi
                       (fun backup_path =>
                          link_nvidia_smi ["Backed up old nvidia-smi to "
                                           +:+ str_opt (Path_str <$> backup_path)]) w).
    { rewrite (fix_with_driver w HH). unfold bindM at 1.
      rewrite (inspect_regular w n Ha Hn Hns). unfold bindM at 1.
      rewrite test_nvidia_smi_outcome, Hprobe. cbv iota.
      unfold bindM. destruct (backup_nvidia_smi w) as [w1 [bp|e]]; reflexivity. }
    unfold outcome in Hout. unfold after. rewrite Hfix in *. clear Hfix.
    unfold bindM in Hout |- *.
    destruct (backup_nvidia_smi w) as [w1 r1] eqn:Eb.
    apply backup_nvidia_smi_spec in Eb;
      [|eapply Path_exists_node; eassumption|eapply Path_is_symlink_node; eassumption].
    destruct Eb as [(_ & -> & ->) | [(fs' & Hmv & -> & ->) | (-> & e & ->)]];
      try discriminate Hout.
    apply mv_onto in Hmv as [-> _]; [|exact Hfree].
    set (w1 := with_fs w _) in *.
    apply link_returns in Hout.
    match goal with |- context [link_nvidia_smi ?parts w1] =>
      change (link_nvidia_smi parts w1).1 with (after (link_nvidia_smi parts) w1) end.
    rewrite after_link.
    assert (Habs : fs w1 WSL_NVIDIA_SMI_PATH = None).
    { apply rename_src; [reflexivity|]. intros E. symmetry in E. revert E. apply backup_path_fresh. }
    destruct (create_from_absent w1 Habs Hout) as (fs1 & _ & _ & Hsame & ->).
    rewrite fs_with_fs. split; [apply fs_set_eq|]. split.
    + rewrite fs_set_ne by apply backup_path_fresh.
      rewrite Hsame by apply backup_path_length.
      subst w1. rewrite fs_with_fs, rename_dst. exact Hn.
    + intros x Hx Hb. rewrite fs_set_ne by (apply entry_other, Hx).
      rewrite Hsame by apply entry_length.
      subst w1. rewrite fs_with_fs.
      apply rename_other; auto using entry_other.
  - intros Hstate x Hx.
    destruct (Path_exists w WINDOWS_NVIDIA_SMI_PATH) as [[|]|e0] eqn:HH.
    2:{ unfold after. rewrite (fix_without_driver w HH). reflexivity. }
    2:{ unfold after. rewrite (fix_unseen_driver w e0 HH). reflexivity. }
    unfold after. rewrite (fix_with_driver w HH). unfold bindM at 1.
    destruct (denied w WSL_NVIDIA_SMI_PATH) eqn:Ha.
    { rewrite (inspect_denied w Ha). reflexivity. }
    destruct (inspect_nvidia_smi w) as [w1 r1] eqn:Ei.
    assert (Hcases : (w1 = w /\ forall parts, r1 <> Return (inr parts))
                     \/ (r1 = Return (inr [])
                         /\ fs w1 WSL_NVIDIA_SMI_PATH = None
                         /\ forall p : path, p <> WSL_NVIDIA_SMI_PATH -> fs w1 p = fs w p)).
    { destruct Hstate as [Habs | [t Ht]].
      - rewrite (inspect_missing w Ha Habs) in Ei. injection Ei as <- <-. right. auto.
      - destruct (inspect_symlink w t _ _ Ha Ht Ei) as [(-> & [[m ->] | [e ->]]) | (-> & ->)].
        + left. split; [reflexivity|]. intros; discriminate.
        + left. split; [reflexivity|]. intros; discriminate.
        + right. split; [reflexivity|]. rewrite fs_with_fs.
          split; [apply fs_set_eq|]. intros p Hp. apply fs_set_ne, Hp. }
    destruct Hcases as [(-> & Hr) | (-> & Hnone & Hfs)].
    + destruct r1 as [[value|parts]|e]; try reflexivity. exfalso. eapply Hr. reflexivity.
    + fold (after (link_nvidia_smi []) w1). rewrite after_link.
      rewrite (create_same_entries w1) by (exact Hnone || apply entry_length || apply entry_other, Hx).
      apply Hfs, entry_other, Hx.
  - intros n Hn Hns Hprobe.
    destruct (Path_exists w WINDOWS_NVIDIA_SMI_PATH) as [[|]|e0] eqn:HH.
    2:{ unfold after. rewrite (fix_without_driver w HH). reflexivity. }
    2:{ unfold after. rewrite (fix_unseen_driver w e0 HH). reflexivity. }
    unfold after. rewrite (fix_with_driver w HH). unfold bindM at 1.
    destruct (denied w WSL_NVIDIA_SMI_PATH) eqn:Ha.
    { rewrite (inspect_denied w Ha). reflexivity. }
    rewrite (inspect_regular w n Ha Hn Hns). unfold bindM at 1.
    rewrite test_nvidia_smi_outcome, Hprobe. reflexivity.
Qed.

Lemma backup_iff_regular_file_replaced_witness :
  (let w' := after fix_nvidia_smi Examples.segfault_world in
   fs w' WSL_NVIDIA_SMI_PATH = Some (Symlink WINDOWS_NVIDIA_SMI_PATH)
   /\ fs w' (backup_path_at (now Examples.segfault_world))
      = Some (File Examples.segfaulting_smi)
   /\ forall x, x <> name WSL_NVIDIA_SMI_PATH ->
                entry x <> backup_path_at (now Examples.segfault_world) ->
                fs w' (entry x) = fs Examples.segfault_world (entry x))
  /\ (forall x, x <> name WSL_NVIDIA_SMI_PATH ->
                fs (after fix_nvidia_smi Examples.missing_world) (entry x)
                = fs Examples.missing_world (entry x)).
Proof.
  split.
  - apply (proj1 (backup_iff_regular_file_replaced Examples.segfault_world)
             (File Examples.segfaulting_smi)
             (true, "Backed up old nvidia-smi to /usr/lib/wsl/lib/nvidia-smi.old.20240307_090502; Created symlink to /mnt/c/Windows/System32/nvidia-smi.exe; nvidia-smi is now working")).
    + vm_compute. reflexivity.
    + intros t. discriminate.
    + vm_compute. reflexivity.
    + vm_compute. reflexivity.
    + vm_compute. reflexivity.
  - apply (proj1 (proj2 (backup_iff_regular_file_replaced Examples.missing_world))).
    left. vm_compute. reflexivity.
Defined.

(** The repair of a broken regular file does complete when the environment
    lets it: the Windows binary is a file, the directory is there, the
    backup name is free and passes validation, and sudo carries out the move
    and the link within their five seconds. *)
Lemma fix_repairs_regular_file w n f s1 s2 c1 c2 :
  (forall p, denied w p = false) ->
  fs w WSL_NVIDIA_SMI_PATH = Some n -> (forall t, n <> Symlink t) ->
  outcome (test_nvidia_smi (Some WSL_NVIDIA_SMI_PATH)) w = Return false ->
  fs w (backup_path_at (now w)) = None ->
  fs w WINDOWS_NVIDIA_SMI_PATH = Some (File f) ->
  fs w (parent WSL_NVIDIA_SMI_PATH) = Some Dir ->
  outcome (validate_path_safe (backup_path_at (now w)) (Some (parent WSL_NVIDIA_SMI_PATH))) w
  = Return true ->
  sudoers w [Word "mv"; PathArg WSL_NVIDIA_SMI_PATH; PathArg (backup_path_at (now w))]
  = Granted s1 c1 -> (s1 < 5)%nat ->
  sudoers w [Word "ln"; Word "-sf"; PathArg WINDOWS_NVIDIA_SMI_PATH; PathArg WSL_NVIDIA_SMI_PATH]
  = Granted s2 c2 -> (s2 < 5)%nat ->
  exists v, outcome fix_nvidia_smi w = Return v.
Proof.
  intros Ha Hn Hns Hprobe Hfree HH Hdir Hsafe Hmv Hs1 Hln Hs2.
  assert (Hnf : forall t, File f <> Symlink t) by (intros; discriminate).
  set (bp := backup_path_at (now w)) in *.
  set (w1 := with_fs w (rename (fs w) WSL_NVIDIA_SMI_PATH bp)).
  assert (Hb : backup_nvidia_smi w = (w1, Return (Some bp))).
  { unfold backup_nvidia_smi, is_nvidia_smi_symlink.
    rewrite bindM_lift, (Path_exists_node _ _ _ (Ha _) Hn Hns). mred.
    rewrite bindM_lift, (Path_is_symlink_node _ _ _ (Ha _) Hn Hns). mred.
    rewrite bindM_ask. cbv beta. fold bp.
    assert (Hv : validate_path_safe bp (Some (parent WSL_NVIDIA_SMI_PATH)) w
                 = (w, Return true)).
    { rewrite (run_pair (validate_path_safe _ _) w), Hsafe. f_equal.
      unfold after. rewrite validate_path_safe_spec. reflexivity. }
    rewrite (bindM_return _ _ _ _ _ Hv). mred.
    unfold try_except, bindM.
    erewrite run_command_sudo_granted; [reflexivity| |exact Hmv| |].
    - apply mv_command_no_nul.
    - unfold timed_out. apply Nat.leb_gt. exact Hs1.
    - simpl. unfold mv, mv_dest, lstat. rewrite Hn, (dir_at_absent _ _ _ Hfree), Hfree.
      cbv zeta.
      destruct (is_prefix WSL_NVIDIA_SMI_PATH bp) eqn:E.
      { apply is_prefix_same_length in E; [|reflexivity].
        exfalso. symmetry in E. revert E. apply backup_path_fresh. }
      change (parent bp) with (parent WSL_NVIDIA_SMI_PATH).
      rewrite (is_dir_node _ _ Hdir). reflexivity. }
  assert (HH1 : fs w1 WINDOWS_NVIDIA_SMI_PATH = Some (File f)).
  { unfold w1. rewrite fs_with_fs.
    rewrite rename_other;
      [exact HH | reflexivity | reflexivity | discriminate | apply windows_path_fresh]. }
  assert (Hdir1 : fs w1 (parent WSL_NVIDIA_SMI_PATH) = Some Dir).
  { unfold w1. rewrite fs_with_fs, rename_shorter; auto; simpl; lia. }
  assert (Habs1 : fs w1 WSL_NVIDIA_SMI_PATH = None).
  { unfold w1. rewrite fs_with_fs. apply rename_src; [reflexivity|].
    intros E. symmetry in E. revert E. apply backup_path_fresh. }
  assert (Hc : exists w2, create_nvidia_smi_symlink w1 = (w2, Return true)).
  { unfold create_nvidia_smi_symlink.
    rewrite bindM_lift, (Path_exists_node w1 _ _ (Ha _) HH1 Hnf). mred.
    rewrite bindM_lift.
    rewrite (Path_exists_node w1 _ Dir (Ha _) Hdir1) by (intros; discriminate). mred.
    unfold bindM at 1. unfold ret at 1. unfold try_except, bindM.
    assert (Hl : coreutils (fs w1)
                   [Word "ln"; Word "-sf"; PathArg WINDOWS_NVIDIA_SMI_PATH;
                    PathArg WSL_NVIDIA_SMI_PATH]
                 = Some (fs_set WSL_NVIDIA_SMI_PATH
                           (Some (Symlink WINDOWS_NVIDIA_SMI_PATH)) (fs w1))).
    { change (ln_sf (fs w1) WINDOWS_NVIDIA_SMI_PATH WSL_NVIDIA_SMI_PATH = Some
                (fs_set WSL_NVIDIA_SMI_PATH (Some (Symlink WINDOWS_NVIDIA_SMI_PATH)) (fs w1))).
      unfold ln_sf. rewrite (dir_at_absent _ _ _ Habs1), (is_dir_node _ _ Hdir1).
      reflexivity. }
    rewrite (run_command_sudo_granted _ (Some 5%nat) s2 c2 _ w1 ln_command_no_nul Hln
               (proj2 (Nat.leb_gt 5 s2) Hs2) Hl).
    eexists. reflexivity. }
  destruct Hc as [w2 Hc].
  unfold outcome. rewrite (fix_with_driver w (Path_exists_node _ _ _ (Ha _) HH Hnf)).
  unfold bindM at 1. rewrite (inspect_regular w n (Ha _) Hn Hns). unfold bindM at 1.
  rewrite test_nvidia_smi_outcome, Hprobe. cbv iota.
  unfold bindM at 1. rewrite Hb. unfold ret at 1. cbv beta iota.
  unfold link_nvidia_smi, bindM at 1. rewrite Hc.
  unfold bindM. rewrite test_nvidia_smi_outcome.
  destruct (outcome (test_nvidia_smi None) w2) as [[|]|e] eqn:Et.
  - eexists. reflexivity.
  - eexists. reflexivity.
  - destruct (test_nvidia_smi_total None w2) as [b Hb2]. unfold outcome in Et.
    rewrite Hb2 in Et. discriminate.
Qed.

(** * Further properties *)

(** ** The ordering of versions *)

Lemma total_order_N : total_order N.compare.
Proof.
  split.
  - apply N.compare_refl.
  - intros x y. apply N.compare_eq.
  - intros x y. apply N.compare_antisym.
  - intros x y z. rewrite !N.compare_lt_iff. lia.
Qed.

Lemma Ascii_compare_N (a b : ascii) :
  Ascii.compare a b = N.compare (N_of_ascii a) (N_of_ascii b).
Proof. reflexivity. Qed.

Lemma total_order_ascii : total_order Ascii.compare.
Proof.
  split.
  - intros x. rewrite Ascii_compare_N. apply N.compare_refl.
  - intros x y. apply Ascii.compare_eq_iff.
  - intros x y. apply Ascii.compare_antisym.
  - intros x y z. rewrite !Ascii_compare_N, !N.compare_lt_iff. lia.
Qed.

Lemma total_order_string : total_order String.compare.
Proof.
  split.
  - induction x as [|c x IH]; simpl; [reflexivity|].
    rewrite (cmp_refl _ total_order_ascii). exact IH.
  - intros x y. apply String.compare_eq_iff.
  - intros x y. apply String.compare_antisym.
  - induction x as [|a x IH]; intros [|b y] [|c z]; simpl; try discriminate; auto.
    destruct (Ascii.compare a b) eqn:Eab; try discriminate.
    + apply (cmp_eq _ total_order_ascii) in Eab. subst b.
      destruct (Ascii.compare a c); try discriminate; auto. apply IH.
    + intros _. destruct (Ascii.compare b c) eqn:Ebc; try discriminate.
      * apply (cmp_eq _ total_order_ascii) in Ebc. subst c. rewrite Eab. reflexivity.
      * rewrite (cmp_trans _ total_order_ascii _ _ _ Eab Ebc). reflexivity.
Qed.

Section Orders.

Context {A B : Type} (cmpA : A -> A -> comparison) (cmpB : B -> B -> comparison).
Hypothesis HA : total_order cmpA.
Hypothesis HB : total_order cmpB.

(** Pairs, compared as Python compares tuples. *)
Lemma total_order_pair :
  total_order (fun x y : A * B =>
                 Packaging.lex (cmpA (fst x) (fst y)) (cmpB (snd x) (snd y))).
Proof.
  split.
  - intros [a b]. simpl. rewrite (cmp_refl _ HA), (cmp_refl _ HB). reflexivity.
  - intros [a b] [a' b']. simpl. unfold Packaging.lex.
    destruct (cmpA a a') eqn:Ea; try discriminate.
    intros Eb. apply (cmp_eq _ HA) in Ea. apply (cmp_eq _ HB) in Eb. congruence.
  - intros [a b] [a' b']. simpl. unfold Packaging.lex.
    rewrite (cmp_antisym _ HA a a'), (cmp_antisym _ HB b b').
    destruct (cmpA a a'); reflexivity.
  - intros [a b] [a' b'] [a'' b'']. simpl. unfold Packaging.lex.
    destruct (cmpA a a') eqn:E1; try discriminate.
    + apply (cmp_eq _ HA) in E1. subst a'.
      destruct (cmpA a a''); try discriminate; auto. apply (cmp_trans _ HB).
    + intros _. destruct (cmpA a' a'') eqn:E2; try discriminate.
      * apply (cmp_eq _ HA) in E2. subst a''. rewrite E1. reflexivity.
      * rewrite (cmp_trans _ HA _ _ _ E1 E2). reflexivity.
Qed.

(** Tuples of any length. *)
Lemma total_order_tuple : total_order (Packaging.cmp_tuple cmpA).
Proof.
  split.
  - induction x as [|a x IH]; simpl; [reflexivity|].
    rewrite (cmp_refl _ HA), IH. reflexivity.
  - induction x as [|a x IH]; intros [|b y]; simpl; try discriminate; auto.
    unfold Packaging.lex. destruct (cmpA a b) eqn:E; try discriminate.
    intros H. apply (cmp_eq _ HA) in E. apply IH in H. congruence.
  - induction x as [|a x IH]; intros [|b y]; simpl; auto.
    unfold Packaging.lex. rewrite (cmp_antisym _ HA a b), IH.
    destruct (cmpA a b); reflexivity.
  - induction x as [|a x IH]; intros [|b y] [|c z]; simpl; try discriminate; auto.
    unfold Packaging.lex.
    destruct (cmpA a b) eqn:E1; try discriminate.
    + apply (cmp_eq _ HA) in E1. subst b.
      destruct (cmpA a c); try discriminate; auto. apply IH.
    + intros _. destruct (cmpA b c) eqn:E2; try discriminate.
      * apply (cmp_eq _ HA) in E2. subst c. rewrite E1. reflexivity.
      * rewrite (cmp_trans _ HA _ _ _ E1 E2). reflexivity.
Qed.

(** A value between the two infinities. *)
Lemma total_order_ext : total_order (Packaging.cmp_ext cmpA).
Proof.
  split.
  - intros [|a|]; simpl; auto. apply (cmp_refl _ HA).
  - intros [|a|] [|b|]; simpl; try discriminate; auto.
    intros H. apply (cmp_eq _ HA) in H. congruence.
  - intros [|a|] [|b|]; simpl; auto. apply (cmp_antisym _ HA).
  - intros [|a|] [|b|] [|c|]; simpl; try discriminate; auto. apply (cmp_trans _ HA).
Qed.

(** An order seen through an injective map. *)
Lemma total_order_image (f : B -> A) :
  (forall x y, f x = f y -> x = y) -> total_order (fun x y => cmpA (f x) (f y)).
Proof.
  intros Hinj. split.
  - intros x. apply (cmp_refl _ HA).
  - intros x y H. apply Hinj, (cmp_eq _ HA), H.
  - intros x y. apply (cmp_antisym _ HA).
  - intros x y z. apply (cmp_trans _ HA).
Qed.

End Orders.

Lemma total_order_letter : total_order Packaging.cmp_letter.
Proof. exact (total_order_pair _ _ total_order_string total_order_N). Qed.

Lemma total_order_local_part : total_order Packaging.cmp_local_part.
Proof.
  exact (total_order_pair _ _ (total_order_ext _ total_order_N) total_order_string).
Qed.

(** The comparison keys of versions are totally ordered. *)
Lemma total_order_key : total_order Packaging.cmp_key.
Proof.
  pose proof total_order_N as HN.
  pose proof (total_order_tuple _ total_order_N) as HR.
  pose proof (total_order_ext _ total_order_letter) as HL.
  pose proof (total_order_ext _ (total_order_tuple _ total_order_local_part)) as HLoc.
  pose proof (total_order_pair _ _ HN
                (total_order_pair _ _ HR
                   (total_order_pair _ _ HL
                      (total_order_pair _ _ HL
                         (total_order_pair _ _ HL HLoc))))) as H.
  pose (f := fun k : Packaging.CmpKey =>
               let '(e, r, pre, post, dev, l) := k in (e, (r, (pre, (post, (dev, l)))))).
  assert (Hinj : forall x y, f x = f y -> x = y).
  { intros [[[[[e r] pre] post] dev] l] [[[[[e' r'] pre'] post'] dev'] l'].
    simpl. congruence. }
  destruct (total_order_image _ H f Hinj) as [R E S T]. split.
  - intros [[[[[e r] pre] post] dev] l]. apply (R (e, r, pre, post, dev, l)).
  - intros [[[[[e r] pre] post] dev] l] [[[[[e' r'] pre'] post'] dev'] l'].
    apply (E (e, r, pre, post, dev, l) (e', r', pre', post', dev', l')).
  - intros [[[[[e r] pre] post] dev] l] [[[[[e' r'] pre'] post'] dev'] l'].
    apply (S (e, r, pre, post, dev, l) (e', r', pre', post', dev', l')).
  - intros [[[[[e r] pre] post] dev] l] [[[[[e' r'] pre'] post'] dev'] l']
      [[[[[e'' r''] pre''] post''] dev''] l''].
    apply (T (e, r, pre, post, dev, l) (e', r', pre', post', dev', l')
             (e'', r'', pre'', post'', dev'', l'')).
Qed.

(** [compare_versions] is the sign of the ordering of the two keys. *)
Lemma compare_versions_sign ver1 ver2 v1 v2 :
  Packaging.Version ver1 = Some v1 -> Packaging.Version ver2 = Some v2 ->
  compare_versions ver1 ver2
  = Return (sign (Packaging.cmp_key (Packaging._cmpkey v1) (Packaging._cmpkey v2))).
Proof.
  intros H1 H2. unfold compare_versions, Packaging.parse. rewrite H1, H2. cbn [bind].
  unfold Packaging.lt, Packaging.gt.
  destruct (Packaging.cmp_key _ _); reflexivity.
Qed.

Lemma compare_versions_returns ver1 ver2 c :
  compare_versions ver1 ver2 = Return c ->
  exists v1 v2, Packaging.Version ver1 = Some v1 /\ Packaging.Version ver2 = Some v2.
Proof.
  unfold compare_versions, Packaging.parse.
  destruct (Packaging.Version ver1) as [v1|]; [|discriminate].
  destruct (Packaging.Version ver2) as [v2|]; [|discriminate]. eauto.
Qed.

Lemma version_meets_minimum_key a b v1 v2 :
  Packaging.Version a = Some v1 -> Packaging.Version b = Some v2 ->
  version_meets_minimum a b
  = Return (match Packaging.cmp_key (Packaging._cmpkey v1) (Packaging._cmpkey v2) with
            | Lt => false
            | _ => true
            end).
Proof.
  intros H1 H2. unfold version_meets_minimum.
  rewrite (compare_versions_sign _ _ _ _ H1 H2). cbn [bind].
  destruct (Packaging.cmp_key _ _); reflexivity.
Qed.

Lemma version_meets_minimum_returns a b r :
  version_meets_minimum a b = Return r ->
  exists v1 v2, Packaging.Version a = Some v1 /\ Packaging.Version b = Some v2.
Proof.
  unfold version_meets_minimum. destruct (compare_versions a b) eqn:E; [|discriminate].
  intros _. eapply compare_versions_returns, E.
Qed.

Lemma meets_trans a b c :
  version_meets_minimum a b = Return true -> version_meets_minimum b c = Return true ->
  version_meets_minimum a c = Return true.
Proof.
  intros Hab Hbc.
  destruct (version_meets_minimum_returns _ _ _ Hab) as (va & vb & Ha & Hb).
  destruct (version_meets_minimum_returns _ _ _ Hbc) as (vb' & vc & Hb' & Hc).
  rewrite Hb in Hb'. injection Hb' as <-.
  rewrite (version_meets_minimum_key _ _ _ _ Ha Hb) in Hab.
  rewrite (version_meets_minimum_key _ _ _ _ Hb Hc) in Hbc.
  rewrite (version_meets_minimum_key _ _ _ _ Ha Hc). f_equal.
  pose proof total_order_key as T.
  set (ka := Packaging._cmpkey va) in *. set (kb := Packaging._cmpkey vb) in *.
  set (kc := Packaging._cmpkey vc) in *.
  destruct (Packaging.cmp_key ka kc) eqn:Eac; try reflexivity. exfalso.
  destruct (Packaging.cmp_key ka kb) eqn:Eab; try discriminate.
  - apply (cmp_eq _ T) in Eab. rewrite <- Eab, Eac in Hbc. discriminate.
  - destruct (Packaging.cmp_key kb kc) eqn:Ebc; try discriminate.
    + apply (cmp_eq _ T) in Ebc. rewrite Ebc, Eac in Eab. discriminate.
    + assert (Hca : Packaging.cmp_key kc ka = Gt) by (rewrite (cmp_antisym _ T), Eac; reflexivity).
      assert (Hcb : Packaging.cmp_key kc kb = Lt) by (rewrite (cmp_antisym _ T), Ebc; reflexivity).
      assert (Hba : Packaging.cmp_key kb ka = Lt) by (rewrite (cmp_antisym _ T), Eab; reflexivity).
      rewrite (cmp_trans _ T _ _ _ Hcb Hba) in Hca. discriminate.
Qed.

(** X1. [compare_versions] is antisymmetric and reflexive: when it returns
    [c] for two strings it returns [-c] for the same strings swapped, and a
    string the parser accepts compares as equal to itself. *)
Theorem compare_versions_antisymmetric (ver1 ver2 : string) (c : Z) :
  compare_versions ver1 ver2 = Return c ->
  compare_versions ver2 ver1 = Return (- c)%Z
  /\ compare_versions ver1 ver1 = Return 0%Z.
Proof.
  intros H. destruct (compare_versions_returns _ _ _ H) as (v1 & v2 & H1 & H2).
  pose proof (compare_versions_sign _ _ _ _ H1 H2) as E. rewrite H in E.
  rewrite (compare_versions_sign _ _ _ _ H2 H1), (compare_versions_sign _ _ _ _ H1 H1).
  set (k1 := Packaging._cmpkey v1) in *. set (k2 := Packaging._cmpkey v2) in *.
  assert (Hc : c = sign (Packaging.cmp_key k1 k2)) by congruence. subst c.
  rewrite (cmp_antisym _ total_order_key k1 k2), (cmp_refl _ total_order_key).
  split; [|reflexivity]. destruct (Packaging.cmp_key k1 k2); reflexivity.
Qed.

Lemma compare_versions_antisymmetric_witness :
  compare_versions "528.33" "566.03" = Return (- 1)%Z
  /\ compare_versions "566.03" "566.03" = Return 0%Z.
Proof.
  apply (compare_versions_antisymmetric "566.03" "528.33" 1%Z).
  vm_compute. reflexivity.
Defined.

(** X2. Meeting a minimum is transitive: a version that meets [b], which
    in turn meets [c], meets [c]. *)
Theorem version_meets_minimum_transitive (a b c : string) :
  version_meets_minimum a b = Return true ->
  version_meets_minimum b c = Return true ->
  version_meets_minimum a c = Return true.
Proof. apply meets_trans. Qed.

Lemma version_meets_minimum_transitive_witness :
  version_meets_minimum "570.10" "528.33" = Return true.
Proof.
  apply (version_meets_minimum_transitive "570.10" "566.03" "528.33");
    vm_compute; reflexivity.
Defined.

(** ** Running commands *)

(** A command that is not sudo, outcome by outcome. *)
Lemma run_command_plain prog args timeout check w :
  is_sudo prog = false ->
  run_command (prog :: args) timeout check w
  = (w, if existsb has_nul (map arg_str (prog :: args)) then
          Raise (ValueError "embedded null byte")
        else
        match spawn w prog args with
        | inl ENOENT =>
            Raise (SubprocessError ("Command not found: " +:+ arg_str prog) None)
        | inl e => Raise (OSError e)
        | inr pr =>
            if timed_out timeout (secs pr) then
              Raise (SubprocessError
                       ("Command timed out after " +:+ str_opt (pretty <$> timeout)
                        +:+ " seconds: " +:+ join " " (map arg_str (prog :: args))) None)
            else
              match completed pr with
              | Raise e => Raise e
              | Return result =>
                  if check && negb (cp_returncode result =? 0)%Z then
                    Raise (SubprocessError
                             ("Command failed with exit code "
                              +:+ pretty (cp_returncode result)
                              +:+ ": " +:+ join " " (map arg_str (prog :: args)))
                             (Some (cp_returncode result)))
                  else Return (cp_returncode result, cp_stdout result, cp_stderr result)
              end
        end).
Proof.
  intros Hs. unfold run_command, try_except, bindM, subprocess_run.
  destruct (existsb has_nul (map arg_str (prog :: args))); [reflexivity|].
  rewrite Hs.
  destruct (spawn w prog args) as [e|pr].
  - destruct e; reflexivity.
  - destruct (timed_out timeout (secs pr)); [reflexivity|].
    unfold completed.
    destruct (stdout pr) as [reason|out]; [reflexivity|].
    destruct (stderr pr) as [reason|err]; [reflexivity|].
    cbn [cp_returncode cp_stdout cp_stderr].
    destruct (check && _); reflexivity.
Qed.

(** The run a call of [run_command] that returns has made: the program was
    started and ended in time, and both of its outputs were text. *)
Lemma run_command_plain_returns prog args timeout check w rc out err :
  is_sudo prog = false ->
  outcome (run_command (prog :: args) timeout check) w = Return (rc, out, err) ->
  exists pr,
    spawn w prog args = inr pr /\ timed_out timeout (secs pr) = false
    /\ returncode pr = rc /\ stdout pr = inr out /\ stderr pr = inr err
    /\ (check = true -> rc = 0%Z).
Proof.
  intros Hs. unfold outcome. rewrite (run_command_plain _ _ _ _ _ Hs). cbn [snd].
  destruct (existsb has_nul (map arg_str (prog :: args))); [discriminate|].
  destruct (spawn w prog args) as [e|pr]; [destruct e; discriminate|].
  destruct (timed_out timeout (secs pr)) eqn:Et; [discriminate|].
  unfold completed.
  destruct (stdout pr) as [reason|o] eqn:Eo; [discriminate|].
  destruct (stderr pr) as [reason|e] eqn:Ee; [discriminate|].
  cbn [cp_returncode cp_stdout cp_stderr].
  destruct check; cbn [andb].
  - destruct (returncode pr =? 0)%Z eqn:E; cbn [negb]; [|discriminate].
    intros [= <- <- <-]. apply Z.eqb_eq in E. exists pr. repeat split; auto.
  - intros [= <- <- <-]. exists pr. repeat split; auto. discriminate.
Qed.

(** X3. With [check=True], [run_command] never hands back a failure
    status: whatever the command, privileged or not, a call that returns
    has exit status 0. *)
Theorem run_command_check_returns_zero (command : list arg) (timeout : option nat)
    (w : World) (rc : Z) (out err : string) :
  outcome (run_command command timeout true) w = Return (rc, out, err) -> rc = 0%Z.
Proof.
  destruct command as [|prog args]; [discriminate|].
  destruct (is_sudo prog) eqn:Hs.
  - destruct prog as [s|p]; [|discriminate]. apply String.eqb_eq in Hs. subst s.
    intros H.
    destruct (run_command_sudo args timeout true w _ _ (run_pair _ w))
      as [(fs' & _ & _ & Hr)
         | [_ [(rc' & out' & err' & _ & _ & [=])
              | [(msg & code & Hr) | (e & Hr & _)]]]]; congruence.
  - intros H. destruct (run_command_plain_returns _ _ _ _ _ _ _ _ Hs H)
      as (pr & _ & _ & _ & _ & _ & Hrc). apply Hrc. reflexivity.
Qed.

Lemma run_command_check_returns_zero_witness :
  outcome (run_command [PathArg WINDOWS_NVIDIA_SMI_PATH] (Some NVIDIA_SMI_TIMEOUT) true)
    Examples.missing_world
  = Return (0%Z, "| NVIDIA-SMI 566.03    Driver Version: 566.03    CUDA Version: 12.7 |", "")
  /\ (0 = 0)%Z.
Proof.
  assert (H : outcome (run_command [PathArg WINDOWS_NVIDIA_SMI_PATH] (Some NVIDIA_SMI_TIMEOUT)
                         true) Examples.missing_world
              = Return (0%Z,
                        "| NVIDIA-SMI 566.03    Driver Version: 566.03    CUDA Version: 12.7 |",
                        "")) by (vm_compute; reflexivity).
  split; [exact H|].
  exact (run_command_check_returns_zero _ _ _ _ _ _ H).
Defined.

(** What [run_command] never lets out, and the return code of a
    [SubprocessError]. *)
Lemma run_command_escapes prog args timeout check w e :
  outcome (run_command (prog :: args) timeout check) w = Raise e ->
  e <> TimeoutExpired /\ e <> OSError ENOENT
  /\ forall msg rc, e = SubprocessError msg (Some rc) -> check = true /\ rc <> 0%Z.
Proof.
  assert (Hother : forall e0 : exn,
             e0 <> TimeoutExpired -> e0 <> OSError ENOENT ->
             (forall msg rc, e0 <> SubprocessError msg (Some rc)) ->
             Raise e0 = Raise e :> result (Z * string * string) ->
             e <> TimeoutExpired /\ e <> OSError ENOENT
             /\ forall msg rc, e = SubprocessError msg (Some rc) -> check = true /\ rc <> 0%Z).
  { intros e0 H1 H2 H3 [= <-]. split; [exact H1|]. split; [exact H2|].
    intros msg rc E. destruct (H3 _ _ E). }
  assert (Hfailed : forall m (rc0 : Z),
             check = true -> rc0 <> 0%Z ->
             Raise (SubprocessError m (Some rc0)) = Raise e :> result (Z * string * string) ->
             e <> TimeoutExpired /\ e <> OSError ENOENT
             /\ forall msg rc, e = SubprocessError msg (Some rc) -> check = true /\ rc <> 0%Z).
  { intros m rc0 Hc Hrc [= <-]. split; [discriminate|]. split; [discriminate|].
    intros msg rc [= _ <-]. auto. }
  destruct (is_sudo prog) eqn:Hs.
  - destruct prog as [s|p]; [|discriminate]. apply String.eqb_eq in Hs. subst s.
    unfold outcome, run_command, try_except, bindM, subprocess_run.
    destruct (existsb has_nul (map arg_str (Word "sudo" :: args)));
      [cbn; apply Hother; discriminate|].
    cbn [is_sudo]. rewrite String.eqb_refl.
    destruct (sudoers w args) as [n|c er|s complaint].
    + destruct n; cbn; apply Hother; discriminate.
    + destruct check; cbn; [|discriminate]. apply Hfailed; [reflexivity|discriminate].
    + destruct (timed_out timeout s); cbn.
      * apply Hother; discriminate.
      * destruct (coreutils (fs w) args); destruct check; cbn; try discriminate.
        apply Hfailed; [reflexivity|discriminate].
  - unfold outcome. rewrite (run_command_plain _ _ _ _ _ Hs). cbn [snd].
    destruct (existsb has_nul (map arg_str (prog :: args)));
      [apply Hother; discriminate|].
    destruct (spawn w prog args) as [n|pr].
    + destruct n; apply Hother; discriminate.
    + destruct (timed_out timeout (secs pr)); [apply Hother; discriminate|].
      unfold completed.
      destruct (stdout pr) as [reason|o]; [apply Hother; discriminate|].
      destruct (stderr pr) as [reason|er]; [apply Hother; discriminate|].
      cbn [cp_returncode cp_stdout cp_stderr].
      destruct check; cbn [andb]; [|discriminate].
      destruct (returncode pr =? 0)%Z eqn:E; cbn [negb]; [discriminate|].
      apply Hfailed; [reflexivity|]. apply Z.eqb_neq, E.
Qed.

(** X4. What [run_command] turns into [SubprocessError].  Whatever a call
    on a non-empty command raises, it is not the [TimeoutExpired] of
    [subprocess.run] (which the docstring lists under Raises) and not a
    [FileNotFoundError]: the two [except] clauses turn both into
    [SubprocessError].  A [SubprocessError] carries a return code only for
    a non-zero status that [check=True] rejected. *)
Theorem run_command_raises (prog : arg) (args : list arg) (timeout : option nat)
    (check : bool) (w : World) (e : exn) :
  outcome (run_command (prog :: args) timeout check) w = Raise e ->
  e <> TimeoutExpired /\ e <> OSError ENOENT
  /\ forall msg rc, e = SubprocessError msg (Some rc) -> check = true /\ rc <> 0%Z.
Proof. apply run_command_escapes. Qed.

Lemma run_command_raises_witness :
  let e := SubprocessError "Command not found: nvidia-smi" None in
  e <> TimeoutExpired /\ e <> OSError ENOENT
  /\ forall msg rc, e = SubprocessError msg (Some rc) -> false = true /\ rc <> 0%Z.
Proof.
  apply (run_command_raises (Word "nvidia-smi") [] (Some NVIDIA_SMI_TIMEOUT) false
           Examples.no_driver_world).
  vm_compute. reflexivity.
Defined.

(** ** Matches of the patterns the package uses *)

Lemma run_Chr {A} p s caps (k : list ascii -> Re.captures -> option A) x :
  Re.run (Re.Chr p) s caps k = Some x ->
  exists c s', s = c :: s' /\ p c = true /\ k s' caps = Some x.
Proof.
  simpl. destruct s as [|c s']; [discriminate|].
  destruct (p c) eqn:E; [|discriminate]. eauto.
Qed.

Lemma forallb_impl {A} (p q : A -> bool) (l : list A) :
  (forall c, p c = true -> q c = true) -> forallb p l = true -> forallb q l = true.
Proof.
  intros Hpq. induction l as [|c l IH]; simpl; [reflexivity|].
  intros H. apply andb_true_iff in H as [Hc Hl]. rewrite (Hpq c Hc), (IH Hl). reflexivity.
Qed.

(** A match of a pattern without groups consumes characters of the
    pattern's alphabet, at least one unless the pattern matches the empty
    text, and records nothing. *)
Lemma run_groupless (r : Re.regex) : forall A (s : list ascii) caps
    (k : list ascii -> Re.captures -> option A) x,
  groupless r = true ->
  Re.run r s caps k = Some x ->
  exists pre s',
    s = (pre ++ s')%list /\ forallb (Re.alphabet r) pre = true
    /\ (nullable r = false -> pre <> []) /\ k s' caps = Some x.
Proof.
  induction r as [|p|r1 IH1 r2 IH2|r1 IH1 r2 IH2|r1 IH1|nm r1 IH1];
    intros A s caps k x Hg; simpl in Hg |- *; try discriminate Hg.
  - intros H. exists [], s. auto.
  - destruct s as [|c s]; [discriminate|]. destruct (p c) eqn:E; [|discriminate].
    intros H. exists [c], s. simpl. rewrite E. repeat split; auto; discriminate.
  - apply andb_true_iff in Hg as [Hg1 Hg2]. intros H.
    apply IH1 in H as (pre1 & s1 & -> & F1 & N1 & H); [|exact Hg1].
    apply IH2 in H as (pre2 & s2 & -> & F2 & N2 & H); [|exact Hg2].
    exists (pre1 ++ pre2)%list, s2. rewrite <- app_assoc. repeat split; auto.
    + rewrite forallb_app. apply andb_true_iff. split.
      * apply (forallb_impl _ _ _ (fun c Hc => orb_true_intro _ _ (or_introl Hc)) F1).
      * apply (forallb_impl _ _ _ (fun c Hc => orb_true_intro _ _ (or_intror Hc)) F2).
    + intros Hn Happ. apply app_eq_nil in Happ as [-> ->].
      apply andb_false_iff in Hn as [Hn | Hn]; [apply N1 | apply N2]; auto.
  - apply andb_true_iff in Hg as [Hg1 Hg2].
    destruct (Re.run r1 s caps k) eqn:E.
    + intros [= ->]. apply IH1 in E as (pre & s' & -> & F & N & H); [|exact Hg1].
      exists pre, s'. repeat split; auto.
      * apply (forallb_impl _ _ _ (fun c Hc => orb_true_intro _ _ (or_introl Hc)) F).
      * intros Hn. apply orb_false_iff in Hn as [Hn _]. auto.
    + intros H. apply IH2 in H as (pre & s' & -> & F & N & H); [|exact Hg2].
      exists pre, s'. repeat split; auto.
      * apply (forallb_impl _ _ _ (fun c Hc => orb_true_intro _ _ (or_intror Hc)) F).
      * intros Hn. apply orb_false_iff in Hn as [_ Hn]. auto.
  - generalize (length s) as n. intros n. revert s.
    induction n as [|n IHn]; intros s.
    + intros H. exists [], s. repeat split; auto; discriminate.
    + destruct (Re.run r1 s caps _) eqn:E.
      * intros [= ->]. apply IH1 in E as (pre1 & s1 & -> & F1 & _ & H); [|exact Hg].
        destruct (length s1 <? length (pre1 ++ s1))%nat; [|discriminate].
        apply IHn in H as (pre2 & s2 & -> & F2 & _ & H).
        exists (pre1 ++ pre2)%list, s2. rewrite <- app_assoc.
        repeat split; auto; try discriminate.
        rewrite forallb_app. apply andb_true_iff. split; assumption.
      * intros H. exists [], s. repeat split; auto; discriminate.
Qed.

Lemma run_Star_Chr {A} p s caps (k : list ascii -> Re.captures -> option A) x :
  Re.run (Re.Star (Re.Chr p)) s caps k = Some x ->
  exists pre s', s = (pre ++ s')%list /\ forallb p pre = true /\ k s' caps = Some x.
Proof.
  intros H. apply run_groupless in H as (pre & s' & -> & F & _ & H); [|reflexivity].
  exists pre, s'. auto.
Qed.

Lemma run_Plus_Chr {A} p s caps (k : list ascii -> Re.captures -> option A) x :
  Re.run (Re.Plus (Re.Chr p)) s caps k = Some x ->
  exists c pre s', s = (c :: pre ++ s')%list /\ forallb p (c :: pre) = true
                   /\ k s' caps = Some x.
Proof.
  intros H. apply run_groupless in H as (pre & s' & -> & F & N & H); [|reflexivity].
  destruct pre as [|c pre]; [exfalso; apply N; reflexivity|].
  exists c, pre, s'. repeat split; auto.
  refine (forallb_impl _ _ _ _ F). intros a. simpl. rewrite orb_diag. trivial.
Qed.

(** A group around one or more characters of a class records exactly the
    characters it consumed. *)
Lemma run_Grp_Plus_Chr {A} name p s caps (k : list ascii -> Re.captures -> option A) x :
  Re.run (Re.Grp name (Re.Plus (Re.Chr p))) s caps k = Some x ->
  exists c pre s', s = (c :: pre ++ s')%list /\ forallb p (c :: pre) = true
                   /\ k s' ((name, c :: pre) :: caps) = Some x.
Proof.
  cbn [Re.run]. intros H.
  change (Re.run (Re.Plus (Re.Chr p)) s caps
            (fun s1 c1 => k s1 ((name, take (length s - length s1) s) :: c1)) = Some x) in H.
  apply run_Plus_Chr in H as (c & pre & s' & -> & Hp & H).
  exists c, pre, s'. repeat split; auto.
  replace (take _ _) with (c :: pre) in H; [exact H|].
  change (c :: pre ++ s')%list with ((c :: pre) ++ s')%list.
  rewrite length_app. replace (length (c :: pre) + length s' - length s')%nat
    with (length (c :: pre)) by lia.
  rewrite take_app_length. reflexivity.
Qed.

Lemma run_Seq_cons {A} r rs s caps (k : list ascii -> Re.captures -> option A) :
  Re.run (Re.Seq (r :: rs)) s caps k
  = Re.run r s caps (fun s1 c1 => Re.run (Re.Seq rs) s1 c1 k).
Proof. destruct rs; reflexivity. Qed.

(** A literal text matches itself and nothing else. *)
Lemma run_Text {A} l s caps (k : list ascii -> Re.captures -> option A) x :
  Re.run (Re.Text l) s caps k = Some x ->
  exists s', s = (list_ascii_of_string l ++ s')%list /\ k s' caps = Some x.
Proof.
  unfold Re.Text. generalize (list_ascii_of_string l) as cs. intros cs. revert s.
  induction cs as [|c cs IH]; intros s.
  - simpl. eauto.
  - cbn [map]. rewrite run_Seq_cons. intros H.
    apply run_Chr in H as (c' & s1 & -> & Hc & H).
    apply Ascii.eqb_eq in Hc. subst c'.
    apply IH in H as (s' & -> & H). eauto.
Qed.

Lemma search_from_run r s caps :
  Re.search_from r s = Some caps ->
  exists skipped rest,
    s = (skipped ++ rest)%list /\ Re.run r rest [] (fun _ c => Some c) = Some caps.
Proof.
  induction s as [|c s IH]; simpl.
  - destruct (Re.run r [] [] _) eqn:E; [|discriminate]. intros [= ->]. exists [], []. auto.
  - destruct (Re.run r (c :: s) [] _) eqn:E.
    + intros [= ->]. exists [], (c :: s). auto.
    + intros H. apply IH in H as (a & b & -> & H). exists (c :: a), b. auto.
Qed.

Lemma string_of_list_ascii_app (a b : list ascii) :
  string_of_list_ascii (a ++ b) = string_of_list_ascii a +:+ string_of_list_ascii b.
Proof. induction a as [|c a IH]; simpl; [reflexivity|]. rewrite IH. reflexivity. Qed.

Lemma string_app_assoc (a b c : string) : (a +:+ b) +:+ c = a +:+ b +:+ c.
Proof. induction a as [|x a IH]; [reflexivity|]. exact (f_equal (String x) IH). Qed.

Lemma list_ascii_of_string_app (a b : string) :
  list_ascii_of_string (a +:+ b) = (list_ascii_of_string a ++ list_ascii_of_string b)%list.
Proof. induction a as [|c a IH]; simpl; [reflexivity|]. rewrite IH. reflexivity. Qed.

(** What a successful search for a labelled version has found: the label,
    white space, and then the version, one or more digits and dots. *)
Lemma parse_labelled_spec label stdout v :
  parse_labelled label stdout = Some v ->
  exists before spaces after,
    stdout = before +:+ label +:+ spaces +:+ v +:+ after
    /\ forallb is_space (list_ascii_of_string spaces) = true
    /\ v <> "" /\ forallb version_digit (list_ascii_of_string v) = true.
Proof.
  unfold parse_labelled, Re.search.
  destruct (Re.search_from _ _) as [m|] eqn:E; [|discriminate].
  apply search_from_run in E as (a & b & Hs & E).
  unfold labelled_version in E. rewrite !run_Seq_cons in E.
  apply run_Text in E as (s1 & -> & E).
  apply run_Star_Chr in E as (sp & s2 & -> & Hsp & E).
  change (Re.run (Re.Grp "1" (Re.Plus (Re.Chr version_digit))) s2 [] (fun _ c => Some c)
          = Some m) in E.
  apply run_Grp_Plus_Chr in E as (c & pre & s3 & -> & Hv & E).
  injection E as <-. unfold group1. cbn. intros [= <-].
  exists (string_of_list_ascii a), (string_of_list_ascii sp), (string_of_list_ascii s3).
  rewrite !list_ascii_of_string_of_list_ascii. repeat split; auto.
  - rewrite <- (string_of_list_ascii_of_string stdout), Hs.
    rewrite <- (string_of_list_ascii_of_string label) at 2.
    change (String c (string_of_list_ascii pre)) with (string_of_list_ascii (c :: pre)).
    change (c :: pre ++ s3)%list with ((c :: pre) ++ s3)%list.
    rewrite !string_of_list_ascii_app. reflexivity.
  - change (String c (string_of_list_ascii pre)) with (string_of_list_ascii (c :: pre)).
    rewrite list_ascii_of_string_of_list_ascii. exact Hv.
Qed.

(** ** The queries of core/driver.py *)

Lemma completed_raises pr e :
  completed pr = Raise e -> exists reason, e = UnicodeDecodeError reason.
Proof.
  unfold completed. destruct (stdout pr) as [reason|out]; [intros [= <-]; eauto|].
  destruct (stderr pr) as [reason|err]; [intros [= <-]; eauto|discriminate].
Qed.

Lemma driver_query_run args what parse w :
  driver_query args what parse w
  = (w, bind (Path_exists w WINDOWS_NVIDIA_SMI_PATH) (fun present =>
          if present then
            if existsb has_nul (map arg_str (PathArg WINDOWS_NVIDIA_SMI_PATH :: args)) then
              Raise (ValueError "embedded null byte")
            else
            match spawn w (PathArg WINDOWS_NVIDIA_SMI_PATH) args with
            | inl ENOENT =>
                Raise (DriverError ("Failed to get " +:+ what +:+ ": Command not found: "
                                    +:+ Path_str WINDOWS_NVIDIA_SMI_PATH))
            | inl e => Raise (OSError e)
            | inr pr =>
                if timed_out (Some NVIDIA_SMI_TIMEOUT) (secs pr) then
                  Raise (DriverError
                           ("Failed to get " +:+ what +:+ ": Command timed out after "
                            +:+ str_opt (pretty <$> Some NVIDIA_SMI_TIMEOUT) +:+ " seconds: "
                            +:+ join " "
                                  (map arg_str (PathArg WINDOWS_NVIDIA_SMI_PATH :: args))))
                else
                  bind (completed pr) (fun result =>
                    if negb (cp_returncode result =? 0)%Z then
                      Raise (DriverError ("nvidia-smi failed: " +:+ cp_stderr result))
                    else Return (parse (cp_stdout result)))
            end
          else Return None)).
Proof.
  unfold driver_query. rewrite bindM_lift.
  destruct (Path_exists w WINDOWS_NVIDIA_SMI_PATH) as [[|]|e]; cbn [bind]; mred;
    [|reflexivity|reflexivity].
  unfold try_except, bindM. rewrite run_command_plain by reflexivity.
  destruct (existsb has_nul (map arg_str (PathArg WINDOWS_NVIDIA_SMI_PATH :: args)));
    [reflexivity|].
  destruct (spawn w (PathArg WINDOWS_NVIDIA_SMI_PATH) args) as [n|pr].
  - destruct n; reflexivity.
  - destruct (timed_out _ _); [reflexivity|]. cbn [andb].
    destruct (completed pr) as [result|e] eqn:Ec.
    2:{ apply completed_raises in Ec as [reason ->]. reflexivity. }
    cbn [bind]. destruct (negb (cp_returncode result =? 0)%Z); reflexivity.
Qed.

Lemma labelled_query_shape label what w :
  (present <- lift (fun w => Path_exists w WINDOWS_NVIDIA_SMI_PATH) ;;
   if negb present then ret None
   else
     try_except
       ('(returncode, stdout, stderr) <-
          run_command [PathArg WINDOWS_NVIDIA_SMI_PATH] (Some NVIDIA_SMI_TIMEOUT) false ;;
        if negb (returncode =? 0)%Z then raise (DriverError ("nvidia-smi failed: " +:+ stderr))
        else
          match Re.search (labelled_version label) stdout with
          | Some m => ret (group1 m)
          | None => ret None
          end)
       (fun e =>
          if is_SubprocessError e
          then Some (raise (DriverError ("Failed to get " +:+ what +:+ ": " +:+ exn_str e)))
          else None)) w
  = driver_query [] what (parse_labelled label) w.
Proof.
  unfold driver_query. rewrite !bindM_lift.
  destruct (Path_exists w WINDOWS_NVIDIA_SMI_PATH) as [[|]|e0]; mred; try reflexivity.
  unfold try_except, bindM. destruct (run_command _ _ _ w) as [w' [[[rc out] err]|e]]; [|reflexivity].
  destruct (negb (rc =? 0)%Z); [reflexivity|].
  unfold parse_labelled. destruct (Re.search _ out); reflexivity.
Qed.

Lemma get_driver_version_query w :
  get_driver_version w = driver_query [] "driver version" (parse_labelled "Driver Version:") w.
Proof. apply (labelled_query_shape "Driver Version:" "driver version"). Qed.

Lemma get_driver_cuda_version_query w :
  get_driver_cuda_version w
  = driver_query [] "CUDA version" (parse_labelled "CUDA Version:") w.
Proof. apply (labelled_query_shape "CUDA Version:" "CUDA version"). Qed.

Lemma get_gpu_name_query w :
  get_gpu_name w
  = driver_query [Word "--query-gpu=name"; Word "--format=csv,noheader"] "GPU name"
      parse_gpu_name w.
Proof. reflexivity. Qed.

(** Every query is one of the common shape. *)
Lemma driver_queries_shape query :
  query ∈ driver_queries ->
  exists args what parse, forall w, query w = driver_query args what parse w.
Proof.
  unfold driver_queries. rewrite !elem_of_cons, elem_of_nil.
  intros [-> | [-> | [-> | []]]]; do 3 eexists.
  - apply get_driver_version_query.
  - apply get_driver_cuda_version_query.
  - apply get_gpu_name_query.
Qed.

Lemma Path_exists_raises w p e :
  Path_exists w p = Raise e -> exists n, e = OSError n /\ _ignore_error n = false.
Proof.
  unfold Path_exists. destruct (stat_as_user w p) as [n|nd]; [|discriminate].
  destruct (_ignore_error n) eqn:E; [discriminate|]. intros [= <-]. eauto.
Qed.

Lemma driver_query_read_only args what parse w :
  after (driver_query args what parse) w = w
  /\ forall e, outcome (driver_query args what parse) w = Raise e -> wrapped e = false.
Proof.
  unfold after, outcome. rewrite driver_query_run. cbn [fst snd]. split; [reflexivity|].
  intros e. destruct (Path_exists w _) as [[|]|e0] eqn:Hex; cbn [bind]; [|discriminate|].
  - destruct (existsb has_nul _); [intros [= <-]; reflexivity|].
    destruct (spawn _ _ _) as [n|pr].
    + destruct n; intros [= <-]; reflexivity.
    + destruct (timed_out _ _); [intros [= <-]; reflexivity|].
      destruct (completed pr) as [result|e0] eqn:Ec; cbn [bind].
      * destruct (negb _); [intros [= <-]; reflexivity|discriminate].
      * apply completed_raises in Ec as [reason ->]. intros [= <-]. reflexivity.
  - apply Path_exists_raises in Hex as (n & -> & Hn). intros [= <-].
    destruct n; try reflexivity; discriminate.
Qed.

(** X5. The three queries [get_driver_version], [get_driver_cuda_version]
    and [get_gpu_name] only read: each leaves the world as it was.  None of
    them lets out what [run_command] or the [except] clause wraps: what a
    query raises is not a [SubprocessError], not the [TimeoutExpired] of
    [subprocess.run] and not a [FileNotFoundError]. *)
Theorem driver_queries_read_only :
  Forall (fun query : M (option string) =>
            forall w, after query w = w
                      /\ forall e, outcome query w = Raise e -> wrapped e = false)
    driver_queries.
Proof.
  apply Forall_forall. intros query Hq w.
  destruct (driver_queries_shape query Hq) as (args & what & parse & Heq).
  unfold after, outcome. rewrite Heq. apply driver_query_read_only.
Qed.

Lemma driver_query_returns args what parse w v :
  outcome (driver_query args what parse) w = Return (Some v) ->
  exists pr out,
    spawn w (PathArg WINDOWS_NVIDIA_SMI_PATH) args = inr pr
    /\ (secs pr < NVIDIA_SMI_TIMEOUT)%nat /\ returncode pr = 0%Z
    /\ stdout pr = inr out /\ parse out = Some v.
Proof.
  unfold outcome. rewrite driver_query_run. cbn [snd].
  destruct (Path_exists w _) as [[|]|e0]; cbn [bind]; [|discriminate|discriminate].
  destruct (existsb has_nul _); [discriminate|].
  destruct (spawn _ _ _) as [n|pr]; [destruct n; discriminate|].
  unfold timed_out. destruct (NVIDIA_SMI_TIMEOUT <=? secs pr)%nat eqn:Et; [discriminate|].
  unfold completed.
  destruct (stdout pr) as [reason|out] eqn:Eo; [discriminate|].
  destruct (stderr pr) as [reason|err] eqn:Ee; [discriminate|].
  cbn [bind cp_returncode cp_stdout cp_stderr].
  destruct (returncode pr =? 0)%Z eqn:Erc; [|discriminate]. cbn [negb].
  intros [= H]. exists pr, out. repeat split; auto.
  - apply Nat.leb_gt, Et.
  - apply Z.eqb_eq, Erc.
Qed.

(** X6. A version that [get_driver_version] or [get_driver_cuda_version]
    returns was printed by the Windows nvidia-smi: the program ran within
    the time limit with status 0, and its output holds the label ("Driver
    Version:" or "CUDA Version:"), white space, and then the version, which
    is not empty and consists of digits and dots. *)
Theorem reported_version_is_printed :
  Forall (fun '(label, query) =>
            forall (w : World) (v : string),
              outcome query w = Return (Some v) ->
              exists pr before spaces after,
                spawn w (PathArg WINDOWS_NVIDIA_SMI_PATH) [] = inr pr
                /\ (secs pr < NVIDIA_SMI_TIMEOUT)%nat /\ returncode pr = 0%Z
                /\ stdout pr = inr (before +:+ label +:+ spaces +:+ v +:+ after)
                /\ forallb is_space (list_ascii_of_string spaces) = true
                /\ v <> "" /\ forallb version_digit (list_ascii_of_string v) = true)
    version_queries.
Proof.
  unfold version_queries. constructor; [|constructor; [|constructor]].
  - intros w v. unfold outcome. rewrite get_driver_version_query. intros H.
    apply driver_query_returns in H as (pr & out & Hs & Ht & Hrc & Hout & Hp).
    apply parse_labelled_spec in Hp as (b & sp & a & Ho & Hsp & Hne & Hv).
    exists pr, b, sp, a. rewrite Hout, Ho. auto 10.
  - intros w v. unfold outcome. rewrite get_driver_cuda_version_query. intros H.
    apply driver_query_returns in H as (pr & out & Hs & Ht & Hrc & Hout & Hp).
    apply parse_labelled_spec in Hp as (b & sp & a & Ho & Hsp & Hne & Hv).
    exists pr, b, sp, a. rewrite Hout, Ho. auto 10.
Qed.

(** White space stripped from both ends. *)
Lemma lstrip_idem l : lstrip (lstrip l) = lstrip l.
Proof.
  induction l as [|c l IH]; simpl; [reflexivity|].
  destruct (is_space c) eqn:E; [exact IH|]. simpl. rewrite E. reflexivity.
Qed.

Lemma lstrip_snoc l c : is_space c = false -> lstrip (l ++ [c]) = (lstrip l ++ [c])%list.
Proof.
  intros Hc. induction l as [|a l IH]; simpl.
  - rewrite Hc. reflexivity.
  - destruct (is_space a); [exact IH|reflexivity].
Qed.

Lemma lstrip_head l : lstrip l = [] \/ exists c l', lstrip l = c :: l' /\ is_space c = false.
Proof.
  induction l as [|c l IH]; simpl; [left; reflexivity|].
  destruct (is_space c) eqn:E; [exact IH|]. right. eauto.
Qed.

Lemma strip_idem s : strip (strip s) = strip s.
Proof.
  unfold strip. rewrite list_ascii_of_string_of_list_ascii. f_equal.
  set (x := lstrip (list_ascii_of_string s)).
  assert (Hl : lstrip (rev (lstrip (rev x))) = rev (lstrip (rev x))).
  { destruct (lstrip_head (list_ascii_of_string s)) as [H | (c & l' & H & Hc)]; fold x in H.
    - rewrite H. reflexivity.
    - rewrite H. simpl. rewrite (lstrip_snoc _ _ Hc), rev_app_distr. simpl.
      rewrite Hc. reflexivity. }
  rewrite Hl, rev_involutive, lstrip_idem. reflexivity.
Qed.

(** X7. A name that [get_gpu_name] returns is the output of the name
    query, stripped: it is not empty and has no white space at either end.
    Output that is all white space gives [None]. *)
Theorem gpu_name_is_stripped (w : World) (g : string) :
  outcome get_gpu_name w = Return (Some g) ->
  g <> "" /\ strip g = g
  /\ exists pr,
       spawn w (PathArg WINDOWS_NVIDIA_SMI_PATH)
         [Word "--query-gpu=name"; Word "--format=csv,noheader"] = inr pr
       /\ returncode pr = 0%Z /\ exists out, stdout pr = inr out /\ g = strip out.
Proof.
  unfold outcome. rewrite get_gpu_name_query. intros H.
  apply driver_query_returns in H as (pr & out & Hs & Ht & Hrc & Hout & Hp).
  unfold parse_gpu_name in Hp.
  destruct (String.eqb (strip out) "") eqn:E; [discriminate|].
  injection Hp as <-. apply String.eqb_neq in E.
  split; [exact E|]. split; [apply strip_idem|]. eauto 10.
Qed.

Lemma gpu_name_is_stripped_witness :
  "NVIDIA GeForce RTX 4090" <> "" /\ strip "NVIDIA GeForce RTX 4090" = "NVIDIA GeForce RTX 4090"
  /\ exists pr,
       spawn Scenarios.padded_world (PathArg WINDOWS_NVIDIA_SMI_PATH)
         [Word "--query-gpu=name"; Word "--format=csv,noheader"] = inr pr
       /\ returncode pr = 0%Z
       /\ exists out, stdout pr = inr out /\ "NVIDIA GeForce RTX 4090" = strip out.
Proof.
  apply (gpu_name_is_stripped Scenarios.padded_world). vm_compute. reflexivity.
Defined.

(** X8. An error of the operating system at the start of the Windows
    nvidia-smi, other than a missing file, is not turned into
    [DriverError]: when the binary exists but the kernel refuses to run it
    (it is not executable, say), [get_driver_version] raises that
    [OSError] itself, and so does [check_driver_compatibility]. *)
Theorem start_error_is_not_wrapped (w : World) (n : errno) :
  Path_exists w WINDOWS_NVIDIA_SMI_PATH = Return true ->
  execve w WINDOWS_NVIDIA_SMI_PATH [] = inl n -> is_ENOENT n = false ->
  get_driver_version w = (w, Raise (OSError n))
  /\ check_driver_compatibility w = (w, Raise (OSError n)).
Proof.
  intros Hex Hx Hn.
  assert (Hg : get_driver_version w = (w, Raise (OSError n))).
  { rewrite get_driver_version_query, driver_query_run, Hex. cbn [bind].
    change (existsb has_nul (map arg_str [PathArg WINDOWS_NVIDIA_SMI_PATH])) with false.
    cbv iota. unfold spawn. cbn [map]. rewrite Hx. destruct n; try reflexivity. discriminate. }
  split; [exact Hg|].
  unfold check_driver_compatibility. rewrite bindM_lift, Hex. mred.
  unfold bindM. rewrite Hg. reflexivity.
Qed.

Lemma start_error_is_not_wrapped_witness :
  get_driver_version Scenarios.locked_world = (Scenarios.locked_world, Raise (OSError EACCES))
  /\ check_driver_compatibility Scenarios.locked_world
     = (Scenarios.locked_world, Raise (OSError EACCES)).
Proof.
  apply (start_error_is_not_wrapped Scenarios.locked_world EACCES); vm_compute; reflexivity.
Defined.

(** ** The verdict on the driver *)

Lemma driver_query_pair query w : query ∈ driver_queries -> query w = (w, outcome query w).
Proof.
  intros Hq. destruct (driver_queries_shape query Hq) as (args & what & parse & Heq).
  unfold outcome. rewrite Heq, driver_query_run. reflexivity.
Qed.

Lemma get_driver_version_pair w : get_driver_version w = (w, outcome get_driver_version w).
Proof. apply driver_query_pair. unfold driver_queries. set_solver. Qed.

Lemma get_driver_cuda_version_pair w :
  get_driver_cuda_version w = (w, outcome get_driver_cuda_version w).
Proof. apply driver_query_pair. unfold driver_queries. set_solver. Qed.

Lemma get_gpu_name_pair w : get_gpu_name w = (w, outcome get_gpu_name w).
Proof. apply driver_query_pair. unfold driver_queries. set_solver. Qed.

Lemma driver_query_raises query w e :
  query ∈ driver_queries -> outcome query w = Raise e -> wrapped e = false.
Proof.
  intros Hq. destruct (driver_queries_shape query Hq) as (args & what & parse & Heq).
  unfold outcome. rewrite Heq. apply driver_query_read_only.
Qed.

(** [check_driver_compatibility] where the Windows nvidia-smi exists. *)
Lemma check_driver_compatibility_run w :
  Path_exists w WINDOWS_NVIDIA_SMI_PATH = Return true ->
  check_driver_compatibility w
  = (w, bind (outcome get_driver_version w) (fun driver_ver =>
          match driver_ver with
          | None | Some "" => Raise (DriverError "Could not determine driver version")
          | Some driver_ver =>
              bind (outcome get_driver_cuda_version w) (fun cuda_ver =>
              bind (outcome get_gpu_name w) (fun gpu_name =>
              bind (version_meets_minimum driver_ver MIN_WINDOWS_DRIVER) (fun meets_min =>
                if meets_min then
                  bind (version_meets_minimum driver_ver RECOMMENDED_DRIVER) (fun meets_rec =>
                    Return (true,
                            if meets_rec then up_to_date driver_ver
                            else update_recommended driver_ver,
                            driver_info driver_ver cuda_ver gpu_name))
                else Return (false, too_old driver_ver,
                             driver_info driver_ver cuda_ver gpu_name))))
          end)).
Proof.
  intros Hex. unfold check_driver_compatibility. rewrite bindM_lift, Hex. mred.
  unfold bindM at 1. rewrite get_driver_version_pair.
  destruct (outcome get_driver_version w) as [[v|]|e]; try reflexivity.
  cbn [bind]. destruct v as [|c v]; [reflexivity|].
  unfold bindM at 1. rewrite get_driver_cuda_version_pair.
  destruct (outcome get_driver_cuda_version w) as [cuda|e]; [|reflexivity].
  unfold bindM at 1. rewrite get_gpu_name_pair.
  destruct (outcome get_gpu_name w) as [gpu|e]; [|reflexivity].
  cbn [bind]. unfold bindM at 1, lift at 1.
  destruct (version_meets_minimum (String c v) MIN_WINDOWS_DRIVER) as [[|]|e];
    try reflexivity.
  cbn [bind]. unfold bindM at 1, lift at 1.
  destruct (version_meets_minimum (String c v) RECOMMENDED_DRIVER) as [[|]|e]; reflexivity.
Qed.

Lemma version_meets_minimum_raises a b e :
  version_meets_minimum a b = Raise e -> exists msg, e = InvalidVersion msg.
Proof.
  unfold version_meets_minimum. destruct (compare_versions_total a b)
    as [(msg & -> & _) | (c & -> & _)]; cbn [bind]; [|discriminate].
  intros [= <-]. eauto.
Qed.

(** X9. [check_driver_compatibility] only reads: it leaves the world as
    it was, whatever its outcome.  It lets out nothing that [run_command]
    or the queries wrap: what it raises is not a [SubprocessError], not the
    [TimeoutExpired] of [subprocess.run] and not a [FileNotFoundError]. *)
Theorem check_driver_compatibility_read_only (w : World) :
  after check_driver_compatibility w = w
  /\ forall e, outcome check_driver_compatibility w = Raise e -> wrapped e = false.
Proof.
  destruct (Path_exists w WINDOWS_NVIDIA_SMI_PATH) as [[|]|e0] eqn:Hex.
  2:{ unfold after, outcome, check_driver_compatibility. rewrite bindM_lift, Hex.
      split; [reflexivity|discriminate]. }
  2:{ unfold after, outcome, check_driver_compatibility. rewrite bindM_lift, Hex.
      split; [reflexivity|]. cbn. intros e [= <-].
      apply Path_exists_raises in Hex as (n & -> & Hn).
      destruct n; try reflexivity; discriminate. }
  unfold after, outcome. rewrite (check_driver_compatibility_run w Hex). cbn [fst snd].
  split; [reflexivity|]. intros e.
  assert (Hq : forall query x, query ∈ driver_queries -> outcome query w = Raise x ->
                               wrapped x = false).
  { intros query x Hin Hx. exact (driver_query_raises query w x Hin Hx). }
  assert (Hm : forall a b x, version_meets_minimum a b = Raise x -> wrapped x = false).
  { intros a b x Hx. apply version_meets_minimum_raises in Hx as [msg ->]. reflexivity. }
  destruct (outcome get_driver_version w) as [[v|]|x] eqn:E1; cbn [bind].
  - destruct v as [|c v]; [intros [= <-]; reflexivity|].
    destruct (outcome get_driver_cuda_version w) as [cuda|x] eqn:E2; cbn [bind].
    2:{ intros [= <-]. eapply Hq; [|exact E2]. unfold driver_queries. set_solver. }
    destruct (outcome get_gpu_name w) as [gpu|x] eqn:E3; cbn [bind].
    2:{ intros [= <-]. eapply Hq; [|exact E3]. unfold driver_queries. set_solver. }
    destruct (version_meets_minimum (String c v) MIN_WINDOWS_DRIVER) as [[|]|x] eqn:E4;
      cbn [bind]; [|discriminate|intros [= <-]; eapply Hm, E4].
    destruct (version_meets_minimum (String c v) RECOMMENDED_DRIVER) as [b|x] eqn:E5;
      cbn [bind]; [discriminate|intros [= <-]; eapply Hm, E5].
  - intros [= <-]. reflexivity.
  - intros [= <-]. eapply Hq; [|exact E1]. unfold driver_queries. set_solver.
Qed.

Lemma recommended_meets_minimum :
  version_meets_minimum RECOMMENDED_DRIVER MIN_WINDOWS_DRIVER = Return true.
Proof. vm_compute. reflexivity. Qed.

(** X10. The verdict on a driver that was found is a three-way
    classification of its version [v] against the two thresholds.  When
    [check_driver_compatibility] returns where the Windows nvidia-smi
    exists, the verdict is whether [v] meets 528.33, the message is "up to
    date" exactly when [v] meets 566.03 (the verdict is then compatible),
    "but 566.03+ recommended" when it meets only 528.33, and "too old" when
    it meets neither; the dictionary holds [v], what the other two queries
    returned, and the thresholds. *)
Theorem check_driver_compatibility_verdict (w : World) :
  Path_exists w WINDOWS_NVIDIA_SMI_PATH = Return true ->
  raised (outcome check_driver_compatibility w) = false ->
  exists v cuda gpu compatible recommended,
    outcome get_driver_version w = Return (Some v)
    /\ outcome get_driver_cuda_version w = Return cuda
    /\ outcome get_gpu_name w = Return gpu
    /\ version_meets_minimum v MIN_WINDOWS_DRIVER = Return compatible
    /\ version_meets_minimum v RECOMMENDED_DRIVER = Return recommended
    /\ implb recommended compatible = true
    /\ outcome check_driver_compatibility w
       = Return (compatible,
                 (if recommended then up_to_date v
                  else if compatible then update_recommended v
                  else too_old v),
                 driver_info v cuda gpu).
Proof.
  intros Hex. unfold outcome at 1 5. rewrite (check_driver_compatibility_run w Hex). cbn [snd].
  destruct (outcome get_driver_version w) as [[v|]|x]; cbn [bind]; try discriminate.
  destruct v as [|c v]; [discriminate|]. set (ver := String c v).
  destruct (outcome get_driver_cuda_version w) as [cuda|x]; cbn [bind]; [|discriminate].
  destruct (outcome get_gpu_name w) as [gpu|x]; cbn [bind]; [|discriminate].
  destruct (version_meets_minimum ver MIN_WINDOWS_DRIVER) as [[|]|x] eqn:Emin;
    cbn [bind]; [| |discriminate].
  - destruct (version_meets_minimum ver RECOMMENDED_DRIVER) as [r|x] eqn:Erec;
      cbn [bind]; [|discriminate].
    intros _. exists ver, cuda, gpu, true, r. repeat split; auto; destruct r; reflexivity.
  - intros _. exists ver, cuda, gpu, false, false. repeat split; auto.
    destruct (version_meets_minimum ver RECOMMENDED_DRIVER) as [[|]|x] eqn:Erec.
    + pose proof (meets_trans _ _ _ Erec recommended_meets_minimum) as Hm.
      rewrite Emin in Hm. discriminate.
    + reflexivity.
    + exfalso.
      destruct (version_meets_minimum_returns _ _ _ Emin) as (v1 & v2 & H1 & _).
      destruct (version_meets_minimum_returns _ _ _ recommended_meets_minimum)
        as (vr & _ & Hr & _).
      rewrite (version_meets_minimum_key _ _ _ _ H1 Hr) in Erec. discriminate.
Qed.

Lemma check_driver_compatibility_verdict_witness :
  exists v cuda gpu compatible recommended,
    outcome get_driver_version Scenarios.old_world = Return (Some v)
    /\ outcome get_driver_cuda_version Scenarios.old_world = Return cuda
    /\ outcome get_gpu_name Scenarios.old_world = Return gpu
    /\ version_meets_minimum v MIN_WINDOWS_DRIVER = Return compatible
    /\ version_meets_minimum v RECOMMENDED_DRIVER = Return recommended
    /\ implb recommended compatible = true
    /\ outcome check_driver_compatibility Scenarios.old_world
       = Return (compatible,
                 (if recommended then up_to_date v
                  else if compatible then update_recommended v
                  else too_old v),
                 driver_info v cuda gpu).
Proof.
  apply (check_driver_compatibility_verdict Scenarios.old_world); vm_compute; reflexivity.
Defined.

(** [repr] of a text of digits and dots is the text between single
    quotes. *)
Lemma repr_char_plain c :
  version_digit c = true ->
  repr_char "039"%char c = String c "" /\ Ascii.eqb "039"%char c = false
  /\ Ascii.eqb "034"%char c = false.
Proof.
  destruct c as [[] [] [] [] [] [] [] []]; vm_compute; intros H;
    solve [discriminate H | repeat split].
Qed.

Lemma join_empty_cons x l : join "" (x :: l) = x +:+ join "" l.
Proof.
  destruct l as [|y l]; [|reflexivity]. cbn [join].
  induction x as [|c x IH]; [reflexivity|].
  change (String c x +:+ "") with (String c (x +:+ "")). f_equal. exact IH.
Qed.

Lemma repr_plain (s : string) :
  forallb version_digit (list_ascii_of_string s) = true ->
  repr s = "'" +:+ s +:+ "'".
Proof.
  intros H. unfold repr.
  assert (Hq : existsb (Ascii.eqb "039"%char) (list_ascii_of_string s) = false).
  { revert H. induction (list_ascii_of_string s) as [|c l IH]; [reflexivity|].
    cbn [forallb existsb]. intros [Hc Hl]%andb_prop.
    destruct (repr_char_plain c Hc) as (_ & -> & _). exact (IH Hl). }
  rewrite Hq. cbn [andb String.append]. cbv zeta. do 2 f_equal.
  revert H. clear Hq. induction s as [|c s IH]; [reflexivity|].
  cbn [list_ascii_of_string forallb map]. intros [Hc Hs]%andb_prop.
  destruct (repr_char_plain c Hc) as (-> & _ & _).
  rewrite join_empty_cons, (IH Hs). reflexivity.
Qed.

(** X11. A driver version that is not a PEP 440 version makes
    [check_driver_compatibility] raise the parser's [InvalidVersion], which
    is not a [DriverError]: when [get_driver_version] returns a text the
    parser rejects (digits and dots such as "566.03.") and the name query
    does not fail, the call raises [InvalidVersion] naming that text. *)
Theorem unparsable_driver_version_escapes (w : World) (v : string) :
  outcome get_driver_version w = Return (Some v) ->
  raised (outcome get_gpu_name w) = false ->
  Packaging.Version v = None ->
  check_driver_compatibility w
  = (w, Raise (InvalidVersion ("Invalid version: '" +:+ v +:+ "'"))).
Proof.
  intros Hv Hg Hp.
  assert (Hex : Path_exists w WINDOWS_NVIDIA_SMI_PATH = Return true).
  { revert Hv. unfold outcome. rewrite get_driver_version_query, driver_query_run. cbn [snd].
    destruct (Path_exists w _) as [[|]|e0]; [reflexivity|discriminate|discriminate]. }
  assert (Hprinted : v <> "" /\ forallb version_digit (list_ascii_of_string v) = true).
  { revert Hv. unfold outcome. rewrite get_driver_version_query. intros Hv.
    apply driver_query_returns in Hv as (pr & out & _ & _ & _ & _ & Hparse).
    apply parse_labelled_spec in Hparse as (b & sp & a & _ & _ & Hne & Hd). auto. }
  destruct Hprinted as [Hne Hd].
  assert (Hc : exists cuda, outcome get_driver_cuda_version w = Return cuda).
  { revert Hv. unfold outcome.
    rewrite get_driver_version_query, get_driver_cuda_version_query, !driver_query_run.
    cbn [snd]. rewrite Hex. cbn [bind].
    change (existsb has_nul (map arg_str [PathArg WINDOWS_NVIDIA_SMI_PATH])) with false.
    cbv iota.
    destruct (spawn _ _ _) as [n|pr]; [destruct n; discriminate|].
    destruct (timed_out _ _); [discriminate|].
    destruct (completed pr) as [result|e0]; cbn [bind]; [|discriminate].
    destruct (negb _); [discriminate|]. eauto. }
  destruct Hc as [cuda Hc].
  rewrite (check_driver_compatibility_run w Hex), Hv, Hc. cbn [bind].
  destruct v as [|c v]; [contradiction|].
  destruct (outcome get_gpu_name w) as [gpu|x]; [|discriminate]. cbn [bind].
  unfold version_meets_minimum, compare_versions, Packaging.parse. rewrite Hp.
  rewrite (repr_plain _ Hd). reflexivity.
Qed.

Lemma unparsable_driver_version_escapes_witness :
  check_driver_compatibility Scenarios.dotted_world
  = (Scenarios.dotted_world, Raise (InvalidVersion "Invalid version: '566.03.'")).
Proof.
  apply (unparsable_driver_version_escapes Scenarios.dotted_world "566.03.");
    vm_compute; reflexivity.
Defined.
(** ** The probe *)

(** X12. What the probe answers.  [test_nvidia_smi] returns [True]
    exactly when the name of the program (the given path, or [nvidia-smi]
    found through PATH) holds no NUL byte and the program starts, exits in
    less than the three seconds of the time limit, has written text to both
    of its outputs and has status 0.  A name that [subprocess.run] refuses, a
    program that cannot be started, a timeout, output that cannot be decoded
    and a non-zero status all give [False]; the probe never raises and
    leaves the world as it was. *)
Theorem test_nvidia_smi_answer (nvidia_smi_path : option path) (w : World) :
  test_nvidia_smi nvidia_smi_path w
  = (w, Return (negb (has_nul (arg_str (probe_program nvidia_smi_path)))
                && match spawn w (probe_program nvidia_smi_path) [] with
                   | inr pr =>
                       (secs pr <? NVIDIA_SMI_TIMEOUT)%nat
                       && is_text (stdout pr) && is_text (stderr pr)
                       && (returncode pr =? 0)%Z
                   | inl _ => false
                   end)).
Proof.
  unfold test_nvidia_smi, try_except, bindM.
  replace (match nvidia_smi_path with Some p => [PathArg p] | None => [Word "nvidia-smi"] end)
    with [probe_program nvidia_smi_path] by (destruct nvidia_smi_path; reflexivity).
  rewrite run_command_plain by (destruct nvidia_smi_path; reflexivity).
  cbn [map existsb]. rewrite orb_false_r.
  destruct (has_nul (arg_str (probe_program nvidia_smi_path))); [reflexivity|].
  cbn [negb andb].
  destruct (spawn w _ _) as [n|pr].
  - destruct n; reflexivity.
  - unfold timed_out. rewrite Nat.ltb_antisym.
    destruct (NVIDIA_SMI_TIMEOUT <=? secs pr)%nat; [reflexivity|].
    unfold completed.
    destruct (stdout pr) as [reason|out]; [reflexivity|].
    destruct (stderr pr) as [reason|err]; reflexivity.
Qed.

(** ** Exceptions of the repair *)

Lemma outcome_ask {A B} (f : World -> A) (k : A -> M B) w :
  outcome (bindM (ask f) k) w = outcome (k (f w)) w.
Proof. reflexivity. Qed.

Lemma outcome_bind {A B} (m : M A) (k : A -> M B) w :
  outcome (bindM m k) w
  = match outcome m w with
    | Return a => outcome (k a) (after m w)
    | Raise e => Raise e
    end.
Proof. unfold outcome, after, bindM. destruct (m w) as [w' [a|e]]; reflexivity. Qed.

Lemma after_bind {A B} (m : M A) (k : A -> M B) w :
  after (bindM m k) w
  = match outcome m w with
    | Return a => after (k a) (after m w)
    | Raise e => after m w
    end.
Proof. unfold outcome, after, bindM. destruct (m w) as [w' [a|e]]; reflexivity. Qed.

Lemma validate_path_safe_pair p allowed w :
  validate_path_safe p (Some allowed) w
  = (w, outcome (validate_path_safe p (Some allowed)) w).
Proof. unfold outcome. rewrite validate_path_safe_spec. reflexivity. Qed.

Lemma Path_is_symlink_raises w p e :
  Path_is_symlink w p = Raise e -> exists n, e = OSError n /\ _ignore_error n = false.
Proof.
  unfold Path_is_symlink. destruct (lstat_as_user w p) as [n|[| |]]; try discriminate.
  destruct (_ignore_error n) eqn:E; [discriminate|]. intros [= <-]. eauto.
Qed.

Lemma wrapped_not_ignored n : _ignore_error n = false -> wrapped (OSError n) = false.
Proof. destruct n; try reflexivity; discriminate. Qed.

(** How the property passes through the constructs of the code. *)
Lemma wraps_ret {A} (a : A) : wraps (ret a).
Proof. intros w e. discriminate. Qed.

Lemma wraps_raise {A} e : wrapped e = false -> wraps (raise (A := A) e).
Proof. intros H w e' [= <-]. exact H. Qed.

Lemma wraps_bind {A B} (m : M A) (k : A -> M B) :
  wraps m -> (forall a, wraps (k a)) -> wraps (bindM m k).
Proof.
  intros Hm Hk w e. rewrite outcome_bind.
  destruct (outcome m w) as [a|x] eqn:E.
  - apply Hk.
  - intros [= <-]. eapply Hm, E.
Qed.

Lemma wraps_ask {A} (f : World -> A) : wraps (ask f).
Proof. intros w e. discriminate. Qed.

Lemma wraps_exists p : wraps (lift (fun w => Path_exists w p)).
Proof.
  intros w e H. apply Path_exists_raises in H as (n & -> & Hn).
  apply wrapped_not_ignored, Hn.
Qed.

Lemma wraps_is_nvidia_smi_symlink : wraps is_nvidia_smi_symlink.
Proof.
  intros w e H. apply Path_is_symlink_raises in H as (n & -> & Hn).
  apply wrapped_not_ignored, Hn.
Qed.

Lemma wraps_test_nvidia_smi p : wraps (test_nvidia_smi p).
Proof. intros w e. unfold outcome. rewrite test_nvidia_smi_answer. discriminate. Qed.

Lemma wraps_validate_path_safe p allowed : wraps (validate_path_safe p (Some allowed)).
Proof. intros w e. unfold outcome. rewrite validate_path_safe_spec. discriminate. Qed.

Lemma wraps_get_nvidia_smi_target : wraps get_nvidia_smi_target.
Proof.
  intros w e. unfold outcome. rewrite get_nvidia_smi_target_run. cbn [snd].
  destruct (Path_is_symlink w WSL_NVIDIA_SMI_PATH) as [[|]|x] eqn:E; cbn [bind];
    try discriminate.
  intros [= <-]. apply Path_is_symlink_raises in E as (n & -> & Hn).
  apply wrapped_not_ignored, Hn.
Qed.

(** A privileged command in a [try] block that turns [SubprocessError]
    into [NvidiaSmiError]. *)
Lemma wraps_sudo_block {A} cmd timeout check (k : Z * string * string -> M A)
    (message : exn -> string) :
  (forall v, wraps (k v)) ->
  wraps (try_except (bindM (run_command (Word "sudo" :: cmd) timeout check) k)
           (fun e => if is_SubprocessError e
                     then Some (raise (NvidiaSmiError (message e)))
                     else None)).
Proof.
  intros Hk w e. unfold outcome, try_except, bindM.
  destruct (run_command (Word "sudo" :: cmd) timeout check w) as [w1 r1] eqn:E.
  apply run_command_sudo in E
    as [(fs' & _ & -> & ->)
       | [-> [(rc & out & err & -> & _ & _) | [(msg & code & ->) | (e0 & -> & Hw & Hns)]]]].
  - destruct (k (0%Z, "", "") (with_fs w fs')) as [w2 [a|e2]] eqn:E2; [discriminate|].
    pose proof (Hk _ _ e2 (f_equal snd E2)) as He. cbn [snd] in *.
    destruct e2; try discriminate He; cbn; intros [= <-]; try reflexivity; exact He.
  - destruct (k (rc, out, err) w) as [w2 [a|e2]] eqn:E2; [discriminate|].
    pose proof (Hk _ _ e2 (f_equal snd E2)) as He. cbn [snd] in *.
    destruct e2; try discriminate He; cbn; intros [= <-]; try reflexivity; exact He.
  - cbn. intros [= <-]. reflexivity.
  - cbn. rewrite Hns. intros [= <-]. exact Hw.
Qed.

Ltac wraps_step :=
  first
    [ apply wraps_ret
    | apply wraps_raise; reflexivity
    | apply wraps_ask
    | apply wraps_exists
    | apply wraps_is_nvidia_smi_symlink
    | apply wraps_test_nvidia_smi
    | apply wraps_validate_path_safe
    | apply wraps_get_nvidia_smi_target
    | apply wraps_sudo_block; intros [[? ?] ?]
    | apply wraps_bind; [|intros ?]
    | match goal with
      | |- wraps (if ?b then _ else _) => destruct b
      | |- wraps (match ?x with Some _ => _ | None => _ end) => destruct x
      | |- wraps (match ?x with inl _ => _ | inr _ => _ end) => destruct x
      | |- wraps (let '(_, _) := ?x in _) => destruct x
      end ].

Lemma backup_nvidia_smi_wraps : wraps backup_nvidia_smi.
Proof. unfold backup_nvidia_smi. repeat wraps_step. Qed.

Lemma create_nvidia_smi_symlink_wraps : wraps create_nvidia_smi_symlink.
Proof. unfold create_nvidia_smi_symlink. repeat wraps_step. Qed.

Lemma inspect_nvidia_smi_wraps : wraps inspect_nvidia_smi.
Proof.
  pose proof backup_nvidia_smi_wraps.
  unfold inspect_nvidia_smi. repeat (assumption || wraps_step).
Qed.

Lemma fix_nvidia_smi_wraps : wraps fix_nvidia_smi.
Proof.
  pose proof inspect_nvidia_smi_wraps. pose proof create_nvidia_smi_symlink_wraps.
  unfold fix_nvidia_smi, link_nvidia_smi. repeat (assumption || wraps_step).
Qed.

(** X13. No [SubprocessError] leaves the repair.  Whatever
    [fix_nvidia_smi], [backup_nvidia_smi] or [create_nvidia_smi_symlink]
    raises, it is not a [SubprocessError], not the [TimeoutExpired] of
    [subprocess.run] and not a [FileNotFoundError]: nothing of what
    [run_command] reports of a privileged command (a timeout, a status that
    [check=True] rejects, a sudo that is not installed) gets past the
    [except] clauses of the three functions. *)
Theorem repair_raises_no_SubprocessError (w : World) (e : exn) :
  outcome fix_nvidia_smi w = Raise e
  \/ outcome backup_nvidia_smi w = Raise e
  \/ outcome create_nvidia_smi_symlink w = Raise e ->
  wrapped e = false.
Proof.
  intros [H | [H | H]].
  - eapply fix_nvidia_smi_wraps, H.
  - eapply backup_nvidia_smi_wraps, H.
  - eapply create_nvidia_smi_symlink_wraps, H.
Qed.

Lemma repair_raises_no_SubprocessError_witness :
  wrapped (NvidiaSmiError "Failed to backup nvidia-smi: Read-only file system") = false.
Proof.
  apply (repair_raises_no_SubprocessError Examples.readonly_world).
  left. vm_compute. reflexivity.
Defined.

(** ** What the repair leaves alone *)

Local Open Scope list_scope.

Lemma is_prefix_true (p q : path) : is_prefix p q = true <-> exists k, q = (p ++ k)%list.
Proof. unfold is_prefix. rewrite bool_decide_eq_true. reflexivity. Qed.

Lemma is_prefix_false_ne (p q : path) : is_prefix p q = false -> q <> p.
Proof. intros H ->. rewrite is_prefix_refl in H. discriminate. Qed.

Lemma rename_frame fs0 (src dst p : path) :
  is_prefix src p = false -> is_prefix dst p = false -> rename fs0 src dst p = fs0 p.
Proof. intros H1 H2. unfold rename. rewrite H1, H2. reflexivity. Qed.

Lemma mv_frame fs0 (src dst : path) fs' (p : path) :
  mv fs0 src dst = Some fs' ->
  is_prefix src p = false -> is_prefix (mv_dest fs0 src dst) p = false ->
  fs' p = fs0 p.
Proof.
  intros H H1 H2. apply mv_rename in H as [-> _]. apply rename_frame; assumption.
Qed.

Lemma mkdir_p_frame todo : forall fs1 done fs2 (p : path),
  mkdir_p fs1 done todo = Some fs2 -> is_prefix p (done ++ todo)%list = false -> fs2 p = fs1 p.
Proof.
  induction todo as [|c todo IH]; intros fs1 done fs2 p; simpl.
  - intros [= ->]. reflexivity.
  - unfold lstat. intros H Hp.
    assert (Hp' : is_prefix p ((done ++ [c]) ++ todo)%list = false)
      by (rewrite <- app_assoc; exact Hp).
    destruct (fs1 (done ++ [c])%list) eqn:E.
    + destruct (is_dir fs1 _); [|discriminate]. apply (IH _ _ _ p H Hp').
    + rewrite (IH _ _ _ p H Hp'). apply fs_set_ne. intros ->.
      assert (Ht : is_prefix (done ++ [c])%list ((done ++ [c]) ++ todo)%list = true)
        by (apply is_prefix_true; eauto).
      congruence.
Qed.

(** Link creation where the local path is free. *)
Lemma create_frame w (p : path) :
  fs w WSL_NVIDIA_SMI_PATH = None ->
  p <> WSL_NVIDIA_SMI_PATH ->
  is_prefix p (parent WSL_NVIDIA_SMI_PATH) = false ->
  fs (after create_nvidia_smi_symlink w) p = fs w p.
Proof.
  intros Hfree H1 H2.
  assert (Hmk : forall fs1, fs1 = fs w \/ mkdir_p (fs w) [] (parent WSL_NVIDIA_SMI_PATH) = Some fs1 ->
                            fs1 p = fs w p).
  { intros fs1 [-> | H]; [reflexivity|]. eapply mkdir_p_frame; [exact H|exact H2]. }
  destruct (create_nvidia_smi_symlink_spec w _ _ (run_pair _ w))
    as (fs1 & Hfs1 & [(fs2 & _ & Hln & ->) | (_ & [-> | ->])]).
  - rewrite fs_with_fs.
    assert (Hfree1 : fs1 WSL_NVIDIA_SMI_PATH = None).
    { destruct Hfs1 as [-> | Hm]; [exact Hfree|].
      rewrite (mkdir_p_parent_entries _ _ _ Hm eq_refl). exact Hfree. }
    rewrite (ln_sf_other _ _ _ _ p Hln Hfree1 H1). auto.
  - reflexivity.
  - rewrite fs_with_fs. auto.
Qed.

(** The world a backup leaves: the same one, or the one after the move. *)
Lemma backup_nvidia_smi_after w :
  after backup_nvidia_smi w = w
  \/ exists fs', mv (fs w) WSL_NVIDIA_SMI_PATH (backup_path_at (now w)) = Some fs'
                 /\ after backup_nvidia_smi w = with_fs w fs'
                 /\ outcome backup_nvidia_smi w = Return (Some (backup_path_at (now w))).
Proof.
  destruct (Path_exists w WSL_NVIDIA_SMI_PATH) as [[|]|e] eqn:E1.
  2,3: left; unfold after, backup_nvidia_smi; rewrite bindM_lift, E1; reflexivity.
  destruct (Path_is_symlink w WSL_NVIDIA_SMI_PATH) as [[|]|e] eqn:E2.
  1,3: left; unfold after, backup_nvidia_smi, is_nvidia_smi_symlink;
       rewrite bindM_lift, E1; mred; rewrite bindM_lift, E2; reflexivity.
  destruct (backup_nvidia_smi_spec w _ _ (run_pair _ w) E1 E2)
    as [(_ & H & _) | [(fs' & Hmv & H & Hr) | (H & _)]]; eauto.
Qed.

Lemma backup_frame w (p : path) :
  is_prefix WSL_NVIDIA_SMI_PATH p = false ->
  is_prefix (mv_dest (fs w) WSL_NVIDIA_SMI_PATH (backup_path_at (now w))) p = false ->
  fs (after backup_nvidia_smi w) p = fs w p.
Proof.
  intros H1 H2. destruct (backup_nvidia_smi_after w) as [-> | (fs' & Hmv & -> & _)];
    [reflexivity|].
  rewrite fs_with_fs. eapply mv_frame; eassumption.
Qed.

Lemma after_test_nvidia_smi p w : after (test_nvidia_smi p) w = w.
Proof. unfold after. rewrite test_nvidia_smi_answer. reflexivity. Qed.

Lemma inspect_frame w (p : path) :
  is_prefix WSL_NVIDIA_SMI_PATH p = false ->
  is_prefix (mv_dest (fs w) WSL_NVIDIA_SMI_PATH (backup_path_at (now w))) p = false ->
  fs (after inspect_nvidia_smi w) p = fs w p.
Proof.
  intros H1 H2.
  destruct (denied w WSL_NVIDIA_SMI_PATH) eqn:Ha.
  { unfold after. rewrite (inspect_denied w Ha). reflexivity. }
  destruct (fs w WSL_NVIDIA_SMI_PATH) as [n|] eqn:E.
  2:{ unfold after. rewrite (inspect_missing w Ha E). reflexivity. }
  assert (Hreg : (forall t, n <> Symlink t) -> fs (after inspect_nvidia_smi w) p = fs w p).
  { intros Hn. unfold after at 1. rewrite (inspect_regular w n Ha E Hn).
    match goal with |- context [fst (bindM ?m ?k w)] =>
      change (fst (bindM m k w)) with (after (bindM m k) w) end.
    rewrite after_bind, after_test_nvidia_smi.
    destruct (outcome (test_nvidia_smi _) w) as [[|]|x]; try reflexivity.
    rewrite after_bind.
    destruct (outcome backup_nvidia_smi w); cbn [after ret fst]; apply backup_frame; assumption. }
  destruct n as [f|t|]; [apply Hreg; discriminate| |apply Hreg; discriminate].
  destruct (inspect_symlink w t _ _ Ha E (run_pair _ w)) as [(-> & _) | (-> & _)]; [reflexivity|].
  rewrite fs_with_fs. apply fs_set_ne, is_prefix_false_ne, H1.
Qed.

Lemma now_with_fs w fs' : now (with_fs w fs') = now w.
Proof. reflexivity. Qed.

Lemma after_fix_nvidia_smi w :
  after fix_nvidia_smi w
  = match Path_exists w WINDOWS_NVIDIA_SMI_PATH with
    | Return true =>
        match outcome inspect_nvidia_smi w with
        | Return (inr _) => after create_nvidia_smi_symlink (after inspect_nvidia_smi w)
        | _ => after inspect_nvidia_smi w
        end
    | _ => w
    end.
Proof.
  destruct (Path_exists w WINDOWS_NVIDIA_SMI_PATH) as [[|]|e] eqn:HH.
  2:{ unfold after. rewrite (fix_without_driver w HH). reflexivity. }
  2:{ unfold after. rewrite (fix_unseen_driver w e HH). reflexivity. }
  unfold after at 1. rewrite (fix_with_driver w HH).
  match goal with |- context [fst (bindM ?m ?k w)] =>
    change (fst (bindM m k w)) with (after (bindM m k) w) end.
  rewrite after_bind.
  destruct (outcome inspect_nvidia_smi w) as [[value|parts]|x]; try reflexivity.
  apply after_link.
Qed.

(** The name a backup takes is never the Windows binary or a directory
    above it. *)
Lemma mv_dest_off_windows fs0 d :
  is_prefix (mv_dest fs0 WSL_NVIDIA_SMI_PATH (backup_path_at d)) WINDOWS_NVIDIA_SMI_PATH
  = false.
Proof.
  unfold mv_dest. destruct (dir_at MAXSYMLINKS fs0 (backup_path_at d)) as [dir|].
  - destruct (is_prefix _ _) eqn:E; [|reflexivity]. exfalso.
    apply is_prefix_true in E as [k E].
    assert (Hin : "nvidia-smi" ∈ WINDOWS_NVIDIA_SMI_PATH).
    { rewrite E. change (name WSL_NVIDIA_SMI_PATH) with "nvidia-smi". set_solver. }
    unfold WINDOWS_NVIDIA_SMI_PATH in Hin.
    repeat (apply elem_of_cons in Hin as [Hin|Hin]; [discriminate|]).
    inversion Hin.
  - destruct (is_prefix _ _) eqn:E; [|reflexivity]. exfalso.
    apply is_prefix_true in E as [k E]. discriminate E.
Qed.

(** X14. The repair writes only where it is meant to.  A path that is
    neither the local nvidia-smi or something below it, nor the name the
    backup takes (the time-stamped backup path, or the entry [nvidia-smi]
    of the directory that path names) or something below it, nor a
    directory above the local path, holds after [fix_nvidia_smi] what it
    held before, whatever the outcome.  In particular the Windows binary the
    link points to is never touched. *)
Theorem fix_nvidia_smi_frame (w : World) :
  (forall p : path, repair_may_write w p = false -> fs (after fix_nvidia_smi w) p = fs w p)
  /\ fs (after fix_nvidia_smi w) WINDOWS_NVIDIA_SMI_PATH = fs w WINDOWS_NVIDIA_SMI_PATH.
Proof.
  assert (H : forall p : path, repair_may_write w p = false ->
                               fs (after fix_nvidia_smi w) p = fs w p).
  { intros p Hp. unfold repair_may_write in Hp.
    apply orb_false_iff in Hp as [Hp H3]. apply orb_false_iff in Hp as [H1 H2].
    rewrite after_fix_nvidia_smi.
    destruct (Path_exists w WINDOWS_NVIDIA_SMI_PATH) as [[|]|e0]; try reflexivity.
    destruct (outcome inspect_nvidia_smi w) as [[value|parts]|x] eqn:Hi;
      try (apply inspect_frame; assumption).
    rewrite create_frame; [apply inspect_frame; assumption| | |exact H3].
    - eapply inspect_leaves_nothing, Hi.
    - apply is_prefix_false_ne, H1. }
  split; [exact H|]. apply H. unfold repair_may_write.
  rewrite mv_dest_off_windows. reflexivity.
Qed.

(** No step of the repair changes who may reach what. *)
Lemma after_backup_denied w : denied (after backup_nvidia_smi w) = denied w.
Proof.
  destruct (backup_nvidia_smi_after w) as [-> | (fs' & _ & -> & _)]; reflexivity.
Qed.

Lemma after_inspect_denied w : denied (after inspect_nvidia_smi w) = denied w.
Proof.
  destruct (denied w WSL_NVIDIA_SMI_PATH) eqn:Ha.
  { unfold after. rewrite (inspect_denied w Ha). reflexivity. }
  destruct (fs w WSL_NVIDIA_SMI_PATH) as [n|] eqn:E.
  2:{ unfold after. rewrite (inspect_missing w Ha E). reflexivity. }
  assert (Hreg : (forall t, n <> Symlink t) -> denied (after inspect_nvidia_smi w) = denied w).
  { intros Hn. unfold after at 1. rewrite (inspect_regular w n Ha E Hn).
    match goal with |- context [fst (bindM ?m ?k w)] =>
      change (fst (bindM m k w)) with (after (bindM m k) w) end.
    rewrite after_bind, after_test_nvidia_smi.
    destruct (outcome (test_nvidia_smi _) w) as [[|]|x]; try reflexivity.
    rewrite after_bind.
    destruct (outcome backup_nvidia_smi w); cbn [after ret fst]; apply after_backup_denied. }
  destruct n as [f|t|]; [apply Hreg; discriminate| |apply Hreg; discriminate].
  destruct (inspect_symlink w t _ _ Ha E (run_pair _ w)) as [(-> & _) | (-> & _)]; reflexivity.
Qed.

(** ** Success of the repair *)

(** The inspection of a link: with a working probe nothing is done; with a
    failing one the link is removed, or the removal raises. *)
Lemma inspect_symlink_cases w t :
  denied w WSL_NVIDIA_SMI_PATH = false ->
  fs w WSL_NVIDIA_SMI_PATH = Some (Symlink t) ->
  (outcome (test_nvidia_smi None) w = Return true
   /\ exists target,
        inspect_nvidia_smi w
        = (w, Return (inl (true, "nvidia-smi already working (symlink to "
                                 +:+ target +:+ ")"))))
  \/ (outcome (test_nvidia_smi None) w = Return false
      /\ (inspect_nvidia_smi w
          = (with_fs w (fs_set WSL_NVIDIA_SMI_PATH None (fs w)), Return (inr []))
          \/ exists e, inspect_nvidia_smi w = (w, Raise e))).
Proof.
  intros Ha H. destruct (outcome (test_nvidia_smi None) w) as [[|]|x] eqn:Et.
  - left. split; [reflexivity|]. eapply inspect_symlink_working; eassumption.
  - right. split; [reflexivity|].
    assert (Hc : forall w' r,
               inspect_nvidia_smi w = (w', r) ->
               (w' = with_fs w (fs_set WSL_NVIDIA_SMI_PATH None (fs w)) /\ r = Return (inr []))
               \/ (w' = w /\ exists e, r = Raise e)).
    { intros w' r. unfold inspect_nvidia_smi, is_nvidia_smi_symlink.
      pose proof (Path_is_symlink_allowed _ _ Ha) as Hs. rewrite H in Hs.
      rewrite bindM_lift, Hs. cbv beta iota.
      destruct (get_nvidia_smi_target_total w _ Hs) as [target Ht].
      unfold bindM at 1. unfold bindM at 1. rewrite Ht.
      unfold bindM at 1. rewrite test_nvidia_smi_outcome, Et.
      unfold try_except, bindM at 1.
      destruct (run_command _ _ _ w) as [w1 r1] eqn:E.
      apply run_command_sudo in E
        as [(fs' & Hc & -> & ->)
           | [-> [(rc & out & err & -> & Hrc & [=])
                | [(msg & code & ->) | (e0 & -> & _ & Hns)]]]].
      - apply rm_spec in Hc. subst fs'. unfold ret at 1. cbv beta iota.
        rewrite bindM_lift.
        rewrite Path_exists_absent; [|exact Ha|apply fs_set_eq].
        unfold ret. intros [= <- <-]. left. split; reflexivity.
      - simpl. unfold raise. intros [= <- <-]. right. split; [reflexivity|]. eauto.
      - rewrite Hns. intros [= <- <-]. right. split; [reflexivity|]. eauto. }
    destruct (Hc _ _ (run_pair _ w)) as [[Hw Hr] | [Hw [e Hr]]];
      rewrite (run_pair inspect_nvidia_smi w), Hw, Hr; eauto.
  - exfalso. unfold outcome in Et. rewrite test_nvidia_smi_answer in Et. discriminate.
Qed.

(** An inspection that ends the repair early found a working nvidia-smi
    and changed nothing. *)
Lemma inspect_early w value :
  outcome inspect_nvidia_smi w = Return (inl value) ->
  after inspect_nvidia_smi w = w /\ fst value = true
  /\ ((Path_is_symlink w WSL_NVIDIA_SMI_PATH = Return true
       /\ outcome (test_nvidia_smi None) w = Return true)
      \/ (Path_is_symlink w WSL_NVIDIA_SMI_PATH = Return false
          /\ outcome (test_nvidia_smi (Some WSL_NVIDIA_SMI_PATH)) w = Return true)).
Proof.
  intros Hout. pose proof (inspect_returns_allowed _ _ Hout) as Ha. revert Hout.
  destruct (fs w WSL_NVIDIA_SMI_PATH) as [n|] eqn:E.
  2:{ unfold outcome. rewrite (inspect_missing w Ha E). discriminate. }
  assert (Hreg : (forall t, n <> Symlink t) ->
                 outcome inspect_nvidia_smi w = Return (inl value) ->
                 after inspect_nvidia_smi w = w /\ fst value = true
                 /\ ((Path_is_symlink w WSL_NVIDIA_SMI_PATH = Return true
                      /\ outcome (test_nvidia_smi None) w = Return true)
                     \/ (Path_is_symlink w WSL_NVIDIA_SMI_PATH = Return false
                         /\ outcome (test_nvidia_smi (Some WSL_NVIDIA_SMI_PATH)) w
                            = Return true))).
  { intros Hn. unfold outcome at 1, after. rewrite (inspect_regular w n Ha E Hn).
    unfold bindM at 1 3. rewrite test_nvidia_smi_outcome.
    destruct (outcome (test_nvidia_smi (Some WSL_NVIDIA_SMI_PATH)) w) as [[|]|x];
      try discriminate.
    - cbn. intros [= <-]. repeat split. right.
      split; [eapply Path_is_symlink_node; eassumption|reflexivity].
    - unfold bindM. destruct (backup_nvidia_smi w) as [w1 [bp|x]]; discriminate. }
  destruct n as [f|t|]; [apply Hreg; discriminate| |apply Hreg; discriminate].
  unfold outcome at 1, after.
  destruct (inspect_symlink_cases w t Ha E) as [(Ht & target & ->) | (Ht & [-> | [x ->]])];
    try discriminate.
  cbn. intros [= <-]. repeat split. left.
  split; [rewrite (Path_is_symlink_allowed _ _ Ha), E; reflexivity|exact Ht].
Qed.

Lemma create_returns w b :
  outcome create_nvidia_smi_symlink w = Return b ->
  b = true /\ Path_exists w WINDOWS_NVIDIA_SMI_PATH = Return true.
Proof.
  intros H. split.
  - destruct (create_nvidia_smi_symlink_spec w _ _ (run_pair _ w))
      as (fs1 & _ & [(fs2 & Hr & _) | ((x & Hr) & _)]); congruence.
  - revert H. unfold outcome, create_nvidia_smi_symlink. rewrite bindM_lift.
    destruct (Path_exists w WINDOWS_NVIDIA_SMI_PATH) as [[|]|e];
      [reflexivity|discriminate|discriminate].
Qed.

(** The repair that goes on to link creation, when it returns. *)
Lemma fix_links w parts v :
  Path_exists w WINDOWS_NVIDIA_SMI_PATH = Return true ->
  outcome inspect_nvidia_smi w = Return (inr parts) ->
  outcome fix_nvidia_smi w = Return v ->
  let w1 := after fix_nvidia_smi w in
  fs w1 WSL_NVIDIA_SMI_PATH = Some (Symlink WINDOWS_NVIDIA_SMI_PATH)
  /\ denied w1 = denied w
  /\ Path_exists w1 WINDOWS_NVIDIA_SMI_PATH = Return true
  /\ outcome (test_nvidia_smi None) w1 = Return (fst v).
Proof.
  intros HH Hi Hv w1. subst w1. rewrite after_fix_nvidia_smi, HH, Hi.
  revert Hv. unfold outcome at 1. rewrite (fix_with_driver w HH).
  match goal with |- context [snd (bindM ?m ?k w)] =>
    change (snd (bindM m k w)) with (outcome (bindM m k) w) end.
  rewrite outcome_bind, Hi. set (wi := after inspect_nvidia_smi w).
  unfold link_nvidia_smi. rewrite outcome_bind.
  destruct (outcome create_nvidia_smi_symlink wi) as [b|x] eqn:Hc; [|discriminate].
  destruct (create_returns _ _ Hc) as [-> HHi].
  set (w1 := after create_nvidia_smi_symlink wi).
  rewrite outcome_bind. unfold outcome at 1, after. rewrite test_nvidia_smi_answer. cbn [fst snd].
  intros Hv.
  pose proof (inspect_leaves_nothing w _ Hi) as Habs. fold wi in Habs.
  destruct (create_from_absent wi Habs Hc) as (fs1 & Hext & Habs1 & _ & Hw1). fold w1 in Hw1.
  assert (Hd : denied w1 = denied w).
  { rewrite Hw1. cbn [denied with_fs]. subst wi. apply after_inspect_denied. }
  split; [rewrite Hw1, fs_with_fs; apply fs_set_eq|]. split; [exact Hd|]. split.
  - eapply Path_exists_extends; [| |exact HHi].
    + rewrite Hw1, fs_with_fs.
      eapply extends_trans; [exact Hext|]. apply extends_fs_set, Habs1.
    + rewrite Hw1. reflexivity.
  - unfold outcome. rewrite test_nvidia_smi_answer. cbn [snd].
    destruct (match spawn w1 _ _ with inr _ => _ | inl _ => _ end);
      injection Hv as <-; reflexivity.
Qed.

(** X15. A successful repair is stable.  Whatever the state it started
    from (missing, broken or working, file or link), once
    [fix_nvidia_smi] has returned success an immediate second call returns
    success again and leaves the world exactly as the first call left it:
    no second backup, no new link. *)
Theorem fix_nvidia_smi_success_is_stable (w : World) (msg : string) :
  outcome fix_nvidia_smi w = Return (true, msg) ->
  let w1 := after fix_nvidia_smi w in
  exists msg', fix_nvidia_smi w1 = (w1, Return (true, msg')).
Proof.
  intros Hout w1. subst w1.
  pose proof (fix_needs_driver w _ Hout) as HH.
  destruct (outcome inspect_nvidia_smi w) as [[value|parts]|x] eqn:Hi.
  - destruct (inspect_early w value Hi) as (Hw & _ & _).
    rewrite after_fix_nvidia_smi, HH, Hi, Hw.
    exists msg. rewrite (run_pair fix_nvidia_smi w), Hout. f_equal.
    rewrite after_fix_nvidia_smi, HH, Hi. exact Hw.
  - destruct (fix_links w parts _ HH Hi Hout) as (HL & Hd & HH1 & Ht). cbn [fst] in Ht.
    assert (Ha1 : denied (after fix_nvidia_smi w) WSL_NVIDIA_SMI_PATH = false).
    { rewrite Hd. eapply inspect_returns_allowed, Hi. }
    destruct (inspect_symlink_working _ _ Ha1 HL Ht) as [target Hi1].
    eexists. rewrite (fix_with_driver _ HH1), (bindM_return _ _ _ _ _ Hi1). reflexivity.
  - exfalso. revert Hout. unfold outcome at 1. rewrite (fix_with_driver w HH).
    match goal with |- context [snd (bindM ?m ?k w)] =>
      change (snd (bindM m k w)) with (outcome (bindM m k) w) end.
    rewrite outcome_bind, Hi. discriminate.
Qed.

Lemma fix_nvidia_smi_success_is_stable_witness :
  let w1 := after fix_nvidia_smi Examples.segfault_world in
  exists msg', fix_nvidia_smi w1 = (w1, Return (true, msg')).
Proof.
  apply (fix_nvidia_smi_success_is_stable Examples.segfault_world
           "Backed up old nvidia-smi to /usr/lib/wsl/lib/nvidia-smi.old.20240307_090502; Created symlink to /mnt/c/Windows/System32/nvidia-smi.exe; nvidia-smi is now working").
  vm_compute. reflexivity.
Defined.

(** X16. The success flag is truthful.  When [fix_nvidia_smi] returns
    success, a probe succeeds in the world it leaves: of the command
    [nvidia-smi] when the local path is a link, of the local path itself
    when it is not.  When it returns failure, the local path is a link to
    the Windows binary, the probe of the command fails, and the message is
    "Symlink created but nvidia-smi still not working". *)
Theorem fix_nvidia_smi_flag_is_truthful (w : World) (success : bool) (msg : string) :
  outcome fix_nvidia_smi w = Return (success, msg) ->
  let w1 := after fix_nvidia_smi w in
  if success then
    match Path_is_symlink w1 WSL_NVIDIA_SMI_PATH with
    | Return true => outcome (test_nvidia_smi None) w1 = Return true
    | Return false => outcome (test_nvidia_smi (Some WSL_NVIDIA_SMI_PATH)) w1 = Return true
    | Raise _ => False
    end
  else
    fs w1 WSL_NVIDIA_SMI_PATH = Some (Symlink WINDOWS_NVIDIA_SMI_PATH)
    /\ outcome (test_nvidia_smi None) w1 = Return false
    /\ msg = "Symlink created but nvidia-smi still not working".
Proof.
  intros Hout w1. subst w1.
  pose proof (fix_needs_driver w _ Hout) as HH.
  destruct (outcome inspect_nvidia_smi w) as [[value|parts]|x] eqn:Hi.
  - destruct (inspect_early w value Hi) as (Hw & Hv & Hp).
    assert (Hval : value = (success, msg)).
    { revert Hout. unfold outcome at 1. rewrite (fix_with_driver w HH).
      match goal with |- context [snd (bindM ?m ?k w)] =>
        change (snd (bindM m k w)) with (outcome (bindM m k) w) end.
      rewrite outcome_bind, Hi. cbn. congruence. }
    subst value. cbn [fst] in Hv. subst success.
    rewrite after_fix_nvidia_smi, HH, Hi, Hw.
    destruct Hp as [[-> Ht] | [-> Ht]]; exact Ht.
  - destruct (fix_links w parts _ HH Hi Hout) as (HL & Hd & _ & Ht). cbn [fst] in Ht.
    destruct success.
    + rewrite Path_is_symlink_allowed, HL; [exact Ht|].
      rewrite Hd. eapply inspect_returns_allowed, Hi.
    + repeat split; auto.
      revert Hout. unfold outcome at 1. rewrite (fix_with_driver w HH).
      match goal with |- context [snd (bindM ?m ?k w)] =>
        change (snd (bindM m k w)) with (outcome (bindM m k) w) end.
      rewrite outcome_bind, Hi. unfold link_nvidia_smi. rewrite outcome_bind.
      destruct (outcome create_nvidia_smi_symlink _) as [b|x]; [|discriminate].
      rewrite outcome_bind. rewrite after_fix_nvidia_smi, HH, Hi in Ht. rewrite Ht.
      cbn. congruence.
  - exfalso. revert Hout. unfold outcome at 1. rewrite (fix_with_driver w HH).
    match goal with |- context [snd (bindM ?m ?k w)] =>
      change (snd (bindM m k w)) with (outcome (bindM m k) w) end.
    rewrite outcome_bind, Hi. discriminate.
Qed.

Lemma fix_nvidia_smi_flag_is_truthful_witness :
  let w1 := after fix_nvidia_smi Examples.off_path_world in
  fs w1 WSL_NVIDIA_SMI_PATH = Some (Symlink WINDOWS_NVIDIA_SMI_PATH)
  /\ outcome (test_nvidia_smi None) w1 = Return false
  /\ "Symlink created but nvidia-smi still not working"
     = "Symlink created but nvidia-smi still not working".
Proof.
  apply (fix_nvidia_smi_flag_is_truthful Examples.off_path_world false).
  vm_compute. reflexivity.
Defined.

(** ** Backup and link creation on their own *)

(** X17. A backup never loses the binary.  [backup_nvidia_smi] returns
    [None] exactly when the local path is missing or a link ([exists()]
    answers [False], or [is_symlink()] answers [True]), and has then done
    nothing.  When it returns a path, that is the time-stamped backup path:
    nothing is stored under the local path any more, and the node that was
    there is stored under the name the backup takes (the backup path, or
    the entry [nvidia-smi] of the directory that path names). *)
Theorem backup_nvidia_smi_keeps_the_file (w : World) :
  let w' := after backup_nvidia_smi w in
  let backup_path := backup_path_at (now w) in
  (outcome backup_nvidia_smi w = Return None
   <-> Path_exists w WSL_NVIDIA_SMI_PATH = Return false
       \/ (Path_exists w WSL_NVIDIA_SMI_PATH = Return true
           /\ Path_is_symlink w WSL_NVIDIA_SMI_PATH = Return true))
  /\ (outcome backup_nvidia_smi w = Return None -> w' = w)
  /\ forall p,
       outcome backup_nvidia_smi w = Return (Some p) ->
       p = backup_path /\ fs w' WSL_NVIDIA_SMI_PATH = None
       /\ exists n, fs w WSL_NVIDIA_SMI_PATH = Some n
                    /\ fs w' (mv_dest (fs w) WSL_NVIDIA_SMI_PATH backup_path) = Some n.
Proof.
  intros w' backup_path. subst w' backup_path.
  destruct (Path_exists w WSL_NVIDIA_SMI_PATH) as [[|]|e] eqn:E1.
  2:{ unfold outcome, after, backup_nvidia_smi. rewrite bindM_lift, E1. cbn.
      split; [split; auto|]. split; [reflexivity|discriminate]. }
  2:{ unfold outcome, after, backup_nvidia_smi. rewrite bindM_lift, E1. cbn.
      split; [split; [discriminate|intros [H | [H _]]; discriminate]|].
      split; [reflexivity|discriminate]. }
  destruct (Path_is_symlink w WSL_NVIDIA_SMI_PATH) as [[|]|e] eqn:E2.
  1,3: unfold outcome, after, backup_nvidia_smi, is_nvidia_smi_symlink;
       rewrite bindM_lift, E1; mred; rewrite bindM_lift, E2; cbn.
  - split; [split; auto|]. split; [reflexivity|discriminate].
  - split; [split; [discriminate|intros [H | [_ H]]; discriminate]|].
    split; [reflexivity|discriminate].
  - destruct (backup_nvidia_smi_spec w _ _ (run_pair _ w) E1 E2)
      as [(_ & Hw & Hr) | [(fs' & Hmv & Hw & Hr) | (Hw & x & Hr)]]; rewrite Hr.
    + split; [split; [discriminate|intros [H | [_ H]]; discriminate]|].
      split; [exact (fun _ => Hw)|discriminate].
    + split; [split; [discriminate|intros [H | [_ H]]; discriminate]|].
      split; [discriminate|]. intros p [= <-]. split; [reflexivity|].
      rewrite Hw, fs_with_fs. split.
      * eapply mv_src_gone; [exact Hmv|reflexivity| |].
        -- intros Heq. symmetry in Heq. revert Heq. apply backup_path_fresh.
        -- cbn. intros Hin. repeat (apply elem_of_cons in Hin as [Hin|Hin]; [discriminate|]).
           inversion Hin.
      * pose proof Hmv as Hsrc. unfold mv, lstat in Hsrc.
        destruct (fs w WSL_NVIDIA_SMI_PATH) as [n|] eqn:En; [|discriminate].
        exists n. split; [reflexivity|].
        apply mv_rename in Hmv as [-> _]. rewrite rename_dst. exact En.
    + split; [split; [discriminate|intros [H | [_ H]]; discriminate]|].
      split; [exact (fun _ => Hw)|discriminate].
Qed.

(** X18. Link creation never returns [False], though its docstring
    promises that value for a link that could not be made: a call that
    returns has returned [True].  The Windows binary then exists, and a
    local path that was free or held a regular file is now a link to the
    Windows binary. *)
Theorem create_nvidia_smi_symlink_contract (w : World) (b : bool) :
  outcome create_nvidia_smi_symlink w = Return b ->
  let w' := after create_nvidia_smi_symlink w in
  b = true /\ Path_exists w WINDOWS_NVIDIA_SMI_PATH = Return true
  /\ (fs w WSL_NVIDIA_SMI_PATH = None \/ (exists f, fs w WSL_NVIDIA_SMI_PATH = Some (File f)) ->
      fs w' WSL_NVIDIA_SMI_PATH = Some (Symlink WINDOWS_NVIDIA_SMI_PATH)).
Proof.
  intros Ho w'. subst w'.
  destruct (create_returns w b Ho) as [-> HH]. split; [reflexivity|]. split; [exact HH|].
  intros Hstate.
  destruct (create_nvidia_smi_symlink_spec w _ _ (run_pair _ w))
    as (fs1 & H1 & [(fs2 & _ & Hln & ->) | ((x & Hx) & _)]); [|congruence].
  assert (HL : fs1 WSL_NVIDIA_SMI_PATH = fs w WSL_NVIDIA_SMI_PATH).
  { destruct H1 as [-> | H1]; [reflexivity|]. eapply mkdir_p_parent_entries; eauto. }
  rewrite fs_with_fs. revert Hln. unfold ln_sf.
  assert (Hnd : dir_at MAXSYMLINKS fs1 WSL_NVIDIA_SMI_PATH = None).
  { cbn [dir_at MAXSYMLINKS]. rewrite HL.
    destruct Hstate as [-> | [f ->]]; reflexivity. }
  rewrite Hnd. destruct (is_dir fs1 (parent WSL_NVIDIA_SMI_PATH)); [|discriminate].
  intros [= <-]. apply fs_set_eq.
Qed.

Lemma create_nvidia_smi_symlink_contract_witness :
  let w' := after create_nvidia_smi_symlink Examples.missing_world in
  true = true /\ Path_exists Examples.missing_world WINDOWS_NVIDIA_SMI_PATH = Return true
  /\ (fs Examples.missing_world WSL_NVIDIA_SMI_PATH = None
      \/ (exists f, fs Examples.missing_world WSL_NVIDIA_SMI_PATH = Some (File f)) ->
      fs w' WSL_NVIDIA_SMI_PATH = Some (Symlink WINDOWS_NVIDIA_SMI_PATH)).
Proof.
  apply (create_nvidia_smi_symlink_contract Examples.missing_world true).
  vm_compute. reflexivity.
Defined.

(** ** Path validation accepts what it should *)

Lemma realpath_mono n : forall fs0 resolved rest r m,
  realpath n fs0 resolved rest = Some r -> (n <= m)%nat ->
  realpath m fs0 resolved rest = Some r.
Proof.
  induction n as [|n IH]; intros fs0 resolved rest r m; simpl; [discriminate|].
  intros H Hm. destruct m as [|m]; [lia|]. simpl.
  destruct rest as [|c rest]; [exact H|].
  destruct (String.eqb c "" || String.eqb c "."); [apply IH; [exact H|lia]|].
  destruct (String.eqb c ".."); [apply IH; [exact H|lia]|].
  destruct (fs0 (resolved ++ [c])) as [[f|t|]|]; apply IH; (exact H || lia).
Qed.

(** Resolving a path and then one more plain name that is not a link. *)
Lemma realpath_snoc n : forall fs0 resolved rest r (x : string),
  realpath n fs0 resolved rest = Some r ->
  String.eqb x "" || String.eqb x "." = false -> String.eqb x ".." = false ->
  (forall t, fs0 (r ++ [x]) <> Some (Symlink t)) ->
  realpath (S n) fs0 resolved (rest ++ [x]) = Some (r ++ [x]).
Proof.
  induction n as [|n IH]; intros fs0 resolved rest r x; [discriminate|].
  intros H Hx1 Hx2 Hl. destruct rest as [|c rest].
  - simpl in H. injection H as <-. cbn [app]. change (realpath (S (S n)) fs0 resolved [x])
      with (if String.eqb x "" || String.eqb x "." then realpath (S n) fs0 resolved []
            else if String.eqb x ".." then realpath (S n) fs0 (removelast resolved) []
            else match fs0 (resolved ++ [x]) with
                 | Some (Symlink t) => realpath (S n) fs0 [] (t ++ [])
                 | _ => realpath (S n) fs0 (resolved ++ [x]) []
                 end).
    rewrite Hx1, Hx2.
    destruct (fs0 (resolved ++ [x])) as [[f|t|]|] eqn:E; try reflexivity.
    exfalso. eapply Hl. reflexivity.
  - change (realpath (S (S n)) fs0 resolved ((c :: rest) ++ [x]))
      with (if String.eqb c "" || String.eqb c "." then realpath (S n) fs0 resolved (rest ++ [x])
            else if String.eqb c ".." then realpath (S n) fs0 (removelast resolved) (rest ++ [x])
            else match fs0 (resolved ++ [c]) with
                 | Some (Symlink t) => realpath (S n) fs0 [] (t ++ rest ++ [x])
                 | _ => realpath (S n) fs0 (resolved ++ [c]) (rest ++ [x])
                 end).
    simpl in H.
    destruct (String.eqb c "" || String.eqb c "."); [apply IH; assumption|].
    destruct (String.eqb c ".."); [apply IH; assumption|].
    destruct (fs0 (resolved ++ [c])) as [[f|t|]|]; try (apply IH; assumption).
    rewrite app_assoc. apply IH; assumption.
Qed.

(** X19. The check has no false alarms for a plain name.  When the
    allowed directory resolves (with a step of the link expansion to
    spare), a path made of that directory and one more component that is
    not empty, [.] or [..] and does not name a symbolic link is accepted:
    [validate_path_safe] returns [True].  The time-stamped backup path is
    of that kind. *)
Theorem validate_path_safe_accepts_child (w : World) (allowed resolved : path)
    (x : string) (n : nat) :
  (n < REALPATH_FUEL)%nat ->
  realpath n (visible w) [] allowed = Some resolved ->
  existsb has_nul (allowed ++ [x]) = false ->
  x <> "" -> x <> "." -> x <> ".." ->
  (forall t, visible w (resolved ++ [x]) <> Some (Symlink t)) ->
  validate_path_safe (allowed ++ [x]) (Some allowed) w = (w, Return true).
Proof.
  intros Hn Hr Hnul H1 H2 H3 Hl.
  rewrite validate_path_safe_spec. f_equal. f_equal.
  assert (Hx1 : String.eqb x "" || String.eqb x "." = false).
  { apply orb_false_iff. split; apply String.eqb_neq; assumption. }
  assert (Hx2 : String.eqb x ".." = false) by (apply String.eqb_neq; assumption).
  assert (Ha : Path_resolve w allowed = Return resolved).
  { unfold Path_resolve. rewrite existsb_app in Hnul. apply orb_false_iff in Hnul as [-> _].
    rewrite (realpath_mono _ _ _ _ _ REALPATH_FUEL Hr) by lia. reflexivity. }
  assert (Hp : Path_resolve w (allowed ++ [x]) = Return (resolved ++ [x])).
  { unfold Path_resolve. rewrite Hnul.
    pose proof (realpath_snoc _ _ _ _ _ x Hr Hx1 Hx2 Hl) as Hs.
    rewrite (realpath_mono _ _ _ _ _ REALPATH_FUEL Hs) by lia. reflexivity. }
  rewrite Hp, Ha. unfold Path_is_relative_to. apply is_prefix_true. eauto.
Qed.

Lemma validate_path_safe_accepts_child_witness :
  validate_path_safe (parent WSL_NVIDIA_SMI_PATH ++ ["nvidia-smi.old.20240307_090502"])
    (Some (parent WSL_NVIDIA_SMI_PATH)) Examples.segfault_world
  = (Examples.segfault_world, Return true).
Proof.
  apply (validate_path_safe_accepts_child Examples.segfault_world
           (parent WSL_NVIDIA_SMI_PATH) (parent WSL_NVIDIA_SMI_PATH)
           "nvidia-smi.old.20240307_090502" 10).
  - vm_compute. lia.
  - vm_compute. reflexivity.
  - vm_compute. reflexivity.
  - discriminate.
  - discriminate.
  - discriminate.
  - intros t. vm_compute. discriminate.
Defined.

(** ** WSL2 detection and the system information *)

Lemma run_TextI_inv {A} l s caps (k : list ascii -> Re.captures -> option A) x :
  Re.run (Re.TextI l) s caps k = Some x ->
  exists found s', s = found ++ s' /\ lower_str found = lower_str (list_ascii_of_string l)
                   /\ k s' caps = Some x.
Proof.
  unfold Re.TextI. generalize (list_ascii_of_string l) as cs. intros cs. revert s.
  induction cs as [|c cs IH]; intros s.
  - simpl. intros H. exists [], s. auto.
  - cbn [map]. rewrite run_Seq_cons. intros H.
    apply run_Chr in H as (c' & s1 & -> & Hc & H).
    apply Ascii.eqb_eq in Hc.
    apply IH in H as (found & s' & -> & Hf & H).
    exists (c' :: found), s'. unfold lower_str in *. cbn [map]. rewrite Hc, Hf. auto.
Qed.

Lemma run_TextI_match {A} l found s' caps (k : list ascii -> Re.captures -> option A) :
  lower_str found = lower_str (list_ascii_of_string l) ->
  Re.run (Re.TextI l) (found ++ s') caps k = k s' caps.
Proof.
  unfold Re.TextI. generalize (list_ascii_of_string l) as cs. intros cs. revert found.
  induction cs as [|c cs IH]; intros [|c' found]; cbn [lower_str map]; try discriminate.
  - reflexivity.
  - intros [= Hc Hf]. rewrite run_Seq_cons. cbn [Re.run Re.LitI app].
    rewrite Hc, Ascii.eqb_refl. apply IH, Hf.
Qed.

Lemma search_from_finds r before s :
  is_Some (Re.run r s [] (fun _ c => Some c)) -> is_Some (Re.search_from r (before ++ s)).
Proof.
  intros H. induction before as [|c before IH].
  - destruct s; simpl; destruct (Re.run r _ [] _); eauto; destruct H; discriminate.
  - simpl. destruct (Re.run r (c :: before ++ s) [] _); eauto.
Qed.

(** The pattern of [is_wsl2] finds a match exactly in the texts that hold
    the letters wsl2 in some letter case. *)
Lemma WSL2_MARKER_occurs content :
  is_Some (Re.search WSL2_MARKER content) <-> occurs_ignoring_case "wsl2" content.
Proof.
  unfold Re.search, occurs_ignoring_case. split.
  - intros [caps H]. apply search_from_run in H as (a & b & Hs & H).
    unfold WSL2_MARKER in H. cbn [Re.run] in H.
    match type of H with
    | match ?m with Some _ => _ | None => _ end = _ => destruct m eqn:E1
    end.
    + change (Re.run (Re.Seq [Re.TextI "microsoft";
                              Re.Star (Re.Chr (fun c => negb (Ascii.eqb c "010"%char)));
                              Re.TextI "wsl2"]) b []
                (fun s1 c1 => Some (("1", take (length b - length s1) b) :: c1)) = Some c) in E1.
      rewrite !run_Seq_cons in E1.
      apply run_TextI_inv in E1 as (f1 & s1 & -> & _ & E1).
      apply run_Star_Chr in E1 as (pre & s2 & -> & _ & E1).
      change (Re.run (Re.TextI "wsl2") s2 []
                (fun s1 c1 => Some (("1", take (length (f1 ++ pre ++ s2) - length s1)
                                            (f1 ++ pre ++ s2)) :: c1)) = Some c) in E1.
      apply run_TextI_inv in E1 as (f2 & s3 & -> & Hf & _).
      exists (a ++ f1 ++ pre), f2, s3. split; [|exact Hf].
      rewrite Hs, <- !app_assoc. reflexivity.
    + change (Re.run (Re.TextI "wsl2") b []
                (fun s1 c1 => Some (("1", take (length b - length s1) b) :: c1)) = Some caps) in H.
      apply run_TextI_inv in H as (f2 & s3 & -> & Hf & _).
      exists a, f2, s3. split; [exact Hs|exact Hf].
  - intros (a & f & b & Hs & Hf). rewrite Hs. apply search_from_finds.
    unfold WSL2_MARKER. cbn [Re.run].
    match goal with
    | |- is_Some (match ?m with Some _ => _ | None => _ end) => destruct m; [eauto|]
    end.
    change (is_Some (Re.run (Re.TextI "wsl2") (f ++ b) []
                       (fun s1 c1 => Some (("1", take (length (f ++ b) - length s1) (f ++ b))
                                           :: c1)))).
    rewrite (run_TextI_match _ _ _ _ _ Hf). eauto.
Qed.

(** X20. The third signal of [is_wsl2] is the text wsl2 in any letter
    case: the pattern [(microsoft.*wsl2|wsl2)] under [re.IGNORECASE] finds
    a match in a text exactly when the text holds the four characters
    w, s, l, 2 in a row, upper or lower case.  The alternative that starts
    with microsoft adds nothing. *)
Theorem WSL2_MARKER_is_a_substring_test (content : string) :
  is_Some (Re.search WSL2_MARKER content)
  <-> exists before found after,
        list_ascii_of_string content = before ++ found ++ after
        /\ lower_str found = list_ascii_of_string "wsl2".
Proof. apply WSL2_MARKER_occurs. Qed.

Lemma Path_read_text_exists w p s :
  Path_read_text w p = Return s -> Path_exists w p = Return true.
Proof.
  unfold Path_read_text, Path_exists. destruct (stat_as_user w p); [discriminate|reflexivity].
Qed.

(** A read that fails on the way to the file fails with what [exists()]
    meets there. *)
Lemma Path_read_text_unseen w p :
  Path_exists w p <> Return true -> exists n, Path_read_text w p = Raise (OSError n).
Proof.
  unfold Path_read_text, Path_exists. destruct (stat_as_user w p) as [n|nd]; [eauto|].
  intros H. destruct H. reflexivity.
Qed.

Lemma get_kernel_version_run w :
  get_kernel_version w
  = (w, bind (Path_exists w PROC_VERSION_PATH) (fun present =>
          if present then
            match Path_read_text w PROC_VERSION_PATH with
            | Return content =>
                Return match Re.search KERNEL_VERSION content with
                       | Some m => default "" (group1 m)
                       | None => "Unknown"
                       end
            | Raise e => if is_OSError e then Return "Unknown" else Raise e
            end
          else Return "Unknown")).
Proof.
  unfold get_kernel_version. rewrite bindM_lift.
  destruct (Path_exists w PROC_VERSION_PATH) as [[|]|e0]; cbn [bind]; try reflexivity.
  unfold bindM at 1, try_except. rewrite bindM_lift.
  destruct (Path_read_text w PROC_VERSION_PATH) as [content|e].
  - destruct (Re.search KERNEL_VERSION content); reflexivity.
  - destruct (is_OSError e); reflexivity.
Qed.

(** What the search for the kernel version has found. *)
Lemma KERNEL_VERSION_spec content m :
  Re.search KERNEL_VERSION content = Some m ->
  exists before v after,
    group1 m = Some v
    /\ content = before +:+ "Linux version " +:+ v +:+ after
    /\ v <> "" /\ forallb (fun c => negb (is_space c)) (list_ascii_of_string v) = true.
Proof.
  unfold Re.search. intros E.
  apply search_from_run in E as (a & b & Hs & E).
  unfold KERNEL_VERSION in E. rewrite run_Seq_cons in E.
  apply run_Text in E as (s1 & -> & E).
  change (Re.run (Re.Grp "1" (Re.Plus (Re.Chr (fun c => negb (is_space c))))) s1 []
            (fun _ c => Some c) = Some m) in E.
  apply run_Grp_Plus_Chr in E as (c & pre & s3 & -> & Hv & E).
  injection E as <-.
  exists (string_of_list_ascii a), (string_of_list_ascii (c :: pre)), (string_of_list_ascii s3).
  rewrite list_ascii_of_string_of_list_ascii. repeat split; auto; try (cbn; discriminate).
  rewrite <- (string_of_list_ascii_of_string content), Hs.
  change (c :: pre ++ s3) with ((c :: pre) ++ s3).
  rewrite !string_of_list_ascii_app, string_of_list_ascii_of_string. reflexivity.
Qed.

(** *** Greedy matches *)

(** A run of characters of a class is taken whole when what follows does
    not belong to the class. *)
Lemma run_Star_Chr_greedy {A} p pre s' caps (k : list ascii -> Re.captures -> option A) x :
  forallb p pre = true ->
  match s' with [] => True | c :: _ => p c = false end ->
  k s' caps = Some x ->
  Re.run (Re.Star (Re.Chr p)) (pre ++ s') caps k = Some x.
Proof.
  intros Hpre Hstop Hk. cbn [Re.run].
  assert (Hlen : (length pre <= length (pre ++ s'))%nat) by (rewrite length_app; lia).
  revert Hlen. generalize (length (pre ++ s')) as n. intros n. revert pre Hpre.
  induction n as [|n IH]; intros pre Hpre Hlen.
  - destruct pre; [exact Hk|simpl in Hlen; lia].
  - destruct pre as [|c pre].
    + cbn [app]. destruct s' as [|c s'']; [exact Hk|]. rewrite Hstop. exact Hk.
    + cbn [forallb] in Hpre. apply andb_prop in Hpre as [Hc Hpre].
      cbn [app length]. rewrite Hc.
      rewrite (proj2 (Nat.ltb_lt _ _) (Nat.lt_succ_diag_r _)).
      rewrite IH; [reflexivity|exact Hpre|simpl in Hlen; lia].
Qed.

Lemma run_Grp_Plus_Chr_greedy {A} name p c pre s' caps
    (k : list ascii -> Re.captures -> option A) x :
  forallb p (c :: pre) = true ->
  match s' with [] => True | d :: _ => p d = false end ->
  k s' ((name, c :: pre) :: caps) = Some x ->
  Re.run (Re.Grp name (Re.Plus (Re.Chr p))) (c :: pre ++ s') caps k = Some x.
Proof.
  intros Hv Hstop Hk. cbn [forallb] in Hv. apply andb_prop in Hv as [Hc Hpre].
  change (Re.run (Re.Chr p) (c :: pre ++ s') caps
            (fun s1 c1 =>
               Re.run (Re.Star (Re.Chr p)) s1 c1
                 (fun s2 c2 =>
                    k s2 ((name, take (length (c :: pre ++ s') - length s2) (c :: pre ++ s'))
                          :: c2))) = Some x).
  cbn [Re.run]. rewrite Hc.
  apply (run_Star_Chr_greedy p pre s' caps _ x Hpre Hstop).
  replace (take _ _) with (c :: pre); [exact Hk|].
  change (c :: pre ++ s')%list with ((c :: pre) ++ s')%list.
  rewrite length_app. replace (length (c :: pre) + length s' - length s')%nat
    with (length (c :: pre)) by lia.
  rewrite take_app_length. reflexivity.
Qed.

Lemma run_Text_match {A} l s' caps (k : list ascii -> Re.captures -> option A) :
  Re.run (Re.Text l) (list_ascii_of_string l ++ s') caps k = k s' caps.
Proof.
  unfold Re.Text. generalize (list_ascii_of_string l) as cs. intros cs.
  induction cs as [|c cs IH]; [reflexivity|].
  cbn [map]. rewrite run_Seq_cons. cbn [Re.run Re.Lit app].
  rewrite Ascii.eqb_refl. exact IH.
Qed.

Lemma search_from_here r s caps :
  Re.run r s [] (fun _ c => Some c) = Some caps -> Re.search_from r s = Some caps.
Proof. intros H. destruct s; simpl; rewrite H; reflexivity. Qed.

Lemma ends_at_list stop after :
  ends_at stop after = true ->
  match list_ascii_of_string after with [] => True | c :: _ => negb (stop c) = false end.
Proof. destruct after as [|c after]; simpl; [trivial|]. intros ->. reflexivity. Qed.

(** The kernel version at the head of the text is found. *)
Lemma KERNEL_VERSION_found v after :
  v <> "" -> forallb (fun c => negb (is_space c)) (list_ascii_of_string v) = true ->
  ends_at is_space after = true ->
  exists m, Re.search KERNEL_VERSION ("Linux version " +:+ v +:+ after) = Some m
            /\ group1 m = Some v.
Proof.
  intros Hne Hv Hend. exists [("1", list_ascii_of_string v)]. split.
  - unfold Re.search. apply search_from_here.
    rewrite !list_ascii_of_string_app.
    unfold KERNEL_VERSION. rewrite run_Seq_cons, run_Text_match.
    change (Re.run (Re.Grp "1" (Re.Plus (Re.Chr (fun c => negb (is_space c)))))
              (list_ascii_of_string v ++ list_ascii_of_string after) []
              (fun _ c => Some c) = Some [("1", list_ascii_of_string v)]).
    destruct (list_ascii_of_string v) as [|c pre] eqn:E.
    { destruct v; [contradiction|discriminate]. }
    apply run_Grp_Plus_Chr_greedy; [exact Hv| |reflexivity].
    apply (ends_at_list is_space), Hend.
  - unfold group1. cbn. rewrite string_of_list_ascii_of_string. reflexivity.
Qed.

(** What an answer of [get_kernel_version] is. *)
Lemma get_kernel_version_returns w v :
  outcome get_kernel_version w = Return v ->
  v = "Unknown"
  \/ exists content before after,
       Path_read_text w PROC_VERSION_PATH = Return content
       /\ content = before +:+ "Linux version " +:+ v +:+ after
       /\ v <> ""
       /\ forallb (fun c => negb (is_space c)) (list_ascii_of_string v) = true.
Proof.
  unfold outcome. rewrite get_kernel_version_run. cbn [snd].
  destruct (Path_exists w PROC_VERSION_PATH) as [[|]|e0]; cbn [bind];
    [|intros [= <-]; left; reflexivity|discriminate].
  destruct (Path_read_text w PROC_VERSION_PATH) as [content|e].
  2:{ destruct (is_OSError e); [intros [= <-]; left; reflexivity|discriminate]. }
  destruct (Re.search KERNEL_VERSION content) as [m|] eqn:E;
    [|intros [= <-]; left; reflexivity].
  apply KERNEL_VERSION_spec in E as (before & v' & after & -> & Hc & Hne & Hv).
  cbn [default]. intros [= <-]. right. exists content, before, after. auto.
Qed.

(** X21. [get_kernel_version] reads the token after "Linux version".  It
    only reads.  An answer other than the word Unknown is a token of
    /proc/version that follows "Linux version ": it is not empty and holds
    no white space.  When /proc/version begins with "Linux version " and a
    token that white space or the end of the text ends, the answer is that
    token.  When [exists()] answers [False], or reading the file fails
    with an [OSError], the answer is Unknown.  Other failures are let out:
    an exception of [exists()], which stands outside the [try] block, and
    a [UnicodeDecodeError] of the read. *)
Theorem get_kernel_version_is_a_token (w : World) :
  after get_kernel_version w = w
  /\ (forall v, outcome get_kernel_version w = Return v ->
                v = "Unknown"
                \/ exists content before after,
                     Path_read_text w PROC_VERSION_PATH = Return content
                     /\ content = before +:+ "Linux version " +:+ v +:+ after
                     /\ v <> ""
                     /\ forallb (fun c => negb (is_space c)) (list_ascii_of_string v) = true)
  /\ (forall v after,
        Path_read_text w PROC_VERSION_PATH = Return ("Linux version " +:+ v +:+ after) ->
        v <> "" -> forallb (fun c => negb (is_space c)) (list_ascii_of_string v) = true ->
        ends_at is_space after = true ->
        outcome get_kernel_version w = Return v)
  /\ (Path_exists w PROC_VERSION_PATH = Return false
      \/ (Path_exists w PROC_VERSION_PATH = Return true
          /\ exists n, Path_read_text w PROC_VERSION_PATH = Raise (OSError n)) ->
      outcome get_kernel_version w = Return "Unknown")
  /\ (forall e, Path_exists w PROC_VERSION_PATH = Raise e
                \/ (Path_exists w PROC_VERSION_PATH = Return true
                    /\ Path_read_text w PROC_VERSION_PATH = Raise e /\ is_OSError e = false) ->
                outcome get_kernel_version w = Raise e).
Proof.
  split; [unfold after; rewrite get_kernel_version_run; reflexivity|].
  split; [exact (get_kernel_version_returns w)|].
  unfold outcome. rewrite get_kernel_version_run. cbn [snd].
  split; [|split].
  - intros v after Hr Hne Hv Hend.
    rewrite (Path_read_text_exists _ _ _ Hr), Hr. cbn [bind].
    destruct (KERNEL_VERSION_found v after Hne Hv Hend) as (m & -> & ->). reflexivity.
  - intros [-> | [-> [n ->]]]; reflexivity.
  - intros e [-> | (-> & -> & ->)]; reflexivity.
Qed.

Lemma occurs_ignoring_case_inside needle (before inner after : string) :
  occurs_ignoring_case needle inner ->
  occurs_ignoring_case needle (before +:+ inner +:+ after).
Proof.
  intros (a & f & b & Hs & Hf).
  exists (list_ascii_of_string before ++ a), f, (b ++ list_ascii_of_string after).
  split; [|exact Hf].
  rewrite !list_ascii_of_string_app, Hs, <- !app_assoc. reflexivity.
Qed.

(** X22. What the info command reports about the system agrees with the
    detection.  When [get_wsl_distro_name] returns a name other than the
    empty text and the word Unknown (the fall-back), [is_wsl2] returns
    [True]; and when the kernel version [get_kernel_version] returns
    mentions wsl2 in some letter case, [is_wsl2] does not return [False]:
    where it returns, it returns [True]. *)
Theorem system_information_agrees_with_detection (w : World) :
  (forall name, outcome get_wsl_distro_name w = Return name ->
                name <> "" -> name <> "Unknown" -> outcome is_wsl2 w = Return true)
  /\ (forall version, outcome get_kernel_version w = Return version ->
                      occurs_ignoring_case "wsl2" version ->
                      forall b, outcome is_wsl2 w = Return b -> b = true).
Proof.
  split.
  - unfold outcome. rewrite is_wsl2_run. cbn [snd get_wsl_distro_name ask].
    unfold signal_environment, truthy.
    destruct (environ w !! "WSL_DISTRO_NAME") as [s|]; cbn [default].
    + intros name [= <-] Hne _. apply String.eqb_neq in Hne. rewrite Hne. reflexivity.
    + intros name [= <-] _ Hu. contradiction.
  - intros version Hv Hocc b Hb.
    destruct (get_kernel_version_returns w version Hv)
      as [-> | (content & before & after & Hr & Hc & _)].
    + exfalso. apply WSL2_MARKER_occurs in Hocc. destruct Hocc as [caps Hcaps].
      vm_compute in Hcaps. discriminate.
    + assert (Hs : signal_kernel_version w = true).
      { unfold signal_kernel_version. rewrite Hr. apply bool_decide_eq_true.
        apply WSL2_MARKER_occurs. rewrite Hc.
        apply (occurs_ignoring_case_inside "wsl2" (before +:+ "Linux version ") version after)
          in Hocc.
        revert Hocc. clear. unfold occurs_ignoring_case.
        rewrite !list_ascii_of_string_app, <- !app_assoc. trivial. }
      rewrite (is_wsl2_any_signal w b Hb), Hs, !orb_true_r. reflexivity.
Qed.

(** ** The operating-system release *)

Lemma search_lines_from_run r : forall s line_start caps,
  search_lines_from r line_start s = Some caps ->
  exists skipped rest,
    s = skipped ++ rest
    /\ match rev skipped with
       | [] => line_start = true
       | c :: _ => c = "010"%char
       end
    /\ Re.run r rest [] (fun _ c => Some c) = Some caps.
Proof.
  induction s as [|c s IH]; intros line_start caps; simpl.
  - destruct line_start; [|discriminate].
    destruct (Re.run r [] [] _) eqn:E; [|discriminate]. intros [= ->].
    exists [], []. simpl. auto.
  - destruct (if line_start then Re.run r (c :: s) [] _ else None) eqn:E.
    + intros [= ->]. destruct line_start; [|discriminate]. exists [], (c :: s). simpl. auto.
    + intros H. apply IH in H as (a & b & -> & Hl & H). exists (c :: a), b.
      repeat split; auto. simpl. destruct (rev a) as [|x xs]; simpl.
      * apply Ascii.eqb_eq, Hl.
      * exact Hl.
Qed.

Lemma run_Opt_Lit {A} c s caps (k : list ascii -> Re.captures -> option A) x :
  Re.run (Re.Opt (Re.Lit c)) s caps k = Some x ->
  exists q s', s = q ++ s' /\ (q = [] \/ q = [c]) /\ k s' caps = Some x.
Proof.
  unfold Re.Opt, Re.Lit. cbn [Re.run].
  destruct s as [|c' s'].
  - intros H. exists [], []. auto.
  - destruct (Ascii.eqb c c') eqn:E.
    + destruct (k s' caps) eqn:Ek.
      * intros [= ->]. apply Ascii.eqb_eq in E. subst c'. exists [c], s'. auto.
      * intros H. exists [], (c' :: s'). auto.
    + intros H. exists [], (c' :: s'). auto.
Qed.

(** What the search for a field of os-release has found. *)
Lemma os_release_field_spec key content m :
  search_lines (os_release_field key) content = Some m ->
  exists before quote v after,
    group1 m = Some v
    /\ content = before +:+ key +:+ "=" +:+ quote +:+ v +:+ after
    /\ ends_line before = true
    /\ (quote = "" \/ quote = String "034" "")
    /\ v <> "" /\ forallb unquoted (list_ascii_of_string v) = true.
Proof.
  unfold search_lines. intros E.
  apply search_lines_from_run in E as (a & b & Hs & Hl & E).
  unfold os_release_field in E. rewrite run_Seq_cons in E.
  apply run_Text in E as (s1 & -> & E).
  change (Re.run (Re.Seq [Re.Opt (Re.Lit "034"%char); Re.Grp "1" (Re.Plus (Re.Chr unquoted));
                          Re.Opt (Re.Lit "034"%char)]) s1 [] (fun _ c => Some c) = Some m) in E.
  rewrite run_Seq_cons in E.
  apply run_Opt_Lit in E as (q & s2 & -> & Hq & E).
  change (Re.run (Re.Seq [Re.Grp "1" (Re.Plus (Re.Chr unquoted)); Re.Opt (Re.Lit "034"%char)])
            s2 [] (fun _ c => Some c) = Some m) in E.
  rewrite run_Seq_cons in E.
  apply run_Grp_Plus_Chr in E as (c & pre & s3 & -> & Hv & E).
  change (Re.run (Re.Opt (Re.Lit "034"%char)) s3 [("1", c :: pre)] (fun _ c => Some c)
          = Some m) in E.
  apply run_Opt_Lit in E as (q2 & s4 & _ & _ & E). injection E as <-.
  exists (string_of_list_ascii a), (string_of_list_ascii q),
    (string_of_list_ascii (c :: pre)), (string_of_list_ascii s3).
  rewrite list_ascii_of_string_of_list_ascii. repeat split; auto; try (cbn; discriminate).
  - rewrite <- (string_of_list_ascii_of_string content), Hs.
    change (c :: pre ++ s3) with ((c :: pre) ++ s3).
    rewrite !string_of_list_ascii_app, string_of_list_ascii_of_string, string_app_assoc.
    reflexivity.
  - unfold ends_line. rewrite list_ascii_of_string_of_list_ascii.
    destruct (rev a); [reflexivity|]. apply Ascii.eqb_eq, Hl.
  - destruct Hq as [-> | ->]; [left|right]; reflexivity.
Qed.

Lemma get_os_info_run w :
  get_os_info w
  = (w, match Path_read_text w OS_RELEASE_PATH with
        | Return content => Return (os_release_fields content)
        | Raise e => if is_OSError e then Return ("Unknown", "Unknown") else Raise e
        end).
Proof.
  unfold get_os_info, try_except. unfold bindM at 1. rewrite bindM_lift.
  destruct (Path_exists w OS_RELEASE_PATH) as [[|]|e0] eqn:Ex.
  - rewrite bindM_lift.
    destruct (Path_read_text w OS_RELEASE_PATH) as [content|e]; [reflexivity|].
    destruct (is_OSError e); reflexivity.
  - destruct (Path_read_text_unseen w OS_RELEASE_PATH) as [n ->]; [congruence|]. reflexivity.
  - destruct (Path_read_text_unseen w OS_RELEASE_PATH) as [n ->]; [congruence|].
    apply Path_exists_raises in Ex as (n0 & -> & _). reflexivity.
Qed.

(** *** The first line that holds a field *)

Lemma starts_with_app prefix s : starts_with prefix (prefix ++ s) = true.
Proof.
  induction prefix as [|c prefix IH]; [reflexivity|].
  cbn [app starts_with]. rewrite Ascii.eqb_refl. exact IH.
Qed.

Lemma starts_with_inv prefix : forall s s',
  s = (prefix ++ s')%list -> starts_with prefix s = true.
Proof. intros s s' ->. apply starts_with_app. Qed.

(** A search by lines passes over the lines that do not start with the
    text every match of the pattern starts with. *)
Lemma search_lines_from_skips r prefix :
  (forall s caps, Re.run r s [] (fun _ c => Some c) = Some caps ->
                  starts_with prefix s = true) ->
  forall before line_start rest,
    earlier_line_starts_with prefix line_start before rest = false ->
    search_lines_from r line_start (before ++ rest)
    = search_lines_from r
        (match rev before with [] => line_start | c :: _ => Ascii.eqb c "010"%char end) rest.
Proof.
  intros Hr. induction before as [|c before IH]; intros line_start rest; [reflexivity|].
  cbn [earlier_line_starts_with]. intros H.
  apply orb_false_iff in H as [H1 H2].
  change ((c :: before) ++ rest)%list with (c :: before ++ rest)%list.
  cbn [search_lines_from].
  assert (Hnone : (if line_start
                   then Re.run r (c :: before ++ rest) [] (fun _ caps => Some caps)
                   else None) = None).
  { destruct line_start; [|reflexivity].
    destruct (Re.run r (c :: before ++ rest) [] _) as [caps|] eqn:E; [|reflexivity].
    apply Hr in E. cbn [andb] in H1. change (c :: before ++ rest)%list
      with ((c :: before) ++ rest)%list in E. congruence. }
  rewrite Hnone, (IH _ _ H2). f_equal.
  cbn [rev]. destruct (rev before) as [|x xs]; reflexivity.
Qed.

Lemma search_lines_from_here r s caps :
  Re.run r s [] (fun _ c => Some c) = Some caps -> search_lines_from r true s = Some caps.
Proof. intros H. destruct s; simpl; rewrite H; reflexivity. Qed.

Lemma os_release_field_starts key s caps :
  Re.run (os_release_field key) s [] (fun _ c => Some c) = Some caps ->
  starts_with (list_ascii_of_string (key +:+ "=")) s = true.
Proof.
  unfold os_release_field. rewrite run_Seq_cons. intros H.
  apply run_Text in H as (s' & -> & _). apply starts_with_app.
Qed.

Lemma run_Opt_Lit_match {A} q s caps (k : list ascii -> Re.captures -> option A) x :
  k s caps = Some x -> Re.run (Re.Opt (Re.Lit q)) (q :: s) caps k = Some x.
Proof. intros H. unfold Re.Opt, Re.Lit. cbn [Re.run]. rewrite Ascii.eqb_refl, H. reflexivity. Qed.

Lemma run_Opt_Lit_skip {A} q s caps (k : list ascii -> Re.captures -> option A) :
  match s with [] => True | c :: _ => Ascii.eqb q c = false end ->
  Re.run (Re.Opt (Re.Lit q)) s caps k = k s caps.
Proof.
  intros H. unfold Re.Opt, Re.Lit. cbn [Re.run].
  destruct s as [|c s]; [reflexivity|]. rewrite H. reflexivity.
Qed.

Lemma run_Opt_Lit_total {A} q s caps (k : list ascii -> Re.captures -> option A) :
  (forall s', is_Some (k s' caps)) -> is_Some (Re.run (Re.Opt (Re.Lit q)) s caps k).
Proof.
  intros H. unfold Re.Opt, Re.Lit. cbn [Re.run].
  destruct s as [|c s]; [apply H|].
  destruct (Ascii.eqb q c); [|apply H].
  destruct (k s caps) eqn:E; [eauto|apply H].
Qed.

(** A field at the head of a line is read off whole. *)
Lemma os_release_field_match key quote v after :
  quote = "" \/ quote = dq ->
  v <> "" -> forallb unquoted (list_ascii_of_string v) = true ->
  ends_at (fun c => negb (unquoted c)) after = true ->
  Re.run (os_release_field key)
    (list_ascii_of_string (key +:+ "=" +:+ quote +:+ v +:+ after)) []
    (fun _ c => Some c)
  = Some [("1", list_ascii_of_string v)].
Proof.
  intros Hq Hne Hv Hend.
  rewrite <- string_app_assoc, (list_ascii_of_string_app (key +:+ "=")).
  unfold os_release_field. rewrite run_Seq_cons, run_Text_match.
  change (Re.run (Re.Seq [Re.Opt (Re.Lit "034"%char); Re.Grp "1" (Re.Plus (Re.Chr unquoted));
                          Re.Opt (Re.Lit "034"%char)])
            (list_ascii_of_string (quote +:+ v +:+ after)) [] (fun _ c => Some c)
          = Some [("1", list_ascii_of_string v)]).
  rewrite run_Seq_cons, !list_ascii_of_string_app.
  destruct (list_ascii_of_string v) as [|c pre] eqn:E.
  { destruct v; [contradiction|discriminate]. }
  assert (Hgroup : Re.run (Re.Seq [Re.Grp "1" (Re.Plus (Re.Chr unquoted));
                                   Re.Opt (Re.Lit "034"%char)])
                     ((c :: pre) ++ list_ascii_of_string after) [] (fun _ c0 => Some c0)
                   = Some [("1", c :: pre)]).
  { rewrite run_Seq_cons.
    apply run_Grp_Plus_Chr_greedy; [exact Hv| |].
    - pose proof (ends_at_list (fun c => negb (unquoted c)) after Hend) as Hl.
      destruct (list_ascii_of_string after) as [|d rest]; [trivial|].
      rewrite negb_involutive in Hl. exact Hl.
    - change (Re.Seq [Re.Opt (Re.Lit "034"%char)]) with (Re.Opt (Re.Lit "034"%char)).
      unfold Re.Opt, Re.Lit. cbn [Re.run].
      destruct (list_ascii_of_string after) as [|d rest]; [reflexivity|].
      destruct (Ascii.eqb "034"%char d); reflexivity. }
  destruct Hq as [-> | ->].
  - cbn [list_ascii_of_string app]. rewrite run_Opt_Lit_skip; [exact Hgroup|].
    cbn [forallb] in Hv. apply andb_prop in Hv as [Hc _].
    cbn [app]. unfold unquoted in Hc. apply negb_true_iff, orb_false_iff in Hc as [Hc _].
    rewrite Ascii.eqb_sym. exact Hc.
  - change (list_ascii_of_string dq) with ["034"%char]. cbn [app].
    apply run_Opt_Lit_match. exact Hgroup.
Qed.

Lemma os_release_field_found key before quote v after :
  ends_line before = true ->
  earlier_line_starts_with (list_ascii_of_string (key +:+ "=")) true
    (list_ascii_of_string before)
    (list_ascii_of_string (key +:+ "=" +:+ quote +:+ v +:+ after)) = false ->
  quote = "" \/ quote = dq ->
  v <> "" -> forallb unquoted (list_ascii_of_string v) = true ->
  ends_at (fun c => negb (unquoted c)) after = true ->
  exists m,
    search_lines (os_release_field key) (before +:+ key +:+ "=" +:+ quote +:+ v +:+ after)
    = Some m
    /\ group1 m = Some v.
Proof.
  intros Hl Hfirst Hq Hne Hv Hend. exists [("1", list_ascii_of_string v)]. split.
  - unfold search_lines. rewrite (list_ascii_of_string_app before).
    rewrite (search_lines_from_skips _ _ (os_release_field_starts key) _ _ _ Hfirst).
    unfold ends_line in Hl.
    replace (match rev (list_ascii_of_string before) with
             | [] => true
             | c :: _ => Ascii.eqb c "010"%char
             end) with true by (symmetry; exact Hl).
    apply search_lines_from_here, os_release_field_match; assumption.
  - unfold group1. cbn. rewrite string_of_list_ascii_of_string. reflexivity.
Qed.

(** What an answer of [get_os_info] is. *)
Lemma os_release_fields_sound content key :
  let v := match search_lines (os_release_field key) content with
           | Some m => default "" (group1 m)
           | None => "Unknown"
           end in
  v = "Unknown"
  \/ exists before quote after,
       content = before +:+ key +:+ "=" +:+ quote +:+ v +:+ after
       /\ ends_line before = true
       /\ (quote = "" \/ quote = dq)
       /\ v <> "" /\ forallb unquoted (list_ascii_of_string v) = true.
Proof.
  cbv zeta.
  destruct (search_lines (os_release_field key) content) as [m|] eqn:E; [|left; reflexivity].
  apply os_release_field_spec in E as (before & quote & v & after & -> & Hc & Hl & Hq & Hne & Hv).
  right. exists before, quote, after. cbn [default]. auto 10.
Qed.

(** X23. [get_os_info] reads the fields NAME and VERSION of
    /etc/os-release.  It only reads.  When the file is read, each of the
    two fields of the answer is the word Unknown, or else was read off a
    line that starts with the key and an equals sign: the text after an
    optional double quote, which is not empty and holds neither a double
    quote nor a newline.  Conversely the value of the first line that
    starts with the key and an equals sign is the answer for that key, when
    that value is not empty and a double quote, a newline or the end of the
    text ends it.  When reading the file fails with an [OSError], or
    [exists()] does (both stand inside the [try] block), the answer is
    Unknown twice; a [UnicodeDecodeError] of the read is let out. *)
Theorem get_os_info_reads_fields (w : World) :
  after get_os_info w = w
  /\ (forall content,
        Path_read_text w OS_RELEASE_PATH = Return content ->
        exists name version,
          outcome get_os_info w = Return (name, version)
          /\ Forall (fun '(key, v) =>
                       (v = "Unknown"
                        \/ exists before quote after,
                             content = before +:+ key +:+ "=" +:+ quote +:+ v +:+ after
                             /\ ends_line before = true
                             /\ (quote = "" \/ quote = dq)
                             /\ v <> "" /\ forallb unquoted (list_ascii_of_string v) = true)
                       /\ forall before quote value after,
                            content = before +:+ key +:+ "=" +:+ quote +:+ value +:+ after ->
                            ends_line before = true ->
                            earlier_line_starts_with (list_ascii_of_string (key +:+ "=")) true
                              (list_ascii_of_string before)
                              (list_ascii_of_string
                                 (key +:+ "=" +:+ quote +:+ value +:+ after)) = false ->
                            quote = "" \/ quote = dq ->
                            value <> "" ->
                            forallb unquoted (list_ascii_of_string value) = true ->
                            ends_at (fun c => negb (unquoted c)) after = true ->
                            v = value)
               [("NAME", name); ("VERSION", version)])
  /\ (forall e, Path_read_text w OS_RELEASE_PATH = Raise e ->
                outcome get_os_info w
                = if is_OSError e then Return ("Unknown", "Unknown") else Raise e).
Proof.
  unfold after, outcome. rewrite get_os_info_run. cbn [fst snd].
  split; [reflexivity|]. split.
  - intros content ->. unfold os_release_fields. do 2 eexists. split; [reflexivity|].
    assert (H : forall key,
               let v := match search_lines (os_release_field key) content with
                        | Some m => default "" (group1 m)
                        | None => "Unknown"
                        end in
               forall before quote value after,
                 content = before +:+ key +:+ "=" +:+ quote +:+ value +:+ after ->
                 ends_line before = true ->
                 earlier_line_starts_with (list_ascii_of_string (key +:+ "=")) true
                   (list_ascii_of_string before)
                   (list_ascii_of_string (key +:+ "=" +:+ quote +:+ value +:+ after)) = false ->
                 quote = "" \/ quote = dq ->
                 value <> "" ->
                 forallb unquoted (list_ascii_of_string value) = true ->
                 ends_at (fun c => negb (unquoted c)) after = true ->
                 v = value).
    { intros key v before quote value after -> Hl Hfirst Hq Hne Hv Hend. subst v.
      destruct (os_release_field_found key before quote value after Hl Hfirst Hq Hne Hv Hend)
        as (m & -> & ->). reflexivity. }
    constructor; [split; [apply (os_release_fields_sound content "NAME")|apply (H "NAME")]|].
    constructor; [split; [apply (os_release_fields_sound content "VERSION")|apply (H "VERSION")]|].
    constructor.
  - intros e ->. reflexivity.
Qed.

(** The two fields of a usual /etc/os-release: the lines PRETTY_NAME and
    VERSION_ID are passed over. *)
Example get_os_info_example :
  outcome get_os_info os_release_world = Return ("Ubuntu", "22.04.3 LTS (Jammy Jellyfish)")
  /\ outcome get_os_info Examples.no_driver_world = Return ("Unknown", "Unknown").
Proof. split; vm_compute; reflexivity. Qed.


(** ** [check_command_exists] *)

(** X24. [check_command_exists] never raises and only reads.  It answers
    [True] exactly when the command's name holds no NUL byte and a program
    called which is found through PATH, starts, writes text to both of its
    outputs and exits with status 0 for the command (no time limit is set:
    the program is taken to end); where [subprocess.run] refuses the name,
    which is missing or cannot be run, or its output cannot be decoded, the
    command is reported as absent. *)
Theorem check_command_exists_answer (command : string) (w : World) :
  check_command_exists command w
  = (w, Return (negb (has_nul command)
                && match spawn w (Word "which") [Word command] with
                   | inr pr =>
                       is_text (stdout pr) && is_text (stderr pr)
                       && (returncode pr =? 0)%Z
                   | inl _ => false
                   end)).
Proof.
  unfold check_command_exists, try_except, bindM, subprocess_run.
  change (existsb has_nul (map arg_str [Word "which"; Word command]))
    with (has_nul command || false).
  rewrite orb_false_r.
  destruct (has_nul command); [reflexivity|]. cbn [negb andb].
  cbn [is_sudo String.eqb Ascii.eqb Bool.eqb andb].
  destruct (spawn w (Word "which") [Word command]) as [n|pr]; [reflexivity|].
  cbn [timed_out]. unfold completed.
  destruct (stdout pr) as [reason|out]; [reflexivity|].
  destruct (stderr pr) as [reason|err]; reflexivity.
Qed.

(** ** The commands *)

Import Cli.

Section Commands.

Context {A B : Type}.

Lemma ending_bind (m : C A) (k : A -> C B) w :
  ending (bindC m k) w
  = match ending m w with
    | inl a => ending (k a) (world_after m w)
    | inr s => inr s
    end.
Proof.
  unfold ending, world_after, bindC. destruct (m w) as [[w1 o1] [a|s]]; [|reflexivity].
  cbn. destruct (k a w1) as [[w2 o2] r]. reflexivity.
Qed.

Lemma world_after_bind (m : C A) (k : A -> C B) w :
  world_after (bindC m k) w
  = match ending m w with
    | inl a => world_after (k a) (world_after m w)
    | inr _ => world_after m w
    end.
Proof.
  unfold ending, world_after, bindC. destruct (m w) as [[w1 o1] [a|s]]; [|reflexivity].
  cbn. destruct (k a w1) as [[w2 o2] r]. reflexivity.
Qed.

Lemma written_bind (m : C A) (k : A -> C B) w :
  written (bindC m k) w
  = match ending m w with
    | inl a => written m w ++ written (k a) (world_after m w)
    | inr _ => written m w
    end.
Proof.
  unfold ending, world_after, written, bindC. destruct (m w) as [[w1 o1] [a|s]]; [|reflexivity].
  cbn. destruct (k a w1) as [[w2 o2] r]. reflexivity.
Qed.

Lemma ending_call (m : M A) w :
  ending (call m) w = match outcome m w with Return a => inl a | Raise e => inr (Uncaught e) end.
Proof. unfold ending, call, outcome. destruct (m w) as [w' [a|e]]; reflexivity. Qed.

Lemma world_after_call (m : M A) w : world_after (call m) w = after m w.
Proof. unfold world_after, call, after. destruct (m w) as [w' [a|e]]; reflexivity. Qed.

Lemma written_call (m : M A) w : written (call m) w = [].
Proof. unfold written, call. destruct (m w) as [w' [a|e]]; reflexivity. Qed.

Lemma ending_try (body : C A) handler w :
  ending (try_exceptC body handler) w
  = match ending body w with
    | inr (Uncaught e) =>
        match handler e with
        | Some h => ending h (world_after body w)
        | None => inr (Uncaught e)
        end
    | r => r
    end.
Proof.
  unfold ending, world_after, try_exceptC.
  destruct (body w) as [[w1 o1] [a|[code|e|err]]]; try reflexivity.
  cbn. destruct (handler e) as [h|]; [|reflexivity].
  destruct (h w1) as [[w2 o2] r]. reflexivity.
Qed.

Lemma world_after_try (body : C A) handler w :
  world_after (try_exceptC body handler) w
  = match ending body w with
    | inr (Uncaught e) =>
        match handler e with
        | Some h => world_after h (world_after body w)
        | None => world_after body w
        end
    | _ => world_after body w
    end.
Proof.
  unfold ending, world_after, try_exceptC.
  destruct (body w) as [[w1 o1] [a|[code|e|err]]]; try reflexivity.
  cbn. destruct (handler e) as [h|]; [|reflexivity].
  destruct (h w1) as [[w2 o2] r]. reflexivity.
Qed.

Lemma written_try (body : C A) handler w :
  written (try_exceptC body handler) w
  = match ending body w with
    | inr (Uncaught e) =>
        match handler e with
        | Some h => written body w ++ written h (world_after body w)
        | None => written body w
        end
    | _ => written body w
    end.
Proof.
  unfold ending, world_after, written, try_exceptC.
  destruct (body w) as [[w1 o1] [a|[code|e|err]]]; try reflexivity.
  cbn. destruct (handler e) as [h|]; [|reflexivity].
  destruct (h w1) as [[w2 o2] r]. reflexivity.
Qed.

(** Commands that only read, put together. *)
Lemma read_only_bind (m : C A) (k : A -> C B) :
  read_only m -> (forall a, read_only (k a)) -> read_only (bindC m k).
Proof.
  intros Hm Hk w. rewrite world_after_bind. destruct (ending m w); rewrite Hm; [apply Hk|].
  reflexivity.
Qed.

Lemma read_only_call (m : M A) : (forall w, after m w = w) -> read_only (call m).
Proof. intros H w. rewrite world_after_call. apply H. Qed.

Lemma read_only_try (body : C A) handler :
  read_only body -> (forall e h, handler e = Some h -> read_only h) ->
  read_only (try_exceptC body handler).
Proof.
  intros Hb Hh w. rewrite world_after_try.
  destruct (ending body w) as [a|[code|e|err]]; rewrite ?Hb; try reflexivity.
  destruct (handler e) as [h|] eqn:E; [eapply Hh, E|reflexivity].
Qed.

Lemma read_only_ret (a : A) : read_only (retC a).
Proof. intros w. reflexivity. Qed.

Lemma read_only_stop (s : stop) : read_only (@stopC A s).
Proof. intros w. reflexivity. Qed.

Lemma read_only_if (b : bool) (c1 c2 : C A) :
  read_only c1 -> read_only c2 -> read_only (if b then c1 else c2).
Proof. destruct b; auto. Qed.

End Commands.

Lemma read_only_emit o : read_only (emit o).
Proof. intros w. reflexivity. Qed.

Lemma read_only_dict_item d key : read_only (dict_item d key).
Proof. unfold dict_item. destruct (d !! key); intros w; reflexivity. Qed.

Lemma after_is_wsl2 w : after is_wsl2 w = w.
Proof. unfold after. rewrite is_wsl2_run. reflexivity. Qed.

Lemma after_check_driver_compatibility w : after check_driver_compatibility w = w.
Proof.
  destruct (Path_exists w WINDOWS_NVIDIA_SMI_PATH) as [[|]|e] eqn:Hex.
  - unfold after. rewrite (check_driver_compatibility_run w Hex). reflexivity.
  - unfold after, check_driver_compatibility. rewrite bindM_lift, Hex. reflexivity.
  - unfold after, check_driver_compatibility. rewrite bindM_lift, Hex. reflexivity.
Qed.

Lemma after_driver_query query w : query ∈ driver_queries -> after query w = w.
Proof. intros Hq. unfold after. rewrite (driver_query_pair query w Hq). reflexivity. Qed.

Lemma after_get_os_info w : after get_os_info w = w.
Proof. unfold after. rewrite get_os_info_run. reflexivity. Qed.

Lemma after_get_kernel_version w : after get_kernel_version w = w.
Proof. unfold after. rewrite get_kernel_version_run. reflexivity. Qed.

Lemma after_lift {A} (f : World -> result A) w : after (lift f) w = w.
Proof. reflexivity. Qed.

Ltac read_only_step :=
  first
    [ apply read_only_ret | apply read_only_stop | apply read_only_emit
    | apply read_only_dict_item
    | apply read_only_call;
      first [ exact after_is_wsl2 | exact after_check_driver_compatibility
            | exact after_get_os_info | exact after_get_kernel_version
            | intros ?; reflexivity
            | intros ?; apply after_driver_query; unfold driver_queries; set_solver ]
    | apply read_only_bind; [|intros ?]
    | apply read_only_try; [|intros ? ? ?]
    | apply read_only_if
    | match goal with
      | |- read_only (match ?x with _ => _ end) => destruct x
      | H : (if ?b then _ else _) = Some _ |- _ => destruct b; [injection H as <-|discriminate H]
      | H : match ?e with _ => _ end = Some _ |- _ =>
          destruct e; try discriminate H; injection H as <-
      end ].

(** X25. The check command run with [--no-fix] and the info command only
    read: whatever the flags and however they end, they leave the file
    system and the rest of the world as they found it. *)
Theorem check_no_fix_and_info_only_read (json_output verbose : bool) (w : World) :
  world_after (check json_output true verbose) w = w
  /\ world_after (info json_output) w = w.
Proof.
  split.
  - revert w. change (read_only (check json_output true verbose)).
    unfold check, print_header, print_driver_info_table, print_info, print_error,
      print_success, print_json_output, console_print.
    cbn [negb]. repeat read_only_step.
  - revert w. change (read_only (info json_output)).
    unfold info, print_header, print_driver_info_table, print_system_info_table,
      print_info, print_error, print_warning, print_json_output, console_print.
    repeat read_only_step.
Qed.

Lemma is_wsl2_pair w : is_wsl2 w = (w, outcome is_wsl2 w).
Proof. unfold outcome. rewrite is_wsl2_run. reflexivity. Qed.

(** X26. Outside WSL2 the three commands refuse at once.  When
    [is_wsl2] answers [False], check, fix and info end with
    [typer.Exit(1)], leave the world as it was, and write one thing: the
    error line, or, for check and fix under [--json], an error object.
    The info command writes the error line under [--json] as well. *)
Theorem commands_refuse_outside_wsl2 (json_output no_fix verbose : bool) (w : World) :
  outcome is_wsl2 w = Return false ->
  check json_output no_fix verbose w
  = (w, [if json_output
         then PrintJson {[ "error" := JStr "Not running on WSL2"; "compatible" := JBool false ]}
         else ConsolePrint ("[red]✗[/red] " +:+ NOT_WSL2)], inr (Exit 1))
  /\ fix_command json_output verbose w
     = (w, [if json_output
            then PrintJson {[ "error" := JStr "Not running on WSL2"; "success" := JBool false ]}
            else ConsolePrint ("[red]✗[/red] " +:+ NOT_WSL2)], inr (Exit 1))
  /\ info json_output w = (w, [ConsolePrint ("[red]✗[/red] " +:+ NOT_WSL2)], inr (Exit 1)).
Proof.
  intros H. repeat split.
  - unfold check, bindC at 1, call at 1. rewrite is_wsl2_pair, H. cbn [negb].
    destruct json_output; reflexivity.
  - unfold fix_command, bindC at 1, call at 1. rewrite is_wsl2_pair, H. cbn [negb].
    destruct json_output; reflexivity.
  - unfold info, bindC at 1, call at 1. rewrite is_wsl2_pair, H. reflexivity.
Qed.

Lemma commands_refuse_outside_wsl2_witness :
  check true false false Examples.no_driver_world
  = (Examples.no_driver_world,
     [PrintJson {[ "error" := JStr "Not running on WSL2"; "compatible" := JBool false ]}],
     inr (Exit 1))
  /\ fix_command true false Examples.no_driver_world
     = (Examples.no_driver_world,
        [PrintJson {[ "error" := JStr "Not running on WSL2"; "success" := JBool false ]}],
        inr (Exit 1))
  /\ info true Examples.no_driver_world
     = (Examples.no_driver_world, [ConsolePrint ("[red]✗[/red] " +:+ NOT_WSL2)], inr (Exit 1)).
Proof.
  apply (commands_refuse_outside_wsl2 true false false Examples.no_driver_world).
  vm_compute. reflexivity.
Defined.

(** X27. Under [--json] the fix command writes one JSON object, or
    nothing when an exception leaves it.  It returns (exit status 0)
    exactly when [is_wsl2] answers [True] and [fix_nvidia_smi] returns;
    the object then carries the flag and the message of the repair and no
    error, so a repair that reports [success = False] still exits with
    status 0.  When it ends with [typer.Exit(1)] (not WSL2, no Windows
    binary, [NvidiaSmiError]) the object carries an error and
    [success = False].  An exception that leaves the command was raised by
    [is_wsl2], by [exists()] on the Windows binary, or by [fix_nvidia_smi]
    and is no [NvidiaSmiError]; nothing has then been written. *)
Theorem fix_command_json (verbose : bool) (w : World) :
  (ending (fix_command true verbose) w = inl tt
   <-> outcome is_wsl2 w = Return true /\ raised (outcome fix_nvidia_smi w) = false)
  /\ match ending (fix_command true verbose) w with
     | inl _ =>
         exists data success message,
           written (fix_command true verbose) w = [PrintJson data]
           /\ outcome fix_nvidia_smi w = Return (success, message)
           /\ data !! "success" = Some (JBool success)
           /\ data !! "message" = Some (JStr message)
           /\ data !! "error" = None
     | inr (Exit code) =>
         exists data,
           written (fix_command true verbose) w = [PrintJson data]
           /\ code = 1%Z /\ data !! "success" = Some (JBool false)
           /\ is_Some (data !! "error")
     | inr (Uncaught e) =>
         written (fix_command true verbose) w = []
         /\ (outcome is_wsl2 w = Raise e
             \/ Path_exists w WINDOWS_NVIDIA_SMI_PATH = Raise e
             \/ (outcome fix_nvidia_smi w = Raise e /\ is_NvidiaSmiError e = false))
     | inr (Crash _) => False
     end.
Proof.
  unfold fix_command.
  rewrite written_bind, ending_bind, ending_call, written_call, world_after_call, after_is_wsl2.
  destruct (outcome is_wsl2 w) as [[|]|e] eqn:Ew; cbn [negb app].
  2:{ split; [split; [discriminate|intros [? _]; discriminate]|].
      eexists. split; [reflexivity|]. cbn. repeat split; eauto. }
  2:{ split; [split; [discriminate|intros [? _]; discriminate]|]. auto. }
  rewrite andb_false_r.
  rewrite written_bind, ending_bind. cbn [ending retC snd written fst world_after app].
  rewrite written_bind, ending_bind. cbn [ending retC snd written fst world_after app].
  rewrite written_bind, ending_bind, ending_call, written_call, world_after_call.
  cbn [outcome lift snd after fst app].
  destruct (Path_exists w WINDOWS_NVIDIA_SMI_PATH) as [[|]|e0] eqn:HH; cbn [negb].
  2:{ split.
      - split; [discriminate|]. intros [_ Hf]. revert Hf.
        unfold outcome. rewrite (fix_without_driver w HH). discriminate.
      - eexists. split; [reflexivity|]. cbn. repeat split; eauto. }
  2:{ split.
      - split; [discriminate|]. intros [_ Hf]. revert Hf.
        unfold outcome. rewrite (fix_unseen_driver w e0 HH). discriminate.
      - auto. }
  rewrite written_bind, ending_bind. cbn [ending retC snd written fst world_after app].
  rewrite written_try, ending_try.
  rewrite written_bind, ending_bind, ending_call, written_call, world_after_call. cbn [app].
  destruct (outcome fix_nvidia_smi w) as [[success message]|e] eqn:Ef.
  - split; [split; [intros _; split; reflexivity | reflexivity]|].
    cbn. eexists _, success, message. repeat split; reflexivity.
  - destruct (is_NvidiaSmiError e) eqn:En.
    + rewrite ending_bind. cbn. split; [split; [discriminate|intros [_ ?]; discriminate]|].
      eexists. split; [reflexivity|]. repeat split; eauto.
    + split; [split; [discriminate|intros [_ ?]; discriminate]|]. auto.
Qed.

(** What [check_driver_compatibility] can return: the verdict on a missing
    driver, or a verdict on a version that [version_meets_minimum]
    accepted. *)
Lemma check_driver_compatibility_returns w c m d :
  outcome check_driver_compatibility w = Return (c, m, d) ->
  (c = false /\ dict_get d "driver_version" = None)
  \/ exists v cuda gpu,
       v <> "" /\ d = driver_info v cuda gpu
       /\ version_meets_minimum v MIN_WINDOWS_DRIVER = Return c
       /\ (c = true -> exists r, version_meets_minimum v RECOMMENDED_DRIVER = Return r).
Proof.
  destruct (Path_exists w WINDOWS_NVIDIA_SMI_PATH) as [[|]|e0] eqn:Hex.
  3:{ unfold outcome, check_driver_compatibility. rewrite bindM_lift, Hex. discriminate. }
  - unfold outcome. rewrite (check_driver_compatibility_run w Hex). cbn [snd].
    destruct (outcome get_driver_version w) as [[v|]|e]; try discriminate.
    cbn [bind]. destruct v as [|a v]; [discriminate|].
    destruct (outcome get_driver_cuda_version w) as [cuda|e]; [|discriminate].
    destruct (outcome get_gpu_name w) as [gpu|e]; [|discriminate].
    cbn [bind].
    destruct (version_meets_minimum (String a v) MIN_WINDOWS_DRIVER) as [[|]|e] eqn:Emin;
      try discriminate; cbn [bind].
    + destruct (version_meets_minimum (String a v) RECOMMENDED_DRIVER) as [r|e] eqn:Erec;
        [|discriminate].
      cbn [bind]. intros [= <- <- <-]. right. exists (String a v), cuda, gpu.
      split; [discriminate|]. split; [reflexivity|]. split; [exact Emin|]. eauto.
    + intros [= <- <- <-]. right. exists (String a v), cuda, gpu.
      split; [discriminate|]. split; [reflexivity|]. split; [exact Emin|]. discriminate.
  - unfold outcome, check_driver_compatibility. rewrite bindM_lift, Hex. cbn.
    intros [= <- <- <-]. left. split; reflexivity.
Qed.


Lemma ending_ret {A} (a : A) w : ending (retC a) w = inl a.
Proof. reflexivity. Qed.

Lemma world_after_ret {A} (a : A) w : world_after (retC a) w = w.
Proof. reflexivity. Qed.

Lemma ending_emit o w : ending (emit o) w = inl tt.
Proof. reflexivity. Qed.

Lemma world_after_emit o w : world_after (emit o) w = w.
Proof. reflexivity. Qed.

Lemma ending_stop {A} s w : ending (@stopC A s) w = inr s.
Proof. reflexivity. Qed.

Lemma ending_lift {A} (f : World -> result A) w :
  ending (call (lift f)) w = match f w with Return a => inl a | Raise e => inr (Uncaught e) end.
Proof. rewrite ending_call. reflexivity. Qed.

Lemma driver_info_lookup v cuda gpu :
  dict_get (driver_info v cuda gpu) "driver_version" = Some v
  /\ driver_info v cuda gpu !! "min_required" = Some (Some MIN_WINDOWS_DRIVER)
  /\ driver_info v cuda gpu !! "recommended" = Some (Some RECOMMENDED_DRIVER).
Proof. repeat split. Qed.

Lemma truthy_nonempty v : v <> "" -> truthy (Some v) = true.
Proof. destruct v; [intros H; contradiction H|]; reflexivity. Qed.

Lemma ending_bind_assoc {A B D} (m : C A) (k1 : A -> C B) (k2 : B -> C D) w :
  ending (bindC (bindC m k1) k2) w = ending (bindC m (fun a => bindC (k1 a) k2)) w.
Proof.
  unfold ending, bindC. destruct (m w) as [[w1 o1] [a|s]]; [|reflexivity].
  destruct (k1 a w1) as [[w2 o2] [b|s]]; [|reflexivity].
  destruct (k2 b w2) as [[w3 o3] r]. reflexivity.
Qed.

Lemma ending_bind_emit {A} o (k : unit -> C A) w : ending (bindC (emit o) k) w = ending (k tt) w.
Proof. unfold ending, bindC, emit. destruct (k tt w) as [[w2 o2] r]. reflexivity. Qed.

Lemma ending_bind_ret {A B} (a : A) (k : A -> C B) w : ending (bindC (retC a) k) w = ending (k a) w.
Proof. unfold ending, bindC, retC. destruct (k a w) as [[w2 o2] r]. reflexivity. Qed.

Lemma ending_bind_stop {A B} s (k : A -> C B) w : ending (bindC (stopC s) k) w = inr s.
Proof. reflexivity. Qed.

Lemma ending_bind_print_update_instructions {A} current min_version recommended
    (k : unit -> C A) w :
  ending (bindC (print_update_instructions current min_version recommended) k) w
  = ending (k tt) w.
Proof.
  unfold ending, bindC. cbn. destruct (k tt w) as [[w2 o2] r]. reflexivity.
Qed.

(** Running the steps of a small command. *)
Ltac steps :=
  repeat (rewrite ?ending_bind, ?world_after_bind, ?ending_emit, ?world_after_emit,
            ?ending_ret, ?world_after_ret, ?ending_stop;
          unfold console_print, print_info, print_success, print_warning, print_error).

(** Running the steps of a command that only write: the world stays. *)
Ltac writes :=
  repeat (rewrite ?ending_bind_print_update_instructions, ?ending_bind_assoc,
            ?ending_bind_emit, ?ending_bind_ret, ?ending_bind_stop,
            ?ending_emit, ?ending_ret, ?ending_stop;
          unfold console_print, print_info, print_success, print_warning, print_error,
            print_highlight, print_header, print_driver_info_table;
          cbv beta iota).

(** The two ways the exit status of [check] is settled. *)
Ltac check_fails := split; [discriminate | intros (? & _ & ? & ? & ?); discriminate].
Ltac check_passes :=
  split; [intros _; split; [reflexivity|]; split;
                      [intros; first [reflexivity | discriminate] | eauto]
         | reflexivity].

(** The part of [check] after the repair, run in the world [w0]. *)
Ltac check_report w0 :=
  let c := fresh "c" in let m := fresh "m" in let d := fresh "d" in
  let e := fresh "e" in let Ec := fresh "Ec" in
  rewrite ending_try, ending_call;
  destruct (outcome check_driver_compatibility w0) as [[[c m] d]|e] eqn:Ec;
  [ writes;
    let Hd := fresh "Hd" in let v := fresh "v" in let Hv := fresh "Hv" in
    let Hrec := fresh "Hrec" in let cuda := fresh "cuda" in let gpu := fresh "gpu" in
    destruct (check_driver_compatibility_returns w0 _ _ _ Ec)
      as [[-> Hd]|(v & cuda & gpu & Hv & -> & _ & Hrec)];
    [ rewrite Hd; cbn [truthy]; writes; check_fails
    | let Hdv := fresh "Hdv" in let Hmr := fresh "Hmr" in let Hre := fresh "Hre" in
      destruct (driver_info_lookup v cuda gpu) as (Hdv & Hmr & Hre);
      rewrite Hdv, (truthy_nonempty v Hv); unfold dict_item; rewrite Hmr, Hre;
      writes; destruct c;
      [ let r := fresh "r" in let Hr := fresh "Hr" in
        destruct (Hrec eq_refl) as [r Hr]; writes;
        destruct (bool_decide (Some v = Some RECOMMENDED_DRIVER)); cbn [negb]; writes;
        [ check_passes
        | rewrite ending_bind, ending_lift, Hr; destruct r; cbn [negb]; writes; check_passes ]
      | writes; check_fails ] ]
  | destruct e; cbv beta iota; writes; try check_fails;
    destruct (contains _ _); writes; check_fails ].

(** X28. Without [--json] the check command returns (exit status 0)
    exactly when [is_wsl2] answers [True], the repair, unless [--no-fix]
    is given, does not raise, and [check_driver_compatibility], run in the
    world the repair left, judges the driver compatible.  A missing or
    too old driver, a failed repair and a failed driver query all keep it
    from returning. *)
Theorem check_exit_status (no_fix verbose : bool) (w : World) :
  ending (check false no_fix verbose) w = inl tt
  <-> outcome is_wsl2 w = Return true
      /\ (no_fix = false -> raised (outcome fix_nvidia_smi w) = false)
      /\ exists message info,
           outcome check_driver_compatibility (if no_fix then w else after fix_nvidia_smi w)
           = Return (true, message, info).
Proof.
  unfold check.
  rewrite ending_bind, ending_call, world_after_call, after_is_wsl2.
  destruct (outcome is_wsl2 w) as [[|]|e] eqn:Ew; cbn [negb andb].
  2:{ writes. check_fails. }
  2:{ check_fails. }
  writes.
  destruct no_fix; cbn [negb].
  - writes. rewrite ending_bind. check_report w.
  - rewrite andb_true_r, ending_bind.
    match goal with |- context [ending ?b w] => set (repair := b) end.
    assert (ending repair w
            = match outcome fix_nvidia_smi w with
              | Return _ => inl tt
              | Raise e => if is_NvidiaSmiError e then inr (Exit 1) else inr (Uncaught e)
              end
            /\ world_after repair w = after fix_nvidia_smi w) as [-> Hw].
    { unfold repair.
      destruct verbose; steps; rewrite ending_try, world_after_try; steps;
        rewrite ending_call, world_after_call;
        (destruct (outcome fix_nvidia_smi w) as [[[|] message]|e] eqn:Ef;
         [split; reflexivity | split; reflexivity
         | destruct (is_NvidiaSmiError e); steps; split; reflexivity]). }
    rewrite Hw. clear Hw repair.
    destruct (outcome fix_nvidia_smi w) as [[success message]|e] eqn:Ef.
    + writes. rewrite ending_bind. check_report (after fix_nvidia_smi w).
    + split; [destruct (is_NvidiaSmiError e); discriminate|].
      intros (_ & H & _). specialize (H eq_refl). discriminate.
Qed.


Lemma written_emit o w : written (emit o) w = [o].
Proof. reflexivity. Qed.

Lemma written_ret {A} (a : A) w : written (retC a) w = [].
Proof. reflexivity. Qed.

Lemma written_stop {A} s w : written (@stopC A s) w = [].
Proof. reflexivity. Qed.

(** X29. Under [--json] the exit status of the check command does not tell
    the verdict.  The command returns (exit status 0) exactly when
    [is_wsl2] answers [True], the repair, unless [--no-fix] is given, does
    not raise, and [check_driver_compatibility], run in the world the
    repair left, returns, compatible or not.  It has then written one JSON
    object, the driver information with the keys [compatible] and
    [message] (the keys of the information win), followed by an empty
    line.  When it ends with [typer.Exit(1)] it has written one JSON
    object that carries an error and [compatible = False].  When an
    exception leaves it, that is one [is_wsl2], the repair or
    [check_driver_compatibility] raised, and nothing has been written. *)
Theorem check_json (no_fix verbose : bool) (w : World) :
  let driver := outcome check_driver_compatibility
                  (if no_fix then w else after fix_nvidia_smi w) in
  (ending (check true no_fix verbose) w = inl tt
   <-> outcome is_wsl2 w = Return true
       /\ (no_fix = false -> raised (outcome fix_nvidia_smi w) = false)
       /\ raised driver = false)
  /\ match ending (check true no_fix verbose) w with
     | inl _ =>
         exists is_compatible message info,
           driver = Return (is_compatible, message, info)
           /\ written (check true no_fix verbose) w
              = [PrintJson ((json_of <$> info)
                            ∪ {[ "compatible" := JBool is_compatible;
                                 "message" := JStr message ]});
                 ConsolePrint ""]
     | inr (Exit code) =>
         code = 1%Z
         /\ exists data,
              written (check true no_fix verbose) w = [PrintJson data]
              /\ data !! "compatible" = Some (JBool false) /\ is_Some (data !! "error")
     | inr (Uncaught e) =>
         written (check true no_fix verbose) w = []
         /\ (outcome is_wsl2 w = Raise e
             \/ (no_fix = false /\ outcome fix_nvidia_smi w = Raise e
                 /\ is_NvidiaSmiError e = false)
             \/ driver = Raise e)
     | inr (Crash _) => False
     end.
Proof.
  intros driver. unfold written, ending, check.
  unfold bindC, call, try_exceptC, retC, emit, stopC, print_json_output, console_print.
  rewrite is_wsl2_pair.
  destruct (outcome is_wsl2 w) as [[|]|e] eqn:Ew; cbn [negb andb app fst snd].
  2:{ split; [split; [discriminate|intros [? _]; discriminate]|].
      split; [reflexivity|]. eexists. split; [reflexivity|]. split; [reflexivity|]. eauto. }
  2:{ split; [split; [discriminate|intros [? _]; discriminate]|]. auto. }
  rewrite andb_false_r.
  destruct no_fix; cbn [negb].
  - subst driver. cbv beta iota. rewrite (run_pair check_driver_compatibility w).
    destruct (outcome check_driver_compatibility w) as [[[c m] d]|e]; cbn.
    + split; [|eauto]. split; [intros _; repeat split; discriminate | reflexivity].
    + split; [split; [destruct e; discriminate | intros (_ & _ & ?); discriminate]|].
      destruct e; cbn; eauto 10.
  - subst driver. cbv beta iota. rewrite (run_pair fix_nvidia_smi w).
    destruct (outcome fix_nvidia_smi w) as [[success message]|e] eqn:Ef; cbv beta iota.
    + rewrite (run_pair check_driver_compatibility (after fix_nvidia_smi w)).
      destruct (outcome check_driver_compatibility (after fix_nvidia_smi w))
        as [[[c m] d]|e]; cbn.
      * split; [|eauto]. split; [intros _; repeat split; reflexivity | reflexivity].
      * split; [split; [destruct e; discriminate | intros (_ & _ & ?); discriminate]|].
        destruct e; cbn; eauto 10.
    + destruct (is_NvidiaSmiError e) eqn:En; cbn.
      * split; [|eauto 10]. split; [discriminate|]. intros (_ & H & _).
        specialize (H eq_refl). discriminate.
      * split; [|auto 10]. split; [discriminate|]. intros (_ & H & _).
        specialize (H eq_refl). discriminate.
Qed.
